(** * FileVue server core: root confinement, sessions, shares and search

    A shallow embedding of the security-relevant server code of FileVue
    ([server/src/utils/index.js], [server/src/server.js],
    [server/src/routes/auth.js], [server/src/routes/shares.js],
    [server/src/routes/search.js], [server/src/routes/entries.js],
    [server/src/routes/folders.js], [server/src/routes/files.js]) together
    with the properties its specification states about it and further
    properties read off the code.

    JavaScript strings are modelled as [string] (sequences of 8-bit
    characters); the path separator is the POSIX one.  Integers that JavaScript
    keeps in a Number are modelled as [Z].  Calls into the operating system
    ([realpath], [stat], [readdir]), the wall clock and the random generator are
    explicit inputs of the functions that use them. *)

From Stdlib Require Import ZArith List String Ascii Bool Lia DecimalString.
From stdpp Require Import gmap strings.
Import ListNotations.

Local Open Scope Z_scope.

(* ===================================================================== *)
(** * String helpers mirroring the JavaScript String methods used          *)
(* ===================================================================== *)

Module JsString.

(** [s.startsWith(p)] *)
Definition startsWith (s p : string) : bool := String.prefix p s.

(** [s.endsWith(p)] *)
Fixpoint endsWith (s p : string) : bool :=
  String.eqb s p ||
  match s with
  | EmptyString => false
  | String _ r => endsWith r p
  end.

(** [s.includes(p)] *)
Fixpoint includes (s p : string) : bool :=
  String.prefix p s ||
  match s with
  | EmptyString => false
  | String _ r => includes r p
  end.

Definition is_lower (c : ascii) : bool :=
  let n := nat_of_ascii c in (97 <=? n)%nat && (n <=? 122)%nat.

Definition is_upper (c : ascii) : bool :=
  let n := nat_of_ascii c in (65 <=? n)%nat && (n <=? 90)%nat.

Definition upper_char (c : ascii) : ascii :=
  if is_lower c then ascii_of_nat (nat_of_ascii c - 32) else c.

Definition lower_char (c : ascii) : ascii :=
  if is_upper c then ascii_of_nat (nat_of_ascii c + 32) else c.

Fixpoint map_chars (f : ascii -> ascii) (s : string) : string :=
  match s with
  | EmptyString => EmptyString
  | String c r => String (f c) (map_chars f r)
  end.

(** [s.toUpperCase()] and [s.toLowerCase()] on strings of ASCII characters
    (the Unicode case mappings of other characters are outside the model;
    such characters are left unchanged). *)
Definition toUpperCase : string -> string := map_chars upper_char.
Definition toLowerCase : string -> string := map_chars lower_char.

Definition is_space (c : ascii) : bool :=
  let n := nat_of_ascii c in
  (n =? 32)%nat || ((9 <=? n)%nat && (n <=? 13)%nat).

Fixpoint trimStart (s : string) : string :=
  match s with
  | String c r => if is_space c then trimStart r else s
  | EmptyString => EmptyString
  end.

Fixpoint rev_string (acc s : string) : string :=
  match s with
  | EmptyString => acc
  | String c r => rev_string (String c acc) r
  end.

(** [s.trim()] *)
Definition trim (s : string) : string :=
  rev_string EmptyString (trimStart (rev_string EmptyString (trimStart s))).

(** [s.charAt(i)]: the empty string when [i] is out of range. *)
Definition charAt (s : string) (i : nat) : string :=
  match String.get i s with
  | Some c => String c EmptyString
  | None => EmptyString
  end.

Fixpoint forall_chars (f : ascii -> bool) (s : string) : bool :=
  match s with
  | EmptyString => true
  | String c r => f c && forall_chars f r
  end.

(** Every character. *)
Definition allAscii : list ascii := map ascii_of_nat (seq 0 256).

(** The strings on which the model of the case mappings is the JavaScript
    one: all characters below 128. *)
Definition isAscii (s : string) : bool :=
  forall_chars (fun c => (nat_of_ascii c <? 128)%nat) s.

(** Truthiness of a string value: [!s] holds for the empty string. *)
Definition truthy (s : string) : bool := negb (String.eqb s "").

End JsString.

(* ===================================================================== *)
(** * Node's [path] module, POSIX flavour                                  *)
(* ===================================================================== *)

Module Path.

Definition slash : ascii := "/"%char.

(** The segments between separators: ["a//b"] gives [["a"; ""; "b"]]. *)
Fixpoint split (s : string) : list string :=
  match s with
  | EmptyString => [EmptyString]
  | String c r =>
      if Ascii.eqb c slash then EmptyString :: split r
      else match split r with
           | [] => [String c EmptyString]
           | h :: t => String c h :: t
           end
  end.

(** One segment consumed by [normalizeString]; [res] is the stack of kept
    segments, innermost first. *)
Definition step (allowAboveRoot : bool) (res : list string) (seg : string)
  : list string :=
  if String.eqb seg "" then res
  else if String.eqb seg "." then res
  else if String.eqb seg ".." then
    match res with
    | top :: rest =>
        if String.eqb top ".." then (if allowAboveRoot then ".." :: res else res)
        else rest
    | [] => if allowAboveRoot then [".."] else []
    end
  else seg :: res.

Definition normSegs (allowAboveRoot : bool) (segs : list string) : list string :=
  rev (fold_left (step allowAboveRoot) segs []).

(** [normalizeString(path, allowAboveRoot, '/', isPosixPathSeparator)]:
    resolves [.] and [..] segments and drops empty ones. *)
Definition normalizeString (path : string) (allowAboveRoot : bool) : string :=
  String.concat "/" (normSegs allowAboveRoot (split path)).

Definition isAbsolute (path : string) : bool := JsString.startsWith path "/".

Definition hasTrailingSeparator (path : string) : bool := JsString.endsWith path "/".

(** [path.normalize(p)] *)
Definition normalize (path : string) : string :=
  if String.eqb path "" then "."
  else
    let abs := isAbsolute path in
    let trailingSeparator := hasTrailingSeparator path in
    let p := normalizeString path (negb abs) in
    if String.eqb p "" then
      (if abs then "/" else if trailingSeparator then "./" else ".")
    else
      let p := if trailingSeparator then String.append p "/" else p in
      if abs then String.append "/" p else p.

(** The right-to-left scan of [path.resolve]: arguments are prepended until
    an absolute one is met. *)
Fixpoint resolveScan (args : list string) : string * bool :=
  match args with
  | [] => (EmptyString, false)
  | p :: rest =>
      let '(resolvedPath, resolvedAbsolute) := resolveScan rest in
      if resolvedAbsolute then (resolvedPath, true)
      else if String.eqb p "" then (resolvedPath, false)
      else (String.append p (String.append "/" resolvedPath), isAbsolute p)
  end.

(** [path.resolve(...args)], with the process working directory [cwd]. *)
Definition resolve (cwd : string) (args : list string) : string :=
  let '(resolvedPath, resolvedAbsolute) := resolveScan (cwd :: args) in
  let p := normalizeString resolvedPath (negb resolvedAbsolute) in
  if resolvedAbsolute then String.append "/" p
  else if String.eqb p "" then "." else p.

(** [path.join(...args)] *)
Definition join (args : list string) : string :=
  let parts := List.filter (fun a => negb (String.eqb a "")) args in
  match parts with
  | [] => "."
  | _ => normalize (String.concat "/" parts)
  end.

Fixpoint skipWhile (f : ascii -> bool) (l : list ascii) : list ascii :=
  match l with
  | c :: r => if f c then skipWhile f r else l
  | [] => []
  end.

Definition is_slash (c : ascii) : bool := Ascii.eqb c slash.

(** [path.dirname(p)].  Node scans from the end: trailing separators are
    skipped, then the last name, and the separator found next (at an index
    [end >= 1]) cuts the result. *)
Definition dirname (path : string) : string :=
  if String.eqb path "" then "."
  else
    let hasRoot := isAbsolute path in
    let afterTrailing := skipWhile is_slash (rev (list_ascii_of_string path)) in
    let afterName := skipWhile (fun c => negb (is_slash c)) afterTrailing in
    match afterName with
    | [] | [_] => if hasRoot then "/" else "."
    | _ :: before =>
        if hasRoot && (length before =? 1)%nat then "//"
        else string_of_list_ascii (rev before)
    end.

(** A string without a separator. *)
Definition noSlash (s : string) : bool :=
  JsString.forall_chars (fun c => negb (Ascii.eqb c slash)) s.

Definition isDotDot (s : string) : bool := String.eqb s "..".

(** A segment [normalizeString] keeps as it is: a name other than [.] and
    [..]. *)
Definition proper (s : string) : bool :=
  noSlash s && negb (String.eqb s "") && negb (String.eqb s ".")
  && negb (String.eqb s "..").

(** A segment that cannot remove another one: empty, [.] or a name. *)
Definition harmless (s : string) : bool :=
  String.eqb s "" || String.eqb s "." || proper s.

(** The stacks [normalizeString] builds (innermost segment first): names on
    top of [..] segments, the latter only when going above the start is
    allowed. *)
Fixpoint stackOk (allow : bool) (res : list string) : bool :=
  match res with
  | [] => true
  | x :: r =>
      if isDotDot x then allow && forallb isDotDot r
      else proper x && stackOk allow r
  end.

(** An absolute path without [.] and [..] segments, as [path.resolve] and
    [realpath] return them. *)
Definition isNormalRoot (root : string) : bool :=
  isAbsolute root
  && forallb (fun s => String.eqb s "" || proper s) (split root).

(** The non-empty segments of a path. *)
Definition segments (p : string) : list string :=
  List.filter (fun s => negb (String.eqb s "")) (split p).

Fixpoint list_prefix (l1 l2 : list string) : bool :=
  match l1, l2 with
  | [], _ => true
  | x :: r1, y :: r2 => String.eqb x y && list_prefix r1 r2
  | _ :: _, [] => false
  end.

(** [within root p]: the path [p] is [root] itself or lies below it, read
    segment by segment (both paths absolute and free of [.] and [..]). *)
Definition within (root p : string) : bool :=
  isAbsolute p && list_prefix (segments root) (segments p).

(** A path in the form [path.resolve] returns: the separator followed by
    names other than [.] and [..], one separator between two names. *)
Definition isResolved (p : string) : bool :=
  forallb proper (segments p)
  && String.eqb p (String slash (String.concat "/" (segments p))).

End Path.

(* ===================================================================== *)
(** * Results of operating-system calls and thrown errors                  *)
(* ===================================================================== *)

(** The outcome of a filesystem promise: a value, or a rejection carrying the
    [code] of the errno exception (["ENOENT"], ["EACCES"], ["ELOOP"], ...). *)
Inductive fsres (A : Type) : Type :=
| FsOk (a : A)
| FsErr (code : string).
Arguments FsOk {A} a.
Arguments FsErr {A} code.

Record Stats := {
  st_isDirectory : bool;
  st_size : Z;
  st_mtimeMs : Z;
}.

(** The filesystem primitives the server calls.  [realpath] resolves every
    symbolic link of a path; [stat] follows links. *)
Record FileSystem := {
  realpath : string -> fsres string;
  stat : string -> fsres Stats;
}.

(** What a JavaScript function of the server can throw. *)
Inductive Exception : Type :=
| Error (message : string)          (* [new Error(message)] *)
| ErrnoException (code : string).   (* a rejected filesystem call *)

Inductive outcome (A : Type) : Type :=
| Return (a : A)
| Throw (e : Exception).
Arguments Return {A} a.
Arguments Throw {A} e.

(* ===================================================================== *)
(** * [server/src/utils/index.js]                                          *)
(* ===================================================================== *)

Module Utils.

(** [const ROOT_DIRECTORY = path.resolve(process.env.ROOT_DIRECTORY || '/data')] *)
Definition ROOT_DIRECTORY (cwd : string) (env : option string) : string :=
  Path.resolve cwd
    [match env with
     | Some v => if JsString.truthy v then v else "/data"
     | None => "/data"
     end].

Definition escapes_message : string :=
  "Path escapes the configured root directory.".

Definition escapes_symlink_message : string :=
  "Path escapes the configured root directory via symlink.".

Section WithRoot.

(** The value of the module constant [ROOT_DIRECTORY]. *)
Variable root : string.
(** The working directory of the process, read by [path.resolve]. *)
Variable cwd : string.

(** [resolveSafePath(relativePath = '.')] *)
Definition resolveSafePath (relativePath : string) : outcome string :=
  let normalized :=
    Path.normalize (if JsString.truthy relativePath then relativePath else ".") in
  let resolved := Path.resolve cwd [root; normalized] in
  if negb (JsString.startsWith resolved root) then
    Throw (Error escapes_message)
  else Return resolved.

(** [resolveSafePathWithSymlinkCheck(relativePath = '.')] *)
Definition resolveSafePathWithSymlinkCheck (fs : FileSystem)
    (relativePath : string) : outcome string :=
  match resolveSafePath relativePath with
  | Throw e => Throw e
  | Return resolved =>
      match realpath fs resolved with
      | FsErr code =>
          if String.eqb code "ENOENT" then
            let parentPath := Path.dirname resolved in
            match realpath fs parentPath with
            | FsErr code' => Throw (ErrnoException code')
            | FsOk parentReal =>
                if negb (JsString.startsWith parentReal root) then
                  Throw (Error escapes_symlink_message)
                else Return resolved
            end
          else Throw (ErrnoException code)
      | FsOk realPath =>
          if negb (JsString.startsWith realPath root) then
            Throw (Error escapes_symlink_message)
          else Return realPath
      end
  end.

(** [relativeFromRoot(absolutePath)] is only used to label results. For
    paths below the root it strips the root and the separator. *)
Definition relativeFromRoot (absolutePath : string) : string :=
  let rel := String.concat "/"
               (skipn (length (Path.segments root)) (Path.segments absolutePath)) in
  if JsString.truthy rel then rel else ".".

End WithRoot.

(** [Buffer.from(s)]: the bytes of the string. *)
Definition Buffer_from (s : string) : list ascii := list_ascii_of_string s.

(** [Buffer.alloc(n)]: [n] zero bytes. *)
Definition Buffer_alloc (n : nat) : list ascii := repeat zero n.

(** [crypto.timingSafeEqual(a, b)] on buffers of one length: all byte pairs
    are combined, none is skipped. *)
Fixpoint timingSafeEqual (a b : list ascii) : bool :=
  match a, b with
  | x :: ra, y :: rb => let r := timingSafeEqual ra rb in Ascii.eqb x y && r
  | [], [] => true
  | _, _ => false
  end.

(** [safeCompare(a, b)] on two strings. *)
Definition safeCompare (a b : string) : bool :=
  let bufA := Buffer_from a in
  let bufB := Buffer_from b in
  if negb (length bufA =? length bufB)%nat then
    let _ := timingSafeEqual bufA (Buffer_alloc (length bufA)) in
    false
  else timingSafeEqual bufA bufB.

(** [s.split(sep)] for a one-character separator. *)
Fixpoint splitOn (sep : ascii) (s : string) : list string :=
  match s with
  | EmptyString => [EmptyString]
  | String c r =>
      if Ascii.eqb c sep then EmptyString :: splitOn sep r
      else match splitOn sep r with
           | [] => [String c EmptyString]
           | h :: t => String c h :: t
           end
  end.

(** [verifyPassword(password, storedHash)]; [scrypt password salt] is the hex
    form of the 64-byte key [crypto.scrypt] derives.  With no [salt] field
    [crypto.scrypt] throws a [TypeError]; with no [hash] field the comparison
    is [safeCompare(derived, undefined)], which is false. *)
Definition verifyPassword (scrypt : string -> string -> string)
    (password storedHash : string) : outcome bool :=
  if JsString.startsWith storedHash "scrypt:" then
    match splitOn ":"%char storedHash with
    | _ :: salt :: hash :: _ => Return (safeCompare (scrypt password salt) hash)
    | [_; salt] => Return false
    | _ => Throw (Error "ERR_INVALID_ARG_TYPE")
    end
  else Return (safeCompare password storedHash).

Definition hexDigit (n : nat) : ascii :=
  nth n (list_ascii_of_string "0123456789abcdef") "0"%char.

(** [buf.toString('hex')]: two lowercase hexadecimal digits per byte. *)
Fixpoint toHex (buf : list ascii) : string :=
  match buf with
  | [] => EmptyString
  | b :: r =>
      String (hexDigit (nat_of_ascii b / 16))
        (String (hexDigit (nat_of_ascii b mod 16)) (toHex r))
  end.

Definition is_hex (c : ascii) : bool :=
  let n := nat_of_ascii c in
  ((48 <=? n)%nat && (n <=? 57)%nat) || ((97 <=? n)%nat && (n <=? 102)%nat).

(** A string of lowercase hexadecimal digits. *)
Definition isHex (s : string) : bool := JsString.forall_chars is_hex s.

(** [hashPassword(password)]; [saltBytes] is what [crypto.randomBytes(16)]
    delivers and [scrypt password salt] the hex form of the derived key. *)
Definition hashPassword (scrypt : string -> string -> string)
    (saltBytes : list ascii) (password : string) : string :=
  let salt := toHex saltBytes in
  let hash := scrypt password salt in
  String.append "scrypt:" (String.append salt (String.append ":" hash)).

(** [isImageMime(mimeType)]; [None] is a falsy value ([mime.lookup] returns
    [false] for an unknown extension). *)
Definition isImageMime (mimeType : option string) : bool :=
  match mimeType with
  | Some m => JsString.truthy m && JsString.startsWith m "image/"
  | None => false
  end.

(** [isTextMime(mimeType)] *)
Definition isTextMime (mimeType : option string) : bool :=
  match mimeType with
  | None => false
  | Some m =>
      if negb (JsString.truthy m) then false
      else JsString.startsWith m "text/"
           || String.eqb m "application/json"
           || String.eqb m "application/javascript"
           || String.eqb m "application/xml"
  end.

(** The loop of [isLikelyBinary] from index [i], with [steps] iterations
    left; [buffer[i]] is [nth_error buffer i]. *)
Fixpoint isLikelyBinaryFrom (buffer : list ascii) (i steps : nat) : bool :=
  match steps with
  | O => false
  | S k =>
      match nth_error buffer i with
      | Some charCode =>
          if Ascii.eqb charCode zero then true
          else isLikelyBinaryFrom buffer (S i) k
      | None => isLikelyBinaryFrom buffer (S i) k
      end
  end.

(** [isLikelyBinary(buffer)] *)
Definition isLikelyBinary (buffer : list ascii) : bool :=
  let maxSample := Nat.min (length buffer) 512 in
  isLikelyBinaryFrom buffer 0 maxSample.

End Utils.

(* ===================================================================== *)
(** * The [jsonwebtoken] library, symbolically                             *)
(* ===================================================================== *)

Module Jwt.

(** The claims the server puts in a token, and those [jwt.sign] adds.  A
    claim absent from the JSON payload is [None]. *)
Record Payload := {
  username : string;
  sessionVersion : option Z;
  iat : Z;
  exp : option Z;
}.

(** A token string as a client can present it: text that does not parse as a
    token, or claims signed with some key.  A signature can only be produced
    with the key, so a forged token is one signed with another key. *)
Inductive Token : Type :=
| Malformed (raw : string)
| Signed (claims : Payload) (key : string).

(** The empty string is the only falsy token. *)
Definition isEmpty (t : Token) : bool :=
  match t with
  | Malformed raw => String.eqb raw ""
  | Signed _ _ => false
  end.

Inductive VerifyError := JsonWebTokenError | TokenExpiredError.

(** [Math.floor(Date.now() / 1000)] *)
Definition clockTimestamp (nowMs : Z) : Z := nowMs / 1000.

(** [jwt.sign({username, sessionVersion}, secret, {expiresIn})] *)
Definition sign (user : string) (version : Z) (secret : string)
    (expiresIn : Z) (nowMs : Z) : Token :=
  Signed {| username := user;
            sessionVersion := Some version;
            iat := clockTimestamp nowMs;
            exp := Some (clockTimestamp nowMs + expiresIn) |} secret.

(** [jwt.verify(token, secret)]: the payload, or the error thrown. *)
Definition verify (token : Token) (secret : string) (nowMs : Z)
  : VerifyError + Payload :=
  match token with
  | Malformed _ => inl JsonWebTokenError
  | Signed claims key =>
      if negb (String.eqb key secret) then inl JsonWebTokenError
      else match exp claims with
           | Some e =>
               if e <=? clockTimestamp nowMs then inl TokenExpiredError
               else inr claims
           | None => inr claims
           end
  end.

(** The claims of a token have not expired at [nowMs]. *)
Definition unexpired (claims : Payload) (nowMs : Z) : Prop :=
  match exp claims with
  | Some e => clockTimestamp nowMs < e
  | None => True
  end.

End Jwt.

(* ===================================================================== *)
(** * [server/src/server.js] and [server/src/routes/auth.js]               *)
(* ===================================================================== *)

Module Server.

Record Config := {
  AUTH_REQUIRED : bool;
  AUTH_USERNAME : string;
  storedPassword : string;
  SESSION_SECRET : string;
  SESSION_TTL_SECONDS : Z;
}.

(** The [Authorization] header of a request. *)
Inductive Authorization : Type :=
| Bearer (token : Jwt.Token)     (* ["Bearer " + token] *)
| OtherHeader (raw : string).    (* a value that does not start with ["Bearer "] *)

Record Request := {
  method : string;
  path : string;                                  (* below the [/api] mount *)
  authorization : option Authorization;           (* [req.headers.authorization] *)
  sessionCookie : option Jwt.Token;               (* [req.cookies[SESSION_COOKIE_NAME]] *)
  csrfCookie : option string;                     (* [req.cookies[CSRF_COOKIE_NAME]] *)
  csrfHeader : option string;                     (* [req.headers['x-csrf-token']] *)
}.

(** A JSON answer [res.status(status).json({ error })], or a success body. *)
Record Response := {
  status : Z;
  body : string;
}.

(** An entry written by [auditLog(req, action, details)]. *)
Record AuditEntry := {
  action : string;
  details : list (string * string);
}.

(** What a middleware does: answer the request, or pass it on. *)
Inductive Middleware : Type :=
| Next (user : option Jwt.Payload)
| Respond (r : Response).

(** [extractToken(req)]: [null] is [None]. *)
Definition extractToken (req : Request) : option Jwt.Token :=
  match authorization req with
  | Some (Bearer t) => Some t
  | _ =>
      match sessionCookie req with
      | Some t => if Jwt.isEmpty t then None else Some t
      | None => None
      end
  end.

Definition publicPaths : list string :=
  ["/auth/login"; "/auth/status"; "/auth/logout"; "/health"].

Definition isShareEndpoint (p : string) : bool :=
  JsString.startsWith p "/shares/" &&
  (JsString.endsWith p "/verify" || JsString.endsWith p "/content" ||
   JsString.endsWith p "/download" || JsString.endsWith p "/entries" ||
   JsString.endsWith p "/thumbnail" || JsString.endsWith p "/preview").

(** The requests [requireAuth] lets through without looking at a token. *)
Definition bypassesAuth (cfg : Config) (req : Request) : bool :=
  negb (AUTH_REQUIRED cfg)
  || String.eqb (method req) "OPTIONS"
  || existsb (String.eqb (path req)) publicPaths
  || isShareEndpoint (path req).

(** [requireAuth(req, res, next)], with the current value of the module
    variable [sessionVersion] and the clock.  The second component lists the
    audit entries the middleware writes. *)
Definition requireAuth (cfg : Config) (sessionVersion : Z) (nowMs : Z)
    (req : Request) : Middleware * list AuditEntry :=
  if bypassesAuth cfg req then (Next None, [])
  else
    match extractToken req with
    | None =>
        (Respond {| status := 401; body := "Authentication required." |}, [])
    | Some token =>
        if Jwt.isEmpty token then
          (Respond {| status := 401; body := "Authentication required." |}, [])
        else
          match Jwt.verify token (SESSION_SECRET cfg) nowMs with
          | inr payload =>
              if negb (bool_decide (Jwt.sessionVersion payload = Some sessionVersion))
              then (Respond {| status := 401;
                               body := "Session has been invalidated." |}, [])
              else (Next (Some payload), [])
          | inl _ =>
              (Respond {| status := 401; body := "Invalid or expired token." |}, [])
          end
    end.

(** [csrfProtection(req, res, next)] *)
Definition csrfProtection (cfg : Config) (req : Request)
  : Middleware * list AuditEntry :=
  if negb (AUTH_REQUIRED cfg) then (Next None, [])
  else
    match csrfCookie req, csrfHeader req with
    | Some c, Some h =>
        if JsString.truthy c && JsString.truthy h && Utils.safeCompare c h
        then (Next None, [])
        else (Respond {| status := 403; body := "CSRF token validation failed." |},
              [{| action := "CSRF_FAILURE";
                  details := [("csrfPresent", if JsString.truthy h then "true" else "false")] |}])
    | _, h =>
        (Respond {| status := 403; body := "CSRF token validation failed." |},
         [{| action := "CSRF_FAILURE";
             details := [("csrfPresent",
                          match h with
                          | Some v => if JsString.truthy v then "true" else "false"
                          | None => "false"
                          end)] |}])
    end.

(** Number.MAX_SAFE_INTEGER + 1: from here on [x + 1] is rounded back to [x]
    in double precision. *)
Definition two53 : Z := 9007199254740992.

(** [sessionVersion += 1] on a Number that starts at 1. *)
Definition incrementSessionVersion (sessionVersion : Z) : Z :=
  if sessionVersion <? two53 then sessionVersion + 1 else sessionVersion.

(** The initial value of [sessionVersion]. *)
Definition initialSessionVersion : Z := 1.

(** The token minted by a successful [POST /auth/login]:
    [jwt.sign({ username, sessionVersion: getSessionVersion() }, sessionSecret,
              { expiresIn: sessionTtlSeconds })]. *)
Definition issueToken (cfg : Config) (sessionVersion : Z) (user : string)
    (nowMs : Z) : Jwt.Token :=
  Jwt.sign user sessionVersion (SESSION_SECRET cfg) (SESSION_TTL_SECONDS cfg) nowMs.

(** The answers of [POST /auth/login]. *)
Inductive LoginAnswer : Type :=
| LoginRefused (r : Response)
| LoggedIn (token : Jwt.Token) (csrfToken : string)   (* both also set as cookies *)
| LoginThrows (e : Exception).

(** [POST /auth/login] with the body [{ username, password }]; [csrfToken] is
    what [generateCsrfToken()] delivers.  (The route is exempt from
    [requireAuth].) *)
Definition login (cfg : Config) (scrypt : string -> string -> string)
    (csrfToken : string) (sessionVersion : Z) (nowMs : Z)
    (username password : option string) : LoginAnswer * list AuditEntry :=
  if negb (AUTH_REQUIRED cfg) then
    (LoginRefused {| status := 200; body := "authRequired: false" |}, [])
  else
    match username, password with
    | Some user, Some pass =>
        if negb (JsString.truthy user) || negb (JsString.truthy pass) then
          (LoginRefused {| status := 400; body := "Username and password are required." |},
           [{| action := "LOGIN_FAILURE"; details := [("reason", "missing_credentials")] |}])
        else
          let usernameMatch := Utils.safeCompare user (AUTH_USERNAME cfg) in
          match Utils.verifyPassword scrypt pass (storedPassword cfg) with
          | Throw e => (LoginThrows e, [])
          | Return passwordMatch =>
              if negb usernameMatch || negb passwordMatch then
                (LoginRefused {| status := 401; body := "Invalid credentials." |},
                 [{| action := "LOGIN_FAILURE";
                     details := [("reason", "invalid_credentials"); ("username", user)] |}])
              else
                (LoggedIn (issueToken cfg sessionVersion user nowMs) csrfToken,
                 [{| action := "LOGIN_SUCCESS"; details := [("username", user)] |}])
          end
    | _, _ =>
        (LoginRefused {| status := 400; body := "Username and password are required." |},
         [{| action := "LOGIN_FAILURE"; details := [("reason", "missing_credentials")] |}])
    end.

(** [POST /auth/invalidate-sessions]: the [/api] mount runs [requireAuth],
    the route runs [csrfProtection], then the handler.  Returns the answer
    and the new value of [sessionVersion]. *)
Definition invalidateSessions (cfg : Config) (sessionVersion : Z) (nowMs : Z)
    (req : Request) : Response * Z :=
  match fst (requireAuth cfg sessionVersion nowMs req) with
  | Respond r => (r, sessionVersion)
  | Next _ =>
      match fst (csrfProtection cfg req) with
      | Respond r => (r, sessionVersion)
      | Next _ =>
          if negb (AUTH_REQUIRED cfg) then
            ({| status := 200; body := "authRequired: false" |}, sessionVersion)
          else
            let newVersion := incrementSessionVersion sessionVersion in
            ({| status := 200; body := "All sessions invalidated." |}, newVersion)
      end
  end.

(** A request arriving at time [nowMs]. *)
Record Event := {
  ev_nowMs : Z;
  ev_request : Request;
}.

(** The effect of any request on the module variable [sessionVersion]: no
    route but [POST /auth/invalidate-sessions] writes it. *)
Definition handle (cfg : Config) (sessionVersion : Z) (ev : Event) : Z :=
  let req := ev_request ev in
  if String.eqb (method req) "POST"
     && String.eqb (path req) "/auth/invalidate-sessions"
  then snd (invalidateSessions cfg sessionVersion (ev_nowMs ev) req)
  else sessionVersion.

Definition run (cfg : Config) (sessionVersion : Z) (evs : list Event) : Z :=
  fold_left (handle cfg) evs sessionVersion.

(** The JSON answer of [GET /auth/status]. *)
Record StatusAnswer := {
  authRequired : bool;
  authenticated : bool;
  sessionTtlSeconds : Z;
}.

(** [GET /auth/status] (exempt from [requireAuth]). *)
Definition authStatus (cfg : Config) (sessionVersion : Z) (nowMs : Z)
    (req : Request) : StatusAnswer :=
  if negb (AUTH_REQUIRED cfg) then
    {| authRequired := false; authenticated := true;
       sessionTtlSeconds := SESSION_TTL_SECONDS cfg |}
  else
    let token := extractToken req in
    let authenticated :=
      match token with
      | None => false
      | Some token =>
          if Jwt.isEmpty token then false
          else
            match Jwt.verify token (SESSION_SECRET cfg) nowMs with
            | inr payload =>
                if negb (bool_decide (Jwt.sessionVersion payload = Some sessionVersion))
                then false else true
            | inl _ => false
            end
      end in
    {| authRequired := true; authenticated := authenticated;
       sessionTtlSeconds := SESSION_TTL_SECONDS cfg |}.

(** [POST /auth/logout] (exempt from [requireAuth]): the cookies are
    cleared; [sessionVersion] is not touched. *)
Definition logout (cfg : Config) : Response * list AuditEntry :=
  if negb (AUTH_REQUIRED cfg) then
    ({| status := 200; body := "authRequired: false" |}, [])
  else
    ({| status := 200; body := "Logged out." |},
     [{| action := "LOGOUT"; details := [] |}]).

(** [ensureWritable(req, res, next)] *)
Definition ensureWritable (readOnly : bool) : Middleware :=
  if readOnly then
    Respond {| status := 403; body := "Server is running in read-only mode." |}
  else Next None.

(** The middlewares in front of a handler registered as
    [router.METHOD('/', ensureWritable, csrfProtection, handler)] below the
    [/api] mount: [requireAuth], [ensureWritable], [csrfProtection], in this
    order; the audit entries written on the way are collected. *)
Definition writeGuards (cfg : Config) (readOnly : bool) (sessionVersion : Z)
    (nowMs : Z) (req : Request) : Middleware * list AuditEntry :=
  match requireAuth cfg sessionVersion nowMs req with
  | (Respond r, log) => (Respond r, log)
  | (Next user, log) =>
      match ensureWritable readOnly with
      | Respond r => (Respond r, log)
      | Next _ =>
          match csrfProtection cfg req with
          | (Respond r, log') => (Respond r, log ++ log')
          | (Next _, log') => (Next user, log ++ log')
          end
      end
  end.

(** The error-handling middleware that [next(error)] reaches.
    [errnoMessage code] is the text Node gives the rejection of a filesystem
    call ([err.message]); an [Error] carries its own. *)
Definition errorHandler (errnoMessage : string -> string) (err : Exception)
  : Response :=
  let code := match err with
              | ErrnoException code => Some code
              | Error _ => None
              end in
  let message := match err with
                 | ErrnoException code => errnoMessage code
                 | Error message => message
                 end in
  if bool_decide (code = Some "ENOENT") then
    {| status := 404; body := "Path not found." |}
  else if JsString.truthy message
          && JsString.includes message "escapes the configured root" then
    {| status := 400; body := message |}
  else {| status := 500; body := "Internal server error." |}.

End Server.

(* ===================================================================== *)
(** * [server/src/routes/shares.js]                                        *)
(* ===================================================================== *)

Module Shares.

Record Share := {
  id : string;
  accessCode : string;
  path : string;
  resolvedPath : string;
  isDirectory : bool;
  name : string;
  createdAt : Z;
  expiresAt : Z;
  accessCount : Z;
  accessTokens : option (gset string);   (* [undefined] until the first verify *)
}.

(** The module-level [shares] Map, keyed by share id.  (The insertion order
    a JavaScript Map keeps only shows in the order of [GET /api/shares].) *)
Definition emptyShares : gmap string Share := ∅.

Definition DEFAULT_SHARE_EXPIRY_HOURS : Z := 24.
Definition MAX_SHARE_EXPIRY_HOURS : Z := 168.

Definition chars : string := "ABCDEFGHJKLMNPQRSTUVWXYZ23456789".

(** [Math.floor(Math.random() * n)] where [Math.random()] returned
    [k / 2^53]. *)
Definition randomIndex (k : Z) (n : nat) : nat :=
  Z.to_nat ((k * Z.of_nat n) / Server.two53).

(** [generateAccessCode()]; [random i] is the numerator (over [2^53]) of the
    [i]-th value returned by [Math.random()]. *)
Definition generateAccessCode (random : nat -> Z) : string :=
  fold_left
    (fun code i =>
       String.append code
         (JsString.charAt chars (randomIndex (random i) (String.length chars))))
    (seq 0 6) EmptyString.

(** [cleanupExpiredShares()] at time [now]. *)
Definition cleanupExpiredShares (now : Z) (shares : gmap string Share)
  : gmap string Share :=
  filter (fun kv => ¬ (expiresAt (snd kv) < now)) shares.

(** A JSON answer of a share route. *)
Inductive Answer : Type :=
| Failure (status : Z) (error : string)
| Created (s : Share) (expiresIn : Z)
| Verified (accessToken : string) (s : Share)
| Deleted
| Passed (e : Exception).     (* [next(error)] *)

(** [Math.min(Math.max(1, Number(expiresInHours) || DEFAULT), MAX)];
    [None] stands for a value [Number] maps to [NaN]. *)
Definition clampExpiry (expiresInHours : option Z) : Z :=
  let n := match expiresInHours with
           | Some v => if v =? 0 then DEFAULT_SHARE_EXPIRY_HOURS else v
           | None => DEFAULT_SHARE_EXPIRY_HOURS
           end in
  Z.min (Z.max 1 n) MAX_SHARE_EXPIRY_HOURS.

(** The last segment of an absolute, normalized path ([path.basename]). *)
Definition basename (p : string) : string := List.last (Path.segments p) EmptyString.

Section Routes.

Variable root : string.
Variable cwd : string.
Variable fs : FileSystem.

(** [POST /api/shares] after [csrfProtection]; [shareId] and [random] are
    what [crypto.randomBytes] and [Math.random] deliver, [now] is
    [Date.now()]. *)
Definition create (now : Z) (shareId : string) (random : nat -> Z)
    (targetPath : string) (expiresInHours : option Z)
    (shares : gmap string Share) : Answer * gmap string Share :=
  if negb (JsString.truthy targetPath) then
    (Failure 400 "Path is required.", shares)
  else
    let expiry := clampExpiry expiresInHours in
    match Utils.resolveSafePathWithSymlinkCheck root cwd fs targetPath with
    | Throw e => (Passed e, shares)
    | Return resolved =>
        match stat fs resolved with
        | FsErr code => (Passed (ErrnoException code), shares)
        | FsOk stats =>
            let share := {| id := shareId;
                            accessCode := generateAccessCode random;
                            path := targetPath;
                            resolvedPath := resolved;
                            isDirectory := st_isDirectory stats;
                            name := basename resolved;
                            createdAt := now;
                            expiresAt := now + expiry * 60 * 60 * 1000;
                            accessCount := 0;
                            accessTokens := None |} in
            (Created share expiry, <[shareId := share]> shares)
        end
    end.

(** [DELETE /api/shares/:shareId] after [csrfProtection]. *)
Definition remove (shareId : string) (shares : gmap string Share)
  : Answer * gmap string Share :=
  match shares !! shareId with
  | Some _ => (Deleted, delete shareId shares)
  | None => (Failure 404 "Share not found.", shares)
  end.

(** The constant-time comparison of [GET /:shareId/verify]. *)
Definition codeMatches (code : string) (share : Share) : bool :=
  let codeBuffer := Utils.Buffer_from (JsString.toUpperCase code) in
  let storedBuffer := Utils.Buffer_from (accessCode share) in
  negb (negb (length codeBuffer =? length storedBuffer)%nat
        || negb (Utils.timingSafeEqual codeBuffer storedBuffer)).

Definition addToken (accessToken : string) (share : Share) : Share :=
  {| id := id share;
     accessCode := accessCode share;
     path := path share;
     resolvedPath := resolvedPath share;
     isDirectory := isDirectory share;
     name := name share;
     createdAt := createdAt share;
     expiresAt := expiresAt share;
     accessCount := accessCount share + 1;
     accessTokens := Some ({[ accessToken ]} ∪ default ∅ (accessTokens share)) |}.

(** [GET /api/shares/:shareId/verify?code=...]; [accessToken] is the value
    [crypto.randomBytes(16).toString('hex')] delivers. *)
Definition verify (now : Z) (accessToken : string) (shareId : string)
    (code : option string) (shares : gmap string Share)
  : Answer * gmap string Share :=
  match code with
  | None => (Failure 400 "Access code is required.", shares)
  | Some code =>
      if negb (JsString.truthy code) then
        (Failure 400 "Access code is required.", shares)
      else
        match shares !! shareId with
        | None => (Failure 404 "Share not found or expired.", shares)
        | Some share =>
            if bool_decide (expiresAt share < now) then
              (Failure 404 "Share has expired.", delete shareId shares)
            else if negb (codeMatches code share) then
              (Failure 403 "Invalid access code.", shares)
            else
              let share' := addToken accessToken share in
              let shares' := <[shareId := share']> shares in
              match stat fs (resolvedPath share') with
              | FsErr _ => (Failure 404 "Shared content no longer exists.", shares')
              | FsOk _ => (Verified accessToken share', shares')
              end
        end
  end.

(** [verifyShareAccess(req, res, next)]: the share put in [req.share], or
    the answer sent. *)
Definition verifyShareAccess (now : Z) (shareId : string)
    (accessToken : option string) (shares : gmap string Share)
  : (Answer + Share) * gmap string Share :=
  match accessToken with
  | None => (inl (Failure 401 "Share access token required."), shares)
  | Some token =>
      if negb (JsString.truthy token) then
        (inl (Failure 401 "Share access token required."), shares)
      else
        match shares !! shareId with
        | None => (inl (Failure 404 "Share not found or expired."), shares)
        | Some share =>
            if bool_decide (expiresAt share < now) then
              (inl (Failure 404 "Share has expired."), delete shareId shares)
            else
              match accessTokens share with
              | None => (inl (Failure 403 "Invalid share access token."), shares)
              | Some tokens =>
                  if bool_decide (token ∈ tokens) then (inr share, shares)
                  else (inl (Failure 403 "Invalid share access token."), shares)
              end
        end
  end.

Definition outside_message : string :=
  "Cannot access paths outside shared directory.".

(** The path both [GET /:shareId/content] and [GET /:shareId/download]
    compute from the [path] query parameter. *)
Definition targetPath (share : Share) (queryPath : string) : Answer + string :=
  let subPath := if JsString.truthy queryPath then queryPath else "." in
  if isDirectory share then
    let normalizedSubPath := Path.normalize subPath in
    if JsString.startsWith normalizedSubPath ".." then
      inl (Failure 400 outside_message)
    else
      let target := Path.join [resolvedPath share; normalizedSubPath] in
      if negb (JsString.startsWith target (resolvedPath share)) then
        inl (Failure 400 outside_message)
      else inr target
  else inr (resolvedPath share).

(** What an access does with the filesystem. *)
Inductive Access : Type :=
| Refused (a : Answer)
| ListsDirectory (dir : string)      (* [fsp.readdir(targetPath)] *)
| ReadsFile (file : string)          (* [fsp.readFile] or [fs.createReadStream] *)
| DescribesFile (file : string).     (* only [stat]: the file is too large *)

(** [GET /api/shares/:shareId/content?path=...] *)
Definition content (previewLimit : Z) (now : Z) (shareId : string)
    (accessToken : option string) (queryPath : string)
    (shares : gmap string Share) : Access * gmap string Share :=
  match verifyShareAccess now shareId accessToken shares with
  | (inl a, shares') => (Refused a, shares')
  | (inr share, shares') =>
      match targetPath share queryPath with
      | inl a => (Refused a, shares')
      | inr target =>
          match stat fs target with
          | FsErr code => (Refused (Passed (ErrnoException code)), shares')
          | FsOk stats =>
              if st_isDirectory stats then (ListsDirectory target, shares')
              else if previewLimit <? st_size stats then (DescribesFile target, shares')
              else (ReadsFile target, shares')
          end
      end
  end.

(** [GET /api/shares/:shareId/download?path=...] *)
Definition download (now : Z) (shareId : string)
    (accessToken : option string) (queryPath : string)
    (shares : gmap string Share) : Access * gmap string Share :=
  match verifyShareAccess now shareId accessToken shares with
  | (inl a, shares') => (Refused a, shares')
  | (inr share, shares') =>
      match targetPath share queryPath with
      | inl a => (Refused a, shares')
      | inr target =>
          match stat fs target with
          | FsErr code => (Refused (Passed (ErrnoException code)), shares')
          | FsOk stats =>
              if st_isDirectory stats then
                (Refused (Failure 400 "Cannot download directories directly."), shares')
              else (ReadsFile target, shares')
          end
      end
  end.

End Routes.

(** A character of the alphabet access codes are drawn from. *)
Definition inAlphabet (c : ascii) : bool :=
  JsString.includes chars (String c EmptyString).

(** [caseVariant s code]: [s] is [code] with some letters possibly written
    in the other case. *)
Fixpoint caseVariant (s code : string) : bool :=
  match s, code with
  | EmptyString, EmptyString => true
  | String a s', String b code' =>
      (Ascii.eqb a b || Ascii.eqb a (JsString.lower_char b)
       || Ascii.eqb a (JsString.upper_char b))
      && caseVariant s' code'
  | _, _ => false
  end.

(** The path an access really touches: filesystem calls follow symbolic
    links, so it is the real path of the one handed to them. *)
Definition touched (fs : FileSystem) (a : Access) : option (fsres string) :=
  match a with
  | Refused _ => None
  | ListsDirectory p | ReadsFile p | DescribesFile p => Some (realpath fs p)
  end.

(** The path an access hands to the filesystem calls. *)
Definition accessed (a : Access) : option string :=
  match a with
  | Refused _ => None
  | ListsDirectory p | ReadsFile p | DescribesFile p => Some p
  end.

End Shares.

(* ===================================================================== *)
(** * [server/src/routes/search.js]                                        *)
(* ===================================================================== *)

Module Search.

(** A directory tree as [fsp.readdir(dir, { withFileTypes: true })] and
    [fsp.stat] show it.  A [FileEnt] is any dirent for which
    [isDirectory()] is false. *)
Inductive Dirent : Type :=
| FileEnt (name : string) (st : fsres Stats)
| DirEnt (name : string) (st : fsres Stats) (dir : Directory)
with Directory : Type :=
| Unreadable (code : string)            (* [readdir] rejects *)
| Listing (dirents : list Dirent).

Definition isFile (d : Dirent) : bool :=
  match d with FileEnt _ _ => true | DirEnt _ _ _ => false end.

Record Entry := {
  name : string;
  path : string;
  isDirectory : bool;
  size : Z;
  modified : Z;
  mimeType : option string;
}.

(** The array [results], the object [searchState] and the number of times
    [Date.now()] has been called. *)
Record SearchState := {
  results : list Entry;
  timedOut : bool;
  ticks : nat;
}.

Definition push (e : Entry) (s : SearchState) : SearchState :=
  {| results := results s ++ [e]; timedOut := timedOut s; ticks := ticks s |}.

Definition setTimedOut (s : SearchState) : SearchState :=
  {| results := results s; timedOut := true; ticks := ticks s |}.

Definition tick (s : SearchState) : SearchState :=
  {| results := results s; timedOut := timedOut s; ticks := S (ticks s) |}.

Definition is_digit (c : ascii) : bool :=
  let n := nat_of_ascii c in (48 <=? n)%nat && (n <=? 57)%nat.

Fixpoint digits (acc : option Z) (s : string) : option Z :=
  match s with
  | String c r =>
      if is_digit c then
        digits (Some (10 * default 0 acc + Z.of_nat (nat_of_ascii c - 48))) r
      else acc
  | EmptyString => acc
  end.

(** [parseInt(value, 10)] of a query parameter; [None] is [NaN]. *)
Definition parseInt (value : option string) : option Z :=
  match value with
  | None => None
  | Some s =>
      match JsString.trimStart s with
      | String "-"%char r => option_map Z.opp (digits None r)
      | String "+"%char r => digits None r
      | t => digits None t
      end
  end.

(** [n || fallback] for a Number: [NaN] and [0] are falsy. *)
Definition orDefault (n : option Z) (fallback : Z) : Z :=
  match n with
  | Some v => if v =? 0 then fallback else v
  | None => fallback
  end.

Definition clampLimit (limit : option string) : Z :=
  Z.min (orDefault (parseInt limit) 100) 500.

Definition clampTimeout (timeout : option string) : Z :=
  Z.min (orDefault (parseInt timeout) 10000) 30000.

Section Traversal.

Variable root : string.
(** [mime.lookup] *)
Variable mimeLookup : string -> option string.
(** [clock i] is the value of the [i]-th call of [Date.now()]. *)
Variable clock : nat -> Z.
Variable query : string.
Variable maxResults : Z.
Variable startTime : Z.
Variable timeout : Z.

Definition full (s : SearchState) : bool :=
  maxResults <=? Z.of_nat (length (results s)).

(** [Date.now() - startTime > timeout], reading the clock once. *)
Definition expired (s : SearchState) : bool :=
  timeout <? clock (ticks s) - startTime.

Definition matches (entryName : string) : bool :=
  JsString.includes (JsString.toLowerCase entryName) (JsString.toLowerCase query).

Definition fileEntry (dirPath entryName : string) (stats : Stats) : Entry :=
  let entryPath := Path.join [dirPath; entryName] in
  {| name := entryName;
     path := Utils.relativeFromRoot root entryPath;
     isDirectory := false;
     size := st_size stats;
     modified := st_mtimeMs stats;
     mimeType := mimeLookup entryPath |}.

Definition dirEntry (dirPath entryName : string) (stats : Stats) : Entry :=
  let entryPath := Path.join [dirPath; entryName] in
  {| name := entryName;
     path := Utils.relativeFromRoot root entryPath;
     isDirectory := true;
     size := st_size stats;
     modified := st_mtimeMs stats;
     mimeType := None |}.

(** The loop [for (const dirent of files)]. *)
Fixpoint filesLoop (dirPath : string) (files : list Dirent) (s : SearchState)
  : SearchState :=
  match files with
  | [] => s
  | d :: rest =>
      if full s then s
      else if expired s then setTimedOut (tick s)
      else
        let s := tick s in
        match d with
        | FileEnt entryName st =>
            if matches entryName then
              match st with
              | FsOk stats => filesLoop dirPath rest (push (fileEntry dirPath entryName stats) s)
              | FsErr _ => filesLoop dirPath rest s
              end
            else filesLoop dirPath rest s
        | DirEnt _ _ _ => filesLoop dirPath rest s
        end
  end.

(** [searchDirectory(dirPath, query, maxResults, results, startTime,
    timeout, searchState)] on the directory [dir] found at [dirPath].  The
    inner loop is [for (const dirent of directories)]: it walks the
    dirents in order and skips those that are not directories. *)
Fixpoint searchDirectory (dirPath : string) (dir : Directory) (s : SearchState)
  {struct dir} : SearchState :=
  if full s then s
  else if expired s then setTimedOut (tick s)
  else
    let s := tick s in
    match dir with
    | Unreadable _ => s
    | Listing dirents =>
        let s := filesLoop dirPath (List.filter isFile dirents) s in
        (fix directoriesLoop (ds : list Dirent) (s : SearchState) {struct ds}
           : SearchState :=
           match ds with
           | [] => s
           | FileEnt _ _ :: rest => directoriesLoop rest s
           | DirEnt entryName st sub :: rest =>
               if full s then s
               else if expired s then setTimedOut (tick s)
               else
                 let s := tick s in
                 let entryPath := Path.join [dirPath; entryName] in
                 let s :=
                   if matches entryName then
                     match st with
                     | FsOk stats => push (dirEntry dirPath entryName stats) s
                     | FsErr _ => s
                     end
                   else s in
                 directoriesLoop rest (searchDirectory entryPath sub s)
           end) dirents s
    end.

(** The loop [for (const dirent of directories)] of [searchDirectory],
    on its own. *)
Definition directoriesLoop (dirPath : string)
  : list Dirent -> SearchState -> SearchState :=
  fix directoriesLoop (ds : list Dirent) (s : SearchState) {struct ds}
    : SearchState :=
    match ds with
    | [] => s
    | FileEnt _ _ :: rest => directoriesLoop rest s
    | DirEnt entryName st sub :: rest =>
        if full s then s
        else if expired s then setTimedOut (tick s)
        else
          let s := tick s in
          let entryPath := Path.join [dirPath; entryName] in
          let s :=
            if matches entryName then
              match st with
              | FsOk stats => push (dirEntry dirPath entryName stats) s
              | FsErr _ => s
              end
            else s in
          directoriesLoop rest (searchDirectory entryPath sub s)
    end.

(** An entry that [searchDirectory] reports when it gets to it: the name
    contains the query and [stat] succeeds. *)
Definition reported (entryName : string) (st : fsres Stats) : bool :=
  matches entryName && match st with FsOk _ => true | FsErr _ => false end.

Definition countFiles (ds : list Dirent) : nat :=
  length (List.filter
            (fun d => match d with
                      | FileEnt n st => reported n st
                      | DirEnt _ _ _ => false
                      end) ds).

(** The number of entries below a directory that the search reports when
    nothing stops it. *)
Fixpoint countMatches (dir : Directory) : nat :=
  match dir with
  | Unreadable _ => 0%nat
  | Listing dirents =>
      (countFiles dirents +
      (fix countDirectories (ds : list Dirent) : nat :=
         match ds with
         | [] => 0%nat
         | FileEnt _ _ :: rest => countDirectories rest
         | DirEnt n st sub :: rest =>
             ((if reported n st then 1 else 0) + countMatches sub
              + countDirectories rest)%nat
         end) dirents)%nat
  end.

Definition countDirectories : list Dirent -> nat :=
  fix countDirectories (ds : list Dirent) : nat :=
    match ds with
    | [] => 0%nat
    | FileEnt _ _ :: rest => countDirectories rest
    | DirEnt n st sub :: rest =>
        ((if reported n st then 1 else 0) + countMatches sub
         + countDirectories rest)%nat
    end.

End Traversal.

(** The array has not grown beyond the limit (beyond zero entries when the
    limit is negative). *)
Definition bounded (maxResults : Z) (s : SearchState) : Prop :=
  Z.of_nat (length (results s)) <= Z.max 0 maxResults.

(** Every reading of the clock from now on is past the timeout. *)
Definition late (clock : nat -> Z) (startTime timeout : Z) (s : SearchState) : Prop :=
  forall k, (ticks s <= k)%nat -> timeout < clock k - startTime.

(** What a run that is not stopped by the clock leaves behind, starting from
    [s] and meeting [n] entries to report: the limit caps the array. *)
Definition collects (maxResults : Z) (s s' : SearchState) (n : nat) : Prop :=
  length (results s') = Nat.min (Z.to_nat maxResults) (length (results s) + n)
  /\ timedOut s' = timedOut s.

(** Induction on a directory tree: the sub-directories of a listing come
    with the induction hypothesis. *)
Section DirectoryInduction.

Variable P : Directory -> Prop.
Hypothesis P_Unreadable : forall code, P (Unreadable code).
Hypothesis P_Listing :
  forall dirents,
    Forall (fun d => match d with
                     | FileEnt _ _ => True
                     | DirEnt _ _ sub => P sub
                     end) dirents ->
    P (Listing dirents).

Fixpoint Directory_tree_ind (dir : Directory) : P dir :=
  match dir with
  | Unreadable code => P_Unreadable code
  | Listing dirents =>
      P_Listing dirents
        ((fix below (l : list Dirent)
            : Forall (fun d => match d with
                               | FileEnt _ _ => True
                               | DirEnt _ _ sub => P sub
                               end) l :=
            match l with
            | [] => @List.Forall_nil Dirent _
            | d :: r =>
                @List.Forall_cons Dirent _ d r
                  (match d as d0
                         return match d0 with
                                | FileEnt _ _ => True
                                | DirEnt _ _ sub => P sub
                                end
                   with
                   | FileEnt _ _ => I
                   | DirEnt _ _ sub => Directory_tree_ind sub
                   end) (below r)
            end) dirents)
  end.

End DirectoryInduction.

(** The comparator of [results.sort]: directories first, then by name. *)
Definition compareEntries (localeCompare : string -> string -> Z) (a b : Entry) : Z :=
  if isDirectory a && negb (isDirectory b) then -1
  else if negb (isDirectory a) && isDirectory b then 1
  else localeCompare (name a) (name b).

Fixpoint insertSorted (cmp : Entry -> Entry -> Z) (e : Entry) (l : list Entry)
  : list Entry :=
  match l with
  | [] => [e]
  | x :: r => if 0 <? cmp e x then x :: insertSorted cmp e r else e :: l
  end.

(** [Array.prototype.sort] (a stable sort). *)
Definition sort (cmp : Entry -> Entry -> Z) (l : list Entry) : list Entry :=
  fold_right (insertSorted cmp) [] l.

(** No file comes before a directory. *)
Fixpoint directoriesFirst (l : list Entry) : bool :=
  match l with
  | [] => true
  | e :: r =>
      (isDirectory e || forallb (fun x => negb (isDirectory x)) r)
      && directoriesFirst r
  end.

Record Query := {
  q : option string;
  searchPath : option string;
  limit : option string;
  timeoutParam : option string;
}.

Record Found := {
  r_query : string;
  r_path : string;
  r_results : list Entry;
  r_resultCount : Z;
  r_truncated : bool;
  r_timedOut : bool;
  r_durationMs : Z;
}.

Inductive Answer : Type :=
| Failure (status : Z) (error : string)
| Passed (e : Exception)
| Success (f : Found).

(** The text [Query parameter "q" is required.] *)
Definition query_required_message : string :=
  String.append "Query parameter "
    (String (ascii_of_nat 34) (String.append "q" (String (ascii_of_nat 34) " is required."))).

(** [GET /api/search].  [tree p] is the directory tree found at [p]. *)
Definition search (root cwd : string) (fs : FileSystem)
    (tree : string -> Directory) (mimeLookup : string -> option string)
    (localeCompare : string -> string -> Z) (clock : nat -> Z)
    (req : Query) : Answer :=
  let startTime := clock 0%nat in
  let query := default EmptyString (q req) in
  let searchPath := match searchPath req with
                    | Some p => if JsString.truthy p then p else "."
                    | None => "."
                    end in
  let limit := clampLimit (limit req) in
  let timeout := clampTimeout (timeoutParam req) in
  if negb (JsString.truthy query) || String.eqb (JsString.trim query) "" then
    Failure 400 query_required_message
  else
    match Utils.resolveSafePathWithSymlinkCheck root cwd fs searchPath with
    | Throw e => Passed e
    | Return targetPath =>
        match stat fs targetPath with
        | FsErr code => Passed (ErrnoException code)
        | FsOk stats =>
            if negb (st_isDirectory stats) then
              Failure 400 "Search path must be a directory."
            else
              let s := searchDirectory root mimeLookup clock (JsString.trim query)
                         limit startTime timeout targetPath (tree targetPath)
                         {| results := []; timedOut := false; ticks := 1 |} in
              let sorted := sort (compareEntries localeCompare) (results s) in
              let durationMs := clock (ticks s) - startTime in
              Success {| r_query := query;
                         r_path := Utils.relativeFromRoot root targetPath;
                         r_results := sorted;
                         r_resultCount := Z.of_nat (length sorted);
                         r_truncated := limit <=? Z.of_nat (length sorted);
                         r_timedOut := timedOut s;
                         r_durationMs := durationMs |}
        end
    end.

End Search.

(* ===================================================================== *)
(** * [server/src/routes/entries.js], [folders.js] and [files.js]:
      the routes that change the filesystem                                *)
(* ===================================================================== *)

Module Entries.

(** What [DELETE /api/entries] does: it answers without touching anything,
    hands an error to [next] before touching anything, or calls
    [fsp.rm(targetPath, { recursive: true, force: true })]; [failure] is the
    code of the rejection of that call, if it is rejected. *)
Inductive Outcome : Type :=
| Refused (r : Server.Response)
| Passed (e : Exception)
| Rm (targetPath : string) (failure : option string).

(** The text [Query parameter "path" is required.] *)
Definition path_required_message : string :=
  String.append "Query parameter "
    (String (ascii_of_nat 34) (String.append "path" (String (ascii_of_nat 34) " is required."))).

Section Routes.

Variable root : string.
Variable cwd : string.
Variable fs : FileSystem.
(** The result of [fsp.rm] on a path. *)
Variable rm : string -> option string.

(** The handler of [DELETE /api/entries?path=...]. *)
Definition handler (relativePath : option string)
  : Outcome * list Server.AuditEntry :=
  match relativePath with
  | None => (Refused {| Server.status := 400; Server.body := path_required_message |}, [])
  | Some relativePath =>
      if negb (JsString.truthy relativePath) then
        (Refused {| Server.status := 400; Server.body := path_required_message |}, [])
      else
        match Utils.resolveSafePathWithSymlinkCheck root cwd fs relativePath with
        | Throw e => (Passed e, [])
        | Return targetPath =>
            if String.eqb targetPath root then
              (Refused {| Server.status := 400;
                          Server.body := "Cannot delete the root directory." |}, [])
            else
              match rm targetPath with
              | Some code => (Rm targetPath (Some code), [])
              | None =>
                  (Rm targetPath None,
                   [{| Server.action := "ENTRY_DELETED";
                       Server.details := [("path", relativePath)] |}])
              end
        end
  end.

(** The route with the middlewares in front of it. *)
Definition remove (cfg : Server.Config) (readOnly : bool) (sessionVersion : Z)
    (nowMs : Z) (req : Server.Request) (relativePath : option string)
  : Outcome * list Server.AuditEntry :=
  match Server.writeGuards cfg readOnly sessionVersion nowMs req with
  | (Server.Respond r, log) => (Refused r, log)
  | (Server.Next _, log) =>
      let '(o, log') := handler relativePath in (o, log ++ log')
  end.

End Routes.

End Entries.

Module Folders.

(** What [POST /api/folders] does; [Mkdir destination failure] is the call
    [fsp.mkdir(destination, { recursive: false })] and the code of its
    rejection, if it is rejected. *)
Inductive Outcome : Type :=
| Refused (r : Server.Response)
| Passed (e : Exception)
| Mkdir (destination : string) (failure : option string).

Section Routes.

Variable root : string.
Variable cwd : string.
Variable fs : FileSystem.
(** The result of [fsp.mkdir] on a path. *)
Variable mkdir : string -> option string.
(** [relativeFromRoot], which labels the answer and the audit entry. *)
Variable relativeFromRoot : string -> string.

(** The handler of [POST /api/folders] with the body [{ parentPath, name }];
    a field that is absent is [None]. *)
Definition handler (parentPath name : option string)
  : Outcome * list Server.AuditEntry :=
  let parentPath := match parentPath with Some p => p | None => "." end in
  match name with
  | None => (Refused {| Server.status := 400; Server.body := "Folder name is required." |}, [])
  | Some name =>
      if negb (JsString.truthy name) then
        (Refused {| Server.status := 400; Server.body := "Folder name is required." |}, [])
      else
        let safeName := JsString.trim name in
        if negb (JsString.truthy safeName) then
          (Refused {| Server.status := 400;
                      Server.body := "Folder name cannot be empty." |}, [])
        else
          match Utils.resolveSafePathWithSymlinkCheck root cwd fs parentPath with
          | Throw e => (Passed e, [])
          | Return parentResolved =>
              let destination := Path.join [parentResolved; safeName] in
              match mkdir destination with
              | Some code => (Mkdir destination (Some code), [])
              | None =>
                  (Mkdir destination None,
                   [{| Server.action := "FOLDER_CREATED";
                       Server.details :=
                         [("folder", relativeFromRoot destination)] |}])
              end
          end
  end.

(** The route with the middlewares in front of it. *)
Definition create (cfg : Server.Config) (readOnly : bool) (sessionVersion : Z)
    (nowMs : Z) (req : Server.Request) (parentPath name : option string)
  : Outcome * list Server.AuditEntry :=
  match Server.writeGuards cfg readOnly sessionVersion nowMs req with
  | (Server.Respond r, log) => (Refused r, log)
  | (Server.Next _, log) =>
      let '(o, log') := handler parentPath name in (o, log ++ log')
  end.

End Routes.

End Folders.

Module Files.

(** What [POST /api/files] does; [WriteFile destination failure] is the call
    [fsp.writeFile(destination, buffer, { flag: 'wx' })] and the code of its
    rejection, if it is rejected. *)
Inductive Outcome : Type :=
| Refused (r : Server.Response)
| Passed (e : Exception)
| WriteFile (destination : string) (failure : option string).

Section Routes.

Variable root : string.
Variable cwd : string.
Variable fs : FileSystem.
(** The result of [fsp.writeFile] with the flag [wx] on a path. *)
Variable writeFile : string -> option string.
(** [relativeFromRoot], which labels the answer and the audit entry. *)
Variable relativeFromRoot : string -> string.

(** The handler of [POST /api/files] with the body
    [{ parentPath, name, content, encoding }]; the content does not take part
    in the choice of the destination. *)
Definition handler (parentPath name : option string)
  : Outcome * list Server.AuditEntry :=
  let parentPath := match parentPath with Some p => p | None => "." end in
  match name with
  | None => (Refused {| Server.status := 400; Server.body := "File name is required." |}, [])
  | Some name =>
      if negb (JsString.truthy name) then
        (Refused {| Server.status := 400; Server.body := "File name is required." |}, [])
      else
        match Utils.resolveSafePathWithSymlinkCheck root cwd fs parentPath with
        | Throw e => (Passed e, [])
        | Return parentResolved =>
            let destination := Path.join [parentResolved; name] in
            match writeFile destination with
            | Some code => (WriteFile destination (Some code), [])
            | None =>
                (WriteFile destination None,
                 [{| Server.action := "FILE_CREATED";
                     Server.details :=
                       [("file", relativeFromRoot destination)] |}])
            end
        end
  end.

(** The route with the middlewares in front of it. *)
Definition create (cfg : Server.Config) (readOnly : bool) (sessionVersion : Z)
    (nowMs : Z) (req : Server.Request) (parentPath name : option string)
  : Outcome * list Server.AuditEntry :=
  match Server.writeGuards cfg readOnly sessionVersion nowMs req with
  | (Server.Respond r, log) => (Refused r, log)
  | (Server.Next _, log) =>
      let '(o, log') := handler parentPath name in (o, log ++ log')
  end.

End Routes.

(** A file of [req.files] as multer leaves it on the disk. *)
Record UploadedFile := {
  originalname : string;
  filename : string;
  path : string;
  size : Z;
}.

(** [s.slice(0, -1)] *)
Definition dropLast (s : string) : string :=
  string_of_list_ascii (removelast (list_ascii_of_string s)).

(** [validateUploadFileType(file)]; [mimeLookup] is [mime.lookup]. *)
Definition validateUploadFileType (mimeLookup : string -> option string)
    (allowedUploadMimes : list string) (file : UploadedFile) : bool :=
  if (length allowedUploadMimes =? 0)%nat then true
  else
    let fileMime := match mimeLookup (originalname file) with
                    | Some m => if JsString.truthy m then m else "application/octet-stream"
                    | None => "application/octet-stream"
                    end in
    existsb
      (fun allowed =>
         if JsString.endsWith allowed "/*" then
           let prefix := dropLast allowed in
           JsString.startsWith fileMime prefix
         else String.eqb fileMime allowed)
      allowedUploadMimes.

(** What the callback of [POST /api/files/upload] does once multer has
    stored the files: it answers, hands multer's error on, removes every
    stored file again ([fsp.unlink] on each path) and answers 415, or keeps
    the files and answers 201. *)
Inductive UploadOutcome : Type :=
| UploadRefused (r : Server.Response)
| UploadPassed (e : Exception)
| UploadRejected (unlinked : list string) (r : Server.Response)
| FilesUploaded (files : list UploadedFile).

(** The loop [for (const file of req.files)]: the first file whose type is
    not allowed. *)
Fixpoint firstRejected (validate : UploadedFile -> bool) (files : list UploadedFile)
  : option UploadedFile :=
  match files with
  | [] => None
  | file :: rest =>
      if negb (validate file) then Some file else firstRejected validate rest
  end.

(** The callback; [err] is what multer hands it (an error with the code
    [LIMIT_FILE_SIZE] is [ErrnoException "LIMIT_FILE_SIZE"]), [files] is
    [req.files].  The audit entry of a kept upload lists the stored file
    names, one pair per file. *)
Definition uploadHandler (maxUploadBytes : Z)
    (mimeLookup : string -> option string) (allowedUploadMimes : list string)
    (err : option Exception) (files : option (list UploadedFile))
  : UploadOutcome * list Server.AuditEntry :=
  match err with
  | Some (ErrnoException code) =>
      if String.eqb code "LIMIT_FILE_SIZE" then
        (UploadRefused
           {| Server.status := 413;
              Server.body :=
                String.append "File exceeds maximum size of "
                  (String.append (NilZero.string_of_int (Z.to_int maxUploadBytes))
                     " bytes.") |}, [])
      else (UploadPassed (ErrnoException code), [])
  | Some e => (UploadPassed e, [])
  | None =>
      match files with
      | None | Some [] =>
          (UploadRefused {| Server.status := 400; Server.body := "No files provided." |}, [])
      | Some files =>
          match firstRejected (validateUploadFileType mimeLookup allowedUploadMimes) files with
          | Some file =>
              (UploadRejected (map path files)
                 {| Server.status := 415;
                    Server.body := String.append "File type not allowed: "
                                     (originalname file) |},
               [{| Server.action := "UPLOAD_REJECTED";
                   Server.details := [("reason", "invalid_file_type");
                                      ("filename", originalname file)] |}])
          | None =>
              (FilesUploaded files,
               [{| Server.action := "FILES_UPLOADED";
                   Server.details := map (fun f => ("file", filename f)) files |}])
          end
      end
  end.

End Files.

(* ===================================================================== *)
(** * The tree routes: [getDirectoryEntries] and [GET /api/tree]           *)
(* ===================================================================== *)

Module Tree.

(** A [fs.Dirent]: its name and what [isDirectory()] answers. *)
Record Dirent := {
  name : string;
  isDirectory : bool;
}.

Inductive Answer : Type :=
| Failure (status : Z) (error : string)
| Passed (e : Exception)
| Success (path : string) (entries : list Search.Entry).

(** [Promise.all]: the values in the order of the promises, or the
    rejection of the promise that is rejected first.  Which one that is
    depends on the timing when several are rejected; the model takes the
    first in the order of the list. *)
Fixpoint all {A : Type} (promises : list (fsres A)) : fsres (list A) :=
  match promises with
  | [] => FsOk []
  | FsErr code :: _ => FsErr code
  | FsOk a :: rest =>
      match all rest with
      | FsOk values => FsOk (a :: values)
      | FsErr code => FsErr code
      end
  end.

Section Routes.

Variable root : string.
Variable cwd : string.
Variable fs : FileSystem.
(** [fsp.readdir(dir, { withFileTypes: true })] *)
Variable readdir : string -> fsres (list Dirent).
(** [mime.lookup] *)
Variable mimeLookup : string -> option string.
Variable localeCompare : string -> string -> Z.
(** [relativeFromRoot], which labels the answer. *)
Variable relativeFromRoot : string -> string.

(** The entry made from one dirent of [targetPath]. *)
Definition entry (targetPath : string) (dirent : Dirent) : fsres Search.Entry :=
  let entryPath := Path.join [targetPath; name dirent] in
  match stat fs entryPath with
  | FsErr code => FsErr code
  | FsOk stats =>
      let entryMime :=
        if isDirectory dirent then None
        else match mimeLookup entryPath with
             | Some m => if JsString.truthy m then Some m else None
             | None => None
             end in
      FsOk {| Search.name := name dirent;
              Search.path := relativeFromRoot entryPath;
              Search.isDirectory := isDirectory dirent;
              Search.size := st_size stats;
              Search.modified := st_mtimeMs stats;
              Search.mimeType := entryMime |}
  end.

(** [getDirectoryEntries(targetPath)]; the comparator is the one of the
    search route. *)
Definition getDirectoryEntries (targetPath : string) : fsres (list Search.Entry) :=
  match readdir targetPath with
  | FsErr code => FsErr code
  | FsOk dirents =>
      match all (map (entry targetPath) dirents) with
      | FsErr code => FsErr code
      | FsOk entries =>
          FsOk (Search.sort (Search.compareEntries localeCompare) entries)
      end
  end.

(** [GET /api/tree?path=...] *)
Definition tree (queryPath : option string) : Answer :=
  let relativePath := match queryPath with
                      | Some p => if JsString.truthy p then p else "."
                      | None => "."
                      end in
  match Utils.resolveSafePathWithSymlinkCheck root cwd fs relativePath with
  | Throw e => Passed e
  | Return targetPath =>
      match stat fs targetPath with
      | FsErr code => Passed (ErrnoException code)
      | FsOk stats =>
          if negb (st_isDirectory stats) then
            Failure 400 "Path must identify a directory."
          else
            match getDirectoryEntries targetPath with
            | FsErr code => Passed (ErrnoException code)
            | FsOk entries => Success (relativeFromRoot targetPath) entries
            end
      end
  end.

End Routes.

End Tree.

(* ===================================================================== *)
(** * Concrete inputs used in the examples below                           *)
(* ===================================================================== *)

Module Demo.

Definition fileStats : Stats :=
  {| st_isDirectory := false; st_size := 12; st_mtimeMs := 0 |}.

Definition dirStats : Stats :=
  {| st_isDirectory := true; st_size := 4096; st_mtimeMs := 0 |}.

(** A filesystem without symbolic links in which [/data], [/data/docs],
    [/data2] and [/etc] are directories and every other path is a file. *)
Definition plainFs : FileSystem :=
  {| realpath := fun p => FsOk p;
     stat := fun p =>
       if existsb (String.eqb p) ["/data"; "/data/docs"; "/data2"; "/etc"]
       then FsOk dirStats else FsOk fileStats |}.

(** The same, after [/data/link] was made a symbolic link to
    [/data2/secret], a file of the directory next to the root. *)
Definition retargetedFs : FileSystem :=
  {| realpath := fun p =>
       if String.eqb p "/data/link" then FsOk "/data2/secret" else FsOk p;
     stat := stat plainFs |}.

(** The same, with a symbolic link [/data/docs/link] to [/etc/passwd]
    inside the shared directory. *)
Definition linkedFs : FileSystem :=
  {| realpath := fun p =>
       if String.eqb p "/data/docs/link" then FsOk "/etc/passwd" else FsOk p;
     stat := stat plainFs |}.

Definition config : Server.Config :=
  {| Server.AUTH_REQUIRED := true;
     Server.AUTH_USERNAME := "admin";
     Server.storedPassword := "secret";
     Server.SESSION_SECRET := "k";
     Server.SESSION_TTL_SECONDS := 3600 |}.

Definition requestWith (m p : string) (token : option Jwt.Token) : Server.Request :=
  {| Server.method := m;
     Server.path := p;
     Server.authorization := None;
     Server.sessionCookie := token;
     Server.csrfCookie := Some "c0ffee";
     Server.csrfHeader := Some "c0ffee" |}.

(** The token a login at session version 1 and time 0 hands out. *)
Definition firstToken : Jwt.Token := Server.issueToken config 1 "admin" 0.

(** A request for [/tree] with a token signed with a guessed key. *)
Definition forgedRequest : Server.Request :=
  requestWith "GET" "/tree" (Some (Jwt.sign "admin" 1 "guessed" 3600 0)).

(** The administrator's request to invalidate all sessions, sent with the
    first token and a matching CSRF pair at time 500. *)
Definition invalidation : Server.Event :=
  {| Server.ev_nowMs := 500;
     Server.ev_request := requestWith "POST" "/auth/invalidate-sessions" (Some firstToken) |}.

Definition docsShare : Shares.Share :=
  {| Shares.id := "a1b2c3d4e5f60718";
     Shares.accessCode := "K7QX2M";
     Shares.path := "docs";
     Shares.resolvedPath := "/data/docs";
     Shares.isDirectory := true;
     Shares.name := "docs";
     Shares.createdAt := 0;
     Shares.expiresAt := 3600000;
     Shares.accessCount := 1;
     Shares.accessTokens := Some {[ "5ca1ab1e" ]} |}.

(** A root directory with a few entries, one sub-directory unreadable. *)
Definition smallTree : Search.Directory :=
  Search.Listing
    [Search.FileEnt "b.txt" (FsOk fileStats);
     Search.DirEnt "sub" (FsOk dirStats)
       (Search.Listing [Search.FileEnt "a.TXT" (FsOk fileStats);
                        Search.FileEnt "c.bin" (FsOk fileStats)]);
     Search.FileEnt "z.txt" (FsOk fileStats);
     Search.DirEnt "txt" (FsOk dirStats) (Search.Unreadable "EACCES")].

(** A root directory with the 1000 files [f0.txt] ... [f999.txt]. *)
Definition bigTree : Search.Directory :=
  Search.Listing
    (map (fun i => Search.FileEnt
                     (String.append "f"
                        (String.append (NilEmpty.string_of_uint (Nat.to_uint i)) ".txt"))
                     (FsOk fileStats))
       (seq 0 1000)).

(** A [localeCompare] for the examples: the order of the character codes. *)
Definition localeCompare (a b : string) : Z :=
  match String.compare a b with Lt => -1 | Eq => 0 | Gt => 1 end.

Definition searchFor (query limit timeout : string) : Search.Query :=
  {| Search.q := Some query;
     Search.searchPath := None;
     Search.limit := Some limit;
     Search.timeoutParam := Some timeout |}.

(** Values of [Math.random()] (numerators over [2^53]) for which
    [generateAccessCode] yields the access code of [docsShare]. *)
Definition draws (i : nat) : Z := nth i [9; 29; 14; 21; 24; 11] 0 * 2 ^ 48.

(** The share [POST /api/shares] stores for [docs] at time 0, for one hour,
    with the share id of [docsShare] and the draws above. *)
Definition freshShare : Shares.Share :=
  {| Shares.id := "a1b2c3d4e5f60718";
     Shares.accessCode := "K7QX2M";
     Shares.path := "docs";
     Shares.resolvedPath := "/data/docs";
     Shares.isDirectory := true;
     Shares.name := "docs";
     Shares.createdAt := 0;
     Shares.expiresAt := 3600000;
     Shares.accessCount := 0;
     Shares.accessTokens := None |}.

(** Two files of one upload. *)
Definition uploads : list Files.UploadedFile :=
  [{| Files.originalname := "a.png"; Files.filename := "a.png";
      Files.path := "/data/a.png"; Files.size := 10 |};
   {| Files.originalname := "b.exe"; Files.filename := "b.exe";
      Files.path := "/data/b.exe"; Files.size := 20 |}].

(** A [mime.lookup] that knows two extensions. *)
Definition mimeLookup (p : string) : option string :=
  if JsString.endsWith p ".png" then Some "image/png"
  else if JsString.endsWith p ".txt" then Some "text/plain"
  else None.

(** What [readdir] finds in [/data]. *)
Definition listing (p : string) : fsres (list Tree.Dirent) :=
  if String.eqb p "/data" then
    FsOk [{| Tree.name := "b.txt"; Tree.isDirectory := false |};
          {| Tree.name := "docs"; Tree.isDirectory := true |};
          {| Tree.name := "a.txt"; Tree.isDirectory := false |}]
  else FsErr "ENOENT".

End Demo.

(* ===================================================================== *)
(** * Facts about Node's path functions                                    *)
(* ===================================================================== *)

Lemma append_cons c s t :
  String.append (String c s) t = String c (String.append s t).
Proof. reflexivity. Qed.

Lemma append_nil_r s : String.append s "" = s.
Proof. induction s as [|c s IH]; [reflexivity|]. now rewrite append_cons, IH. Qed.

(** ** Splitting at separators *)

Lemma split_nonempty s : Path.split s <> [].
Proof.
  destruct s as [|c r]; simpl; [discriminate|].
  destruct (Ascii.eqb c Path.slash); [discriminate|].
  destruct (Path.split r); discriminate.
Qed.

(** A separator in the middle splits the string there. *)
Lemma split_append_slash a b :
  Path.split (String.append a (String Path.slash b)) = Path.split a ++ Path.split b.
Proof.
  induction a as [|c a IH]; [reflexivity|].
  rewrite append_cons. simpl. rewrite IH.
  destruct (Ascii.eqb c Path.slash); [reflexivity|].
  pose proof (split_nonempty a). destruct (Path.split a); [congruence|reflexivity].
Qed.

Lemma split_cons_slash x : Path.split (String Path.slash x) = "" :: Path.split x.
Proof. reflexivity. Qed.

Lemma split_slash_end p : Path.split (String.append p "/") = Path.split p ++ [""].
Proof. apply (split_append_slash p ""). Qed.

Lemma split_noSlash s : Path.noSlash s = true -> Path.split s = [s].
Proof.
  induction s as [|c s IH]; simpl; [reflexivity|].
  intros H. apply andb_prop in H as [Hc Hs]. apply negb_true_iff in Hc.
  now rewrite Hc, (IH Hs).
Qed.

Lemma split_all_noSlash s : forallb Path.noSlash (Path.split s) = true.
Proof.
  induction s as [|c s IH]; simpl; [reflexivity|].
  destruct (Ascii.eqb c Path.slash) eqn:E; simpl; [exact IH|].
  pose proof (split_nonempty s) as Hne.
  destruct (Path.split s) as [|h t]; [congruence|].
  simpl in *. apply andb_prop in IH as [Hh Ht].
  rewrite Ht, andb_true_r. unfold Path.noSlash in *. simpl.
  fold Path.slash. now rewrite E, Hh.
Qed.

(** Joining segments with separators and splitting again gives them back. *)
Lemma split_concat l :
  l <> [] -> forallb Path.noSlash l = true ->
  Path.split (String.concat "/" l) = l.
Proof.
  induction l as [|x l IH]; [congruence|]. intros _ H.
  simpl in H. apply andb_prop in H as [Hx Hl].
  destruct l as [|y l]; [simpl; now apply split_noSlash|].
  change (String.concat "/" (x :: y :: l))
    with (String.append x (String Path.slash (String.concat "/" (y :: l)))).
  rewrite split_append_slash, (split_noSlash x Hx), IH;
    [reflexivity | discriminate | exact Hl].
Qed.

(** ** Names, and the stacks of [normalizeString] *)

Lemma proper_inv s :
  Path.proper s = true ->
  Path.noSlash s = true /\ String.eqb s "" = false
  /\ String.eqb s "." = false /\ Path.isDotDot s = false.
Proof.
  unfold Path.proper, Path.isDotDot. intros H.
  apply andb_prop in H as [H H4]. apply andb_prop in H as [H H3].
  apply andb_prop in H as [H1 H2].
  now rewrite negb_true_iff in H2, H3, H4.
Qed.

Lemma proper_harmless l :
  forallb Path.proper l = true -> forallb Path.harmless l = true.
Proof.
  induction l as [|x l IH]; simpl; [reflexivity|].
  intros H. apply andb_prop in H as [Hx Hl].
  unfold Path.harmless at 1. rewrite Hx, (IH Hl). now rewrite orb_true_r.
Qed.

Lemma proper_noSlash l :
  forallb Path.proper l = true -> forallb Path.noSlash l = true.
Proof.
  induction l as [|x l IH]; simpl; [reflexivity|].
  intros H. apply andb_prop in H as [Hx Hl].
  now rewrite (IH Hl), (proj1 (proper_inv x Hx)).
Qed.

Lemma filter_proper_proper l :
  forallb Path.proper (List.filter Path.proper l) = true.
Proof.
  induction l as [|x l IH]; simpl; [reflexivity|].
  destruct (Path.proper x) eqn:E; simpl; [now rewrite E|exact IH].
Qed.

Lemma filter_nonempty_proper l :
  forallb Path.proper l = true ->
  List.filter (fun s => negb (String.eqb s "")) l = l.
Proof.
  induction l as [|x l IH]; simpl; [reflexivity|].
  intros H. apply andb_prop in H as [Hx Hl].
  destruct (proper_inv x Hx) as (_ & Hne & _). now rewrite (IH Hl), Hne.
Qed.

Lemma forallb_rev {A} (f : A -> bool) l : forallb f (rev l) = forallb f l.
Proof.
  induction l as [|x l IH]; simpl; [reflexivity|].
  rewrite forallb_app, IH. simpl. rewrite andb_true_r. apply andb_comm.
Qed.

(** Every step of [normalizeString] keeps the stack well formed. *)
Lemma step_stackOk allow res seg :
  Path.noSlash seg = true -> Path.stackOk allow res = true ->
  Path.stackOk allow (Path.step allow res seg) = true.
Proof.
  intros Hn Hs. unfold Path.step.
  destruct (String.eqb seg "") eqn:E1; [assumption|].
  destruct (String.eqb seg ".") eqn:E2; [assumption|].
  destruct (String.eqb seg "..") eqn:E3.
  - destruct res as [|top rest]; [destruct allow; reflexivity|].
    simpl in Hs. fold (Path.isDotDot top).
    destruct (Path.isDotDot top) eqn:Et.
    + destruct allow; [|discriminate Hs]. simpl in *. now rewrite Et.
    + now apply andb_prop in Hs as [_ Hs].
  - simpl. unfold Path.isDotDot, Path.proper. now rewrite Hn, E1, E2, E3, Hs.
Qed.

Lemma fold_stackOk allow segs : forall acc,
  forallb Path.noSlash segs = true -> Path.stackOk allow acc = true ->
  Path.stackOk allow (fold_left (Path.step allow) segs acc) = true.
Proof.
  induction segs as [|x l IH]; intros acc Hn Ha; simpl; [assumption|].
  simpl in Hn. apply andb_prop in Hn as [Hx Hl].
  apply IH; [assumption|]. now apply step_stackOk.
Qed.

(** Below the root ([allowAboveRoot] false) no [..] is kept. *)
Lemma stackOk_false res :
  Path.stackOk false res = true -> forallb Path.proper res = true.
Proof.
  induction res as [|x r IH]; simpl; [reflexivity|].
  destruct (Path.isDotDot x); [discriminate|].
  intros H. apply andb_prop in H as [Hx Hr]. now rewrite Hx, IH.
Qed.

Lemma hd_rev_dotdot r x :
  forallb Path.isDotDot (x :: r) = true -> hd "" (rev (x :: r)) = "..".
Proof.
  revert x. induction r as [|y r IH]; intros x H; simpl in *.
  - apply andb_prop in H as [H _]. now apply String.eqb_eq in H.
  - apply andb_prop in H as [Hx H]. specialize (IH y H). simpl in IH.
    destruct (rev r ++ [y]) eqn:E; [destruct (rev r); discriminate|].
    simpl in *. exact IH.
Qed.

(** A result that does not begin with [..] contains no [..] at all. *)
Lemma stackOk_head allow res :
  Path.stackOk allow res = true ->
  Path.isDotDot (hd "" (rev res)) = false ->
  forallb Path.proper res = true.
Proof.
  induction res as [|x r IH]; simpl; [reflexivity|].
  destruct (Path.isDotDot x) eqn:Ex; intros H Hh.
  - apply andb_prop in H as [_ H].
    assert (Hall : forallb Path.isDotDot (x :: r) = true)
      by (simpl; now rewrite Ex, H).
    apply hd_rev_dotdot in Hall. simpl in Hall. rewrite Hall in Hh. discriminate.
  - apply andb_prop in H as [Hx Hr]. rewrite Hx. simpl.
    destruct r as [|y r']; [reflexivity|]. apply IH; [assumption|].
    simpl in *. destruct (rev r' ++ [y]) eqn:E; [destruct (rev r'); discriminate|].
    exact Hh.
Qed.

(** Harmless segments are pushed or dropped, none removes another. *)
Lemma fold_harmless allow l : forall acc,
  forallb Path.harmless l = true ->
  fold_left (Path.step allow) l acc = rev (List.filter Path.proper l) ++ acc.
Proof.
  induction l as [|x l IH]; intros acc H; simpl; [reflexivity|].
  simpl in H. apply andb_prop in H as [Hx Hl]. rewrite (IH _ Hl).
  unfold Path.harmless in Hx. unfold Path.step.
  destruct (String.eqb x "") eqn:E1.
  { apply String.eqb_eq in E1. subst x. reflexivity. }
  destruct (String.eqb x ".") eqn:E2.
  { apply String.eqb_eq in E2. subst x. reflexivity. }
  simpl in Hx. rewrite Hx.
  destruct (proper_inv x Hx) as (_ & _ & _ & Hd). unfold Path.isDotDot in Hd.
  rewrite Hd. simpl. now rewrite <- app_assoc.
Qed.

Lemma concat_dotdot_prefix x rest t :
  Path.isDotDot x = true ->
  String.prefix ".." (String.append (String.concat "/" (x :: rest)) t) = true.
Proof.
  intros Hx. apply String.eqb_eq in Hx. subst x.
  destruct rest; [destruct t|]; reflexivity.
Qed.

Lemma concat_nil_inv l :
  String.concat "/" l = "" -> forallb Path.proper l = true -> l = [].
Proof.
  destruct l as [|x l]; [reflexivity|]. intros Hc Hp. exfalso.
  simpl in Hp. apply andb_prop in Hp as [Hx _].
  destruct (proper_inv x Hx) as (_ & Hne & _). apply String.eqb_neq in Hne.
  destruct x as [|c x]; [congruence|]. destruct l; discriminate Hc.
Qed.

(** ** [path.normalize] *)

Lemma normalize_nonempty sub : Path.normalize sub <> "".
Proof.
  unfold Path.normalize. destruct (String.eqb sub ""); [discriminate|].
  destruct (String.eqb (Path.normalizeString sub _) "") eqn:E.
  - destruct (Path.isAbsolute sub); [discriminate|].
    destruct (Path.hasTrailingSeparator sub); discriminate.
  - apply String.eqb_neq in E. destruct (Path.isAbsolute sub); [discriminate|].
    destruct (Path.hasTrailingSeparator sub); [|exact E].
    destruct (Path.normalizeString sub _); [congruence|discriminate].
Qed.

(** A normalized path that does not start with [..] has only harmless
    segments. *)
Lemma normalize_harmless sub :
  JsString.startsWith (Path.normalize sub) ".." = false ->
  forallb Path.harmless (Path.split (Path.normalize sub)) = true.
Proof.
  unfold Path.normalize, JsString.startsWith.
  destruct (String.eqb sub ""); [reflexivity|].
  unfold Path.normalizeString, Path.normSegs.
  set (abs := Path.isAbsolute sub).
  pose proof (fold_stackOk (negb abs) (Path.split sub) []
                (split_all_noSlash sub) eq_refl) as Hok.
  set (stack := fold_left (Path.step (negb abs)) (Path.split sub) []) in *.
  assert (Hsplit : forallb Path.proper (rev stack) = true -> rev stack <> [] ->
            forall trailing : bool,
              forallb Path.harmless
                (Path.split (if trailing
                             then String.append (String.concat "/" (rev stack)) "/"
                             else String.concat "/" (rev stack))) = true).
  { intros Hp Hne [|].
    - rewrite split_slash_end, split_concat, forallb_app by auto using proper_noSlash.
      now rewrite proper_harmless.
    - rewrite split_concat by auto using proper_noSlash. now apply proper_harmless. }
  destruct (String.eqb (String.concat "/" (rev stack)) "") eqn:Ep.
  - destruct abs; [reflexivity|]. destruct (Path.hasTrailingSeparator sub); reflexivity.
  - apply String.eqb_neq in Ep.
    assert (Hne : rev stack <> []) by (intros H; rewrite H in Ep; now apply Ep).
    destruct abs; simpl negb in Hok.
    + apply stackOk_false in Hok. rewrite <- forallb_rev in Hok.
      intros _. change (String.append "/" ?x) with (String Path.slash x).
      rewrite split_cons_slash. cbn [forallb].
      change (Path.harmless "") with true. cbn [andb]. now apply Hsplit.
    + intros Hpre.
      assert (Hhd : Path.isDotDot (hd "" (rev stack)) = false).
      { destruct (Path.isDotDot (hd "" (rev stack))) eqn:E; [|reflexivity].
        destruct (rev stack) as [|x rest]; [congruence|]. simpl in E.
        destruct (Path.hasTrailingSeparator sub).
        - now rewrite (concat_dotdot_prefix x rest "/" E) in Hpre.
        - pose proof (concat_dotdot_prefix x rest "" E) as H.
          rewrite append_nil_r in H. congruence. }
      apply (stackOk_head _ _ Hok) in Hhd. rewrite <- forallb_rev in Hhd.
      now apply Hsplit.
Qed.

Lemma isAbsolute_slash x : Path.isAbsolute (String Path.slash x) = true.
Proof. destruct x; reflexivity. Qed.

Lemma isAbsolute_inv root :
  Path.isAbsolute root = true -> exists r, root = String Path.slash r.
Proof.
  destruct root as [|c r]; [discriminate|]. intros H. exists r. f_equal.
  unfold Path.isAbsolute, JsString.startsWith in H.
  change (String.prefix "/" (String c r))
    with (if Ascii.ascii_dec "/" c then String.prefix "" r else false) in H.
  destruct (Ascii.ascii_dec "/" c) as [<-|]; [reflexivity|discriminate].
Qed.

Lemma normalize_absolute x :
  Path.normalize (String Path.slash x)
  = let p := Path.normalizeString (String Path.slash x) false in
    if String.eqb p "" then "/"
    else String.append "/"
           (if Path.hasTrailingSeparator (String Path.slash x)
            then String.append p "/" else p).
Proof.
  unfold Path.normalize. rewrite isAbsolute_slash.
  change (String.eqb (String Path.slash x) "") with false. cbv iota zeta. simpl negb.
  destruct (String.eqb _ ""); [reflexivity|].
  destruct (Path.hasTrailingSeparator _); reflexivity.
Qed.

(** ** Segments *)

Lemma segments_root root :
  forallb (fun s => String.eqb s "" || Path.proper s) (Path.split root) = true ->
  Path.segments root = List.filter Path.proper (Path.split root).
Proof.
  unfold Path.segments.
  induction (Path.split root) as [|x l IH]; simpl; [reflexivity|].
  intros H. apply andb_prop in H as [Hx Hl]. rewrite (IH Hl).
  destruct (String.eqb x "") eqn:E.
  - apply String.eqb_eq in E. subst x. reflexivity.
  - simpl in Hx. now rewrite Hx.
Qed.

Lemma segments_cons_slash x :
  Path.segments (String Path.slash x) = Path.segments x.
Proof. reflexivity. Qed.

Lemma segments_slash_end p :
  Path.segments (String.append p "/") = Path.segments p.
Proof.
  unfold Path.segments. rewrite split_slash_end, List.filter_app.
  simpl. apply app_nil_r.
Qed.

Lemma segments_concat l :
  l <> [] -> forallb Path.proper l = true ->
  Path.segments (String.concat "/" l) = l.
Proof.
  intros Hne Hp. unfold Path.segments.
  rewrite split_concat by auto using proper_noSlash.
  now apply filter_nonempty_proper.
Qed.

(** The segments of an absolute path built from names are those names. *)
Lemma segments_absolute l trailing :
  forallb Path.proper l = true ->
  Path.segments
    (if String.eqb (String.concat "/" l) "" then "/"
     else String.append "/"
            (if trailing : bool then String.append (String.concat "/" l) "/"
             else String.concat "/" l)) = l.
Proof.
  intros Hp. destruct (String.eqb (String.concat "/" l) "") eqn:E.
  - apply String.eqb_eq in E. now rewrite (concat_nil_inv l E Hp).
  - assert (Hne : l <> []) by (intros H; subst l; discriminate E).
    change (String.append "/" ?x) with (String Path.slash x).
    rewrite segments_cons_slash. destruct trailing.
    + rewrite segments_slash_end. now apply segments_concat.
    + now apply segments_concat.
Qed.

Lemma list_prefix_app l r : Path.list_prefix l (l ++ r) = true.
Proof.
  induction l as [|x l IH]; simpl; [reflexivity|]. now rewrite String.eqb_refl.
Qed.

(** ** [path.join] below a normal root *)

Lemma join_two r n :
  n <> "" ->
  Path.join [String Path.slash r; n]
  = Path.normalize (String Path.slash (String.append r (String Path.slash n))).
Proof. destruct n; [congruence|]. reflexivity. Qed.

(** Joining harmless segments to a normal root stays at or below the root. *)
Lemma join_root root n :
  Path.isNormalRoot root = true ->
  n <> "" ->
  forallb Path.harmless (Path.split n) = true ->
  Path.within root (Path.join [root; n]) = true
  /\ forallb Path.proper (Path.segments (Path.join [root; n])) = true.
Proof.
  intros Hr Hn Hh. unfold Path.isNormalRoot in Hr.
  apply andb_prop in Hr as [Habs Hsegs].
  destruct (isAbsolute_inv root Habs) as [r ->].
  rewrite (join_two r n Hn), normalize_absolute. cbv zeta.
  unfold Path.normalizeString, Path.normSegs.
  change (String Path.slash (String.append r (String Path.slash n)))
    with (String.append (String Path.slash r) (String Path.slash n)).
  rewrite split_append_slash, fold_harmless, app_nil_r, rev_involutive,
    List.filter_app.
  2:{ rewrite forallb_app, Hh, andb_true_r. clear -Hsegs.
      induction (Path.split (String Path.slash r)) as [|x l IH];
        simpl in *; [reflexivity|].
      apply andb_prop in Hsegs as [Hx Hl]. rewrite (IH Hl), andb_true_r.
      unfold Path.harmless. destruct (String.eqb x ""); [reflexivity|].
      simpl in Hx. now rewrite Hx, orb_true_r. }
  set (rootSegs := List.filter Path.proper (Path.split (String Path.slash r))).
  set (l := rootSegs ++ List.filter Path.proper (Path.split n)).
  assert (Hl : forallb Path.proper l = true)
    by (unfold l, rootSegs; now rewrite forallb_app, !filter_proper_proper).
  rewrite (segments_absolute l _ Hl). split; [|exact Hl].
  unfold Path.within.
  rewrite (segments_absolute l _ Hl), (segments_root _ Hsegs).
  fold rootSegs.
  assert (Hp : Path.list_prefix rootSegs l = true) by apply list_prefix_app.
  rewrite Hp, andb_true_r.
  destruct (String.eqb (String.concat "/" l) "");
    [reflexivity | apply isAbsolute_slash].
Qed.

(* ===================================================================== *)
(** * Facts about the confinement to the root                               *)
(* ===================================================================== *)

Section RootFacts.

Variables root cwd : string.

(** Whatever [resolveSafePath] returns has the root as a string prefix. *)
Lemma resolveSafePath_startsWith rel p :
  Utils.resolveSafePath root cwd rel = Return p ->
  JsString.startsWith p root = true.
Proof.
  unfold Utils.resolveSafePath.
  destruct (JsString.startsWith _ root) eqn:E; simpl; intros H.
  - now inversion H; subst.
  - discriminate.
Qed.

(** The symlink check: a real path that lacks the root prefix is refused
    after the lexical check passed. *)
Lemma symlinkCheck_refuses_real_path fs rel resolved real :
  Utils.resolveSafePath root cwd rel = Return resolved ->
  realpath fs resolved = FsOk real ->
  JsString.startsWith real root = false ->
  Utils.resolveSafePathWithSymlinkCheck root cwd fs rel
  = Throw (Error Utils.escapes_symlink_message).
Proof.
  intros Hl Hr Hp. unfold Utils.resolveSafePathWithSymlinkCheck.
  now rewrite Hl, Hr, Hp.
Qed.

(** For a target that does not exist yet, the parent directory's real path
    is checked instead. *)
Lemma symlinkCheck_refuses_parent fs rel resolved parentReal :
  Utils.resolveSafePath root cwd rel = Return resolved ->
  realpath fs resolved = FsErr "ENOENT" ->
  realpath fs (Path.dirname resolved) = FsOk parentReal ->
  JsString.startsWith parentReal root = false ->
  Utils.resolveSafePathWithSymlinkCheck root cwd fs rel
  = Throw (Error Utils.escapes_symlink_message).
Proof.
  intros Hl Hr Hd Hp. unfold Utils.resolveSafePathWithSymlinkCheck.
  rewrite Hl, Hr. simpl. now rewrite Hd, Hp.
Qed.

(** Every path the checked resolution returns has the root as a string
    prefix, or its parent's real path has. *)
Lemma symlinkCheck_startsWith fs rel p :
  Utils.resolveSafePathWithSymlinkCheck root cwd fs rel = Return p ->
  JsString.startsWith p root = true.
Proof.
  unfold Utils.resolveSafePathWithSymlinkCheck.
  destruct (Utils.resolveSafePath root cwd rel) as [resolved|] eqn:Hl; [|discriminate].
  apply resolveSafePath_startsWith in Hl.
  destruct (realpath fs resolved) as [real|code].
  - destruct (JsString.startsWith real root) eqn:E; simpl; [|discriminate].
    intros H; inversion H; now subst.
  - destruct (String.eqb code "ENOENT"); [|discriminate].
    destruct (realpath fs (Path.dirname resolved)) as [pr|]; [|discriminate].
    destruct (JsString.startsWith pr root); simpl; [|discriminate].
    intros H; inversion H; now subst.
Qed.

End RootFacts.

(** C1 (the code at the failing input).  With the root [/data], the relative
    path [../data2/secret] and the absolute-looking path [/data2/secret] both
    resolve, without an error, to [/data2/secret]: a file of the sibling
    directory [/data2], which is neither the root nor a descendant of it.  The
    check is a string-prefix test, and [/data2/secret] starts with [/data]. *)
Theorem resolveSafePath_returns_sibling_of_root :
  Utils.resolveSafePath "/data" "/" "../data2/secret" = Return "/data2/secret"
  /\ Utils.resolveSafePath "/data" "/" "/data2/secret" = Return "/data2/secret"
  /\ Utils.resolveSafePathWithSymlinkCheck "/data" "/" Demo.plainFs "../data2/secret"
     = Return "/data2/secret"
  /\ Path.within "/data" "/data2/secret" = false.
Proof. repeat split; vm_compute; reflexivity. Qed.

(** C2 (the code at the failing input).  [link] first resolves to
    [/data/link], which passes the lexical check and lies inside the root;
    once [/data/link] is a symbolic link to
    [/data2/secret] its real path lies outside the root, yet the checked
    resolution returns that real path instead of failing. *)
Theorem symlinkCheck_returns_real_path_outside_root :
  Utils.resolveSafePathWithSymlinkCheck "/data" "/" Demo.plainFs "link"
  = Return "/data/link"
  /\ Utils.resolveSafePath "/data" "/" "link" = Return "/data/link"
  /\ Path.within "/data" "/data/link" = true
  /\ realpath Demo.retargetedFs "/data/link" = FsOk "/data2/secret"
  /\ Path.within "/data" "/data2/secret" = false
  /\ Utils.resolveSafePathWithSymlinkCheck "/data" "/" Demo.retargetedFs "link"
     = Return "/data2/secret".
Proof. repeat split; vm_compute; reflexivity. Qed.

(* ===================================================================== *)
(** * Facts about the comparison of secrets                                *)
(* ===================================================================== *)

Lemma timingSafeEqual_eq a : forall b,
  Utils.timingSafeEqual a b = true <-> a = b.
Proof.
  induction a as [|x a IH]; intros [|y b]; simpl; split; try easy.
  - intros H. apply andb_prop in H as [Hxy Hr].
    apply Ascii.eqb_eq in Hxy. apply IH in Hr. now subst.
  - intros H. inversion H; subst. rewrite Ascii.eqb_refl. simpl. now apply IH.
Qed.

Lemma list_ascii_of_string_inj s : forall t,
  list_ascii_of_string s = list_ascii_of_string t -> s = t.
Proof.
  intros t H. rewrite <- (string_of_list_ascii_of_string s), H.
  apply string_of_list_ascii_of_string.
Qed.

(** [safeCompare] answers whether the two strings are equal. *)
Lemma safeCompare_eq a b : Utils.safeCompare a b = true <-> a = b.
Proof.
  unfold Utils.safeCompare, Utils.Buffer_from.
  destruct (length (list_ascii_of_string a) =? length (list_ascii_of_string b))%nat eqn:E;
    simpl.
  - rewrite timingSafeEqual_eq. split; [apply list_ascii_of_string_inj | now intros ->].
  - split; [discriminate|]. intros ->. now rewrite Nat.eqb_refl in E.
Qed.

(** On a length mismatch the answer is still produced, and it is [false]. *)
Lemma safeCompare_length_mismatch a b :
  String.length a <> String.length b -> Utils.safeCompare a b = false.
Proof.
  intros H. destruct (Utils.safeCompare a b) eqn:E; [|reflexivity].
  apply safeCompare_eq in E. now subst.
Qed.

(* ===================================================================== *)
(** * Facts about sessions                                                 *)
(* ===================================================================== *)

Section SessionFacts.

Variable cfg : Server.Config.

Lemma incrementSessionVersion_le v : v <= Server.incrementSessionVersion v.
Proof. unfold Server.incrementSessionVersion. destruct (v <? _); lia. Qed.

Lemma invalidateSessions_le v now req :
  v <= snd (Server.invalidateSessions cfg v now req).
Proof.
  unfold Server.invalidateSessions.
  destruct (fst (Server.requireAuth cfg v now req)); simpl; try lia.
  destruct (fst (Server.csrfProtection cfg req)); simpl; try lia.
  destruct (negb (Server.AUTH_REQUIRED cfg)); simpl; try lia.
  apply incrementSessionVersion_le.
Qed.

(** The session version never decreases, whatever requests arrive. *)
Lemma run_monotone evs : forall v, v <= Server.run cfg v evs.
Proof.
  unfold Server.run. induction evs as [|ev evs IH]; intros v; simpl; [lia|].
  etransitivity; [|apply IH].
  unfold Server.handle. destruct (_ && _); [apply invalidateSessions_le | lia].
Qed.

(** A request passes [requireAuth] with a user only when the version in its
    token is the current one. *)
Lemma requireAuth_next_current v now req p :
  fst (Server.requireAuth cfg v now req) = Server.Next (Some p) ->
  Jwt.sessionVersion p = Some v.
Proof.
  unfold Server.requireAuth.
  destruct (Server.bypassesAuth cfg req); [discriminate|].
  destruct (Server.extractToken req) as [tok|]; [|discriminate].
  destruct (Jwt.isEmpty tok); [discriminate|].
  destruct (Jwt.verify tok _ now) as [e|payload]; [discriminate|].
  case_bool_decide as Hv; simpl; [|discriminate].
  intros Hn; inversion Hn; now subst.
Qed.

(** A token minted by a login carries the version of that moment, is signed
    with the server's secret and expires after the configured lifetime. *)
Lemma verify_issued v user t0 now :
  Jwt.verify (Server.issueToken cfg v user t0) (Server.SESSION_SECRET cfg) now
  = if Jwt.clockTimestamp t0 + Server.SESSION_TTL_SECONDS cfg <=? Jwt.clockTimestamp now
    then inl Jwt.TokenExpiredError
    else inr {| Jwt.username := user;
                Jwt.sessionVersion := Some v;
                Jwt.iat := Jwt.clockTimestamp t0;
                Jwt.exp := Some (Jwt.clockTimestamp t0 + Server.SESSION_TTL_SECONDS cfg) |}.
Proof.
  unfold Server.issueToken, Jwt.sign, Jwt.verify. now rewrite String.eqb_refl.
Qed.

End SessionFacts.

(** A successful login hands out the token made from the session version of
    that moment. *)
Lemma login_token cfg scrypt csrfToken v t0 username password token csrf :
  fst (Server.login cfg scrypt csrfToken v t0 username password)
  = Server.LoggedIn token csrf ->
  exists user, username = Some user /\ token = Server.issueToken cfg v user t0.
Proof.
  unfold Server.login.
  destruct (negb (Server.AUTH_REQUIRED cfg)); [discriminate|].
  destruct username as [user|]; [|discriminate].
  destruct password as [pass|]; [|discriminate].
  destruct (_ || _); [discriminate|].
  destruct (Utils.verifyPassword scrypt pass _) as [ok|]; [|discriminate].
  destruct (_ || _); [discriminate|].
  simpl. intros H; inversion H; subst. eauto.
Qed.

(** C3.  A login succeeds while the session version is [v0] and hands out a
    token; later (after any requests) a request to invalidate-sessions
    increments the version, and any further requests follow.  From then on a
    request that needs authentication and carries that token is answered 401;
    while the token has not expired the answer is
    [Session has been invalidated.] (its signature is valid, being the
    server's own).  And no request at all is authenticated unless the version
    in its token equals the current one. *)
Theorem invalidateSessions_rejects_earlier_tokens
    (cfg : Server.Config) (scrypt : string -> string -> string)
    (csrfToken : string) (v0 t0 : Z) (username password : option string)
    (token : Jwt.Token) (csrf : string)
    (before after : list Server.Event) (invalidation : Server.Event)
    (now : Z) (req : Server.Request) :
  let v1 := Server.run cfg v0 before in
  let v2 := Server.handle cfg v1 invalidation in
  let v := Server.run cfg v2 after in
  fst (Server.login cfg scrypt csrfToken v0 t0 username password)
  = Server.LoggedIn token csrf ->
  v2 <> v1 ->
  Server.bypassesAuth cfg req = false ->
  Server.extractToken req = Some token ->
  (exists msg, fst (Server.requireAuth cfg v now req)
               = Server.Respond {| Server.status := 401; Server.body := msg |})
  /\ (Jwt.clockTimestamp now < Jwt.clockTimestamp t0 + Server.SESSION_TTL_SECONDS cfg ->
      fst (Server.requireAuth cfg v now req)
      = Server.Respond {| Server.status := 401;
                          Server.body := "Session has been invalidated." |})
  /\ (forall now' req' p,
        fst (Server.requireAuth cfg v now' req') = Server.Next (Some p) ->
        Jwt.sessionVersion p = Some v).
Proof.
  intros v1 v2 v Hlogin Hinc Hby Htok.
  destruct (login_token _ _ _ _ _ _ _ _ _ Hlogin) as (user & _ & ->).
  assert (Hlt : v0 < v).
  { pose proof (run_monotone cfg before v0).
    pose proof (run_monotone cfg [invalidation] v1) as Hstep.
    pose proof (run_monotone cfg after v2).
    unfold Server.run in Hstep at 1. simpl in Hstep.
    subst v v2 v1. lia. }
  assert (Hstale : bool_decide (Some v0 = Some v) = false).
  { apply bool_decide_eq_false. intros H; inversion H; lia. }
  split; [|split].
  - unfold Server.requireAuth. rewrite Hby, Htok, verify_issued.
    change (Jwt.isEmpty (Server.issueToken cfg v0 user t0)) with false. cbv iota.
    destruct (_ <=? _); [eauto|].
    cbn [Jwt.sessionVersion]. rewrite Hstale. simpl. eauto.
  - intros Hfresh. unfold Server.requireAuth. rewrite Hby, Htok, verify_issued.
    change (Jwt.isEmpty (Server.issueToken cfg v0 user t0)) with false. cbv iota.
    destruct (Z.leb_spec (Jwt.clockTimestamp t0 + Server.SESSION_TTL_SECONDS cfg)
                (Jwt.clockTimestamp now)); [lia|].
    cbn [Jwt.sessionVersion]. now rewrite Hstale.
  - intros now' req' p. apply requireAuth_next_current.
Qed.

(** C3, at a concrete run: the administrator logs in at time 0, invalidates
    all sessions with that token half a second later, and then asks for
    [/tree] with the same token. *)
Lemma invalidateSessions_rejects_earlier_tokens_witness :
  fst (Server.login Demo.config (fun _ _ => "") "c0ffee" 1 0 (Some "admin") (Some "secret"))
  = Server.LoggedIn Demo.firstToken "c0ffee"
  /\ Server.handle Demo.config 1 Demo.invalidation = 2
  /\ fst (Server.requireAuth Demo.config 2 1000
            (Demo.requestWith "GET" "/tree" (Some Demo.firstToken)))
     = Server.Respond {| Server.status := 401;
                         Server.body := "Session has been invalidated." |}.
Proof.
  assert (Hlogin : fst (Server.login Demo.config (fun _ _ => "") "c0ffee" 1 0
                          (Some "admin") (Some "secret"))
                   = Server.LoggedIn Demo.firstToken "c0ffee") by reflexivity.
  split; [exact Hlogin|]. split; [reflexivity|].
  refine (proj1 (proj2 (invalidateSessions_rejects_earlier_tokens
            Demo.config (fun _ _ => "") "c0ffee" 1 0 (Some "admin") (Some "secret")
            Demo.firstToken "c0ffee" [] [] Demo.invalidation
            1000 (Demo.requestWith "GET" "/tree" (Some Demo.firstToken))
            Hlogin _ _ _)) _).
  - vm_compute. discriminate.
  - vm_compute. reflexivity.
  - vm_compute. reflexivity.
  - vm_compute. reflexivity.
Defined.

(** C4 (as stated, refuted).  Two failing attempts against the same server
    state, one without a token and one with a token of an earlier session
    version, are both answered 401 but with different bodies. *)
Lemma requireAuth_bodies_tell_reasons_apart :
  ~ (forall (cfg : Server.Config) (v now : Z) (req1 req2 : Server.Request)
            (r1 r2 : Server.Response),
        fst (Server.requireAuth cfg v now req1) = Server.Respond r1 ->
        fst (Server.requireAuth cfg v now req2) = Server.Respond r2 ->
        Server.body r1 = Server.body r2).
Proof.
  intros H.
  specialize (H Demo.config 2 1000
                (Demo.requestWith "GET" "/tree" None)
                (Demo.requestWith "GET" "/tree" (Some Demo.firstToken))
                {| Server.status := 401; Server.body := "Authentication required." |}
                {| Server.status := 401; Server.body := "Session has been invalidated." |}
                eq_refl eq_refl).
  discriminate H.
Qed.

(** C4 (amended).  Every answer [requireAuth] gives to a failing attempt has
    status 401 and writes no audit entry.  Its body is one of three texts:
    [Authentication required.] when no token is presented,
    [Invalid or expired token.] when verification throws (a bad signature
    and an expired token are not told apart), and
    [Session has been invalidated.] when a verified token carries another
    session version. *)
Theorem requireAuth_failure_is_401
    (cfg : Server.Config) (v now : Z) (req : Server.Request) (r : Server.Response) :
  fst (Server.requireAuth cfg v now req) = Server.Respond r ->
  Server.status r = 401
  /\ snd (Server.requireAuth cfg v now req) = []
  /\ ((Server.body r = "Authentication required."
       /\ forall t, Server.extractToken req = Some t -> Jwt.isEmpty t = true)
      \/ (Server.body r = "Invalid or expired token."
          /\ exists t e, Server.extractToken req = Some t
                         /\ Jwt.verify t (Server.SESSION_SECRET cfg) now = inl e)
      \/ (Server.body r = "Session has been invalidated."
          /\ exists t p, Server.extractToken req = Some t
                         /\ Jwt.verify t (Server.SESSION_SECRET cfg) now = inr p
                         /\ Jwt.sessionVersion p <> Some v)).
Proof.
  unfold Server.requireAuth.
  destruct (Server.bypassesAuth cfg req); [discriminate|].
  destruct (Server.extractToken req) as [tok|] eqn:Ht.
  - destruct (Jwt.isEmpty tok) eqn:He.
    + simpl. intros Hr; inversion Hr; subst; simpl.
      repeat split. left. split; [reflexivity|].
      intros t Hs; inversion Hs; now subst.
    + destruct (Jwt.verify tok (Server.SESSION_SECRET cfg) now) as [e|p] eqn:Hv.
      * simpl. intros Hr; inversion Hr; subst; simpl.
        repeat split. right; left. split; [reflexivity|]. eauto.
      * case_bool_decide as Hsv; simpl; [discriminate|].
        intros Hr; inversion Hr; subst; simpl.
        repeat split. right; right. split; [reflexivity|]. eauto.
  - simpl. intros Hr; inversion Hr; subst; simpl.
    repeat split. left. split; [reflexivity|]. intros t Hs; discriminate.
Qed.

(** C4 (amended), at a concrete request: a token signed with another key. *)
Lemma requireAuth_failure_is_401_witness :
  fst (Server.requireAuth Demo.config 1 1000 Demo.forgedRequest)
  = Server.Respond {| Server.status := 401; Server.body := "Invalid or expired token." |}
  /\ snd (Server.requireAuth Demo.config 1 1000 Demo.forgedRequest) = [].
Proof.
  assert (Hfail : fst (Server.requireAuth Demo.config 1 1000 Demo.forgedRequest)
                  = Server.Respond {| Server.status := 401;
                                      Server.body := "Invalid or expired token." |})
    by reflexivity.
  split; [exact Hfail|].
  exact (proj1 (proj2 (requireAuth_failure_is_401 Demo.config 1 1000
                         Demo.forgedRequest _ Hfail))).
Defined.

(* ===================================================================== *)
(** * Facts about shares                                                   *)
(* ===================================================================== *)

Section ShareFacts.

Variable fs : FileSystem.

Lemma verify_expired now accessToken shareId code (shares : gmap string Shares.Share) share :
  shares !! shareId = Some share ->
  Shares.expiresAt share < now ->
  JsString.truthy code = true ->
  Shares.verify fs now accessToken shareId (Some code) shares
  = (Shares.Failure 404 "Share has expired.", delete shareId shares).
Proof.
  intros Hl He Hc. unfold Shares.verify. rewrite Hc, Hl. simpl.
  now rewrite bool_decide_eq_true_2.
Qed.

Lemma verifyShareAccess_expired now shareId token (shares : gmap string Shares.Share) share :
  shares !! shareId = Some share ->
  Shares.expiresAt share < now ->
  JsString.truthy token = true ->
  Shares.verifyShareAccess now shareId (Some token) shares
  = (inl (Shares.Failure 404 "Share has expired."), delete shareId shares).
Proof.
  intros Hl He Hc. unfold Shares.verifyShareAccess. rewrite Hc, Hl. simpl.
  now rewrite bool_decide_eq_true_2.
Qed.

(** The sweep keeps a record exactly when it has not expired. *)
Lemma cleanupExpiredShares_lookup now (shares : gmap string Shares.Share) k s :
  Shares.cleanupExpiredShares now shares !! k = Some s
  <-> shares !! k = Some s /\ ~ Shares.expiresAt s < now.
Proof. unfold Shares.cleanupExpiredShares. apply map_lookup_filter_Some. Qed.

(** A verification that succeeds found a record that has not expired. *)
Lemma verify_success_not_expired now accessToken shareId code
    (shares shares' : gmap string Shares.Share) tok s :
  Shares.verify fs now accessToken shareId code shares = (Shares.Verified tok s, shares') ->
  exists share, shares !! shareId = Some share
                /\ ~ Shares.expiresAt share < now
                /\ Shares.expiresAt s = Shares.expiresAt share.
Proof.
  unfold Shares.verify. destruct code as [code|]; [|discriminate].
  destruct (negb (JsString.truthy code)); [discriminate|].
  destruct (shares !! shareId) as [share|]; [|discriminate].
  case_bool_decide as He; [discriminate|].
  destruct (negb (Shares.codeMatches code share)); [discriminate|].
  destruct (stat fs _); [|discriminate].
  intros Hv; inversion Hv; subst. exists share. repeat split; auto.
Qed.

End ShareFacts.

(** C6.  Let a share be stored whose [expiresAt] is earlier than some moment
    [now]; then at that moment and at any later one: verification, also
    with the right access code, answers 404 and removes the record; an access
    with a token (content or download) answers 404 and removes the record;
    once removed the id is unknown (404) to both; and the sweep keeps a record
    exactly when it has not expired, whatever the store. *)
Theorem expired_share_cannot_be_used
    (fs : FileSystem) (shares : gmap string Shares.Share) (shareId : string)
    (share : Shares.Share) (now later : Z) :
  shares !! shareId = Some share ->
  Shares.expiresAt share < now ->
  now <= later ->
  let gone := delete shareId shares in
  (forall accessToken code,
      JsString.truthy code = true ->
      Shares.verify fs later accessToken shareId (Some code) shares
      = (Shares.Failure 404 "Share has expired.", gone)
      /\ Shares.verify fs later accessToken shareId (Some code) gone
         = (Shares.Failure 404 "Share not found or expired.", gone))
  /\ (forall limit token queryPath,
        JsString.truthy token = true ->
        Shares.content fs limit later shareId (Some token) queryPath shares
        = (Shares.Refused (Shares.Failure 404 "Share has expired."), gone)
        /\ Shares.download fs later shareId (Some token) queryPath shares
           = (Shares.Refused (Shares.Failure 404 "Share has expired."), gone)
        /\ Shares.content fs limit later shareId (Some token) queryPath gone
           = (Shares.Refused (Shares.Failure 404 "Share not found or expired."), gone)
        /\ Shares.download fs later shareId (Some token) queryPath gone
           = (Shares.Refused (Shares.Failure 404 "Share not found or expired."), gone))
  /\ Shares.cleanupExpiredShares later shares !! shareId = None
  /\ (forall (store : gmap string Shares.Share) k s,
        Shares.cleanupExpiredShares later store !! k = Some s
        <-> store !! k = Some s /\ ~ Shares.expiresAt s < later).
Proof.
  intros Hl He Hle gone.
  assert (He' : Shares.expiresAt share < later) by lia.
  assert (Hgone : gone !! shareId = None) by apply lookup_delete_eq.
  split; [|split; [|split]].
  - intros accessToken code Hc. split.
    + now apply verify_expired with (share := share).
    + unfold Shares.verify. rewrite Hc, Hgone. reflexivity.
  - intros limit token queryPath Ht.
    pose proof (verifyShareAccess_expired later shareId token shares share Hl He' Ht) as Hx.
    assert (Hy : Shares.verifyShareAccess later shareId (Some token) gone
                 = (inl (Shares.Failure 404 "Share not found or expired."), gone)).
    { unfold Shares.verifyShareAccess. now rewrite Ht, Hgone. }
    unfold Shares.content, Shares.download. rewrite Hx, Hy. auto.
  - destruct (Shares.cleanupExpiredShares later shares !! shareId) as [s|] eqn:Hc; [|reflexivity].
    apply cleanupExpiredShares_lookup in Hc as [Hs Hn].
    rewrite Hl in Hs. inversion Hs; subst. contradiction.
  - intros store k s. apply cleanupExpiredShares_lookup.
Qed.

(** C6, at a concrete store: the share of [/data/docs] one millisecond after
    its expiry, with its own access code. *)
Lemma expired_share_cannot_be_used_witness :
  Shares.verify Demo.plainFs 3600001 "0ddba11" "a1b2c3d4e5f60718" (Some "K7QX2M")
    {[ "a1b2c3d4e5f60718" := Demo.docsShare ]}
  = (Shares.Failure 404 "Share has expired.",
     delete "a1b2c3d4e5f60718" {[ "a1b2c3d4e5f60718" := Demo.docsShare ]}).
Proof.
  refine (proj1 (proj1 (expired_share_cannot_be_used Demo.plainFs
            {[ "a1b2c3d4e5f60718" := Demo.docsShare ]} "a1b2c3d4e5f60718"
            Demo.docsShare 3600001 3600001 _ _ _) "0ddba11" "K7QX2M" _)).
  - apply lookup_singleton_eq.
  - simpl. lia.
  - lia.
  - reflexivity.
Defined.

(** The string checks of a share access do confine the path as a string: for
    a shared directory whose resolved path is absolute and normal, the answer
    is the boundary error or a path whose segments extend those of the shared
    directory and contain no [.] or [..]. *)
Lemma targetPath_lexically_confined share queryPath :
  Shares.isDirectory share = true ->
  Path.isNormalRoot (Shares.resolvedPath share) = true ->
  match Shares.targetPath share queryPath with
  | inl a => a = Shares.Failure 400 Shares.outside_message
  | inr target =>
      Path.within (Shares.resolvedPath share) target = true
      /\ forallb Path.proper (Path.segments target) = true
  end.
Proof.
  intros Hd Hr. unfold Shares.targetPath. rewrite Hd.
  set (sub := if JsString.truthy queryPath then queryPath else ".").
  destruct (JsString.startsWith (Path.normalize sub) "..") eqn:Hpre; [reflexivity|].
  destruct (negb (JsString.startsWith _ (Shares.resolvedPath share))); [reflexivity|].
  apply join_root; [assumption | apply normalize_nonempty | now apply normalize_harmless].
Qed.

(** A sub-path that normalizes to something starting with [..] is answered
    with the boundary error. *)
Lemma targetPath_dotdot_refused share queryPath :
  Shares.isDirectory share = true ->
  JsString.startsWith
    (Path.normalize (if JsString.truthy queryPath then queryPath else ".")) ".." = true ->
  Shares.targetPath share queryPath = inl (Shares.Failure 400 Shares.outside_message).
Proof. intros Hd Hp. unfold Shares.targetPath. now rewrite Hd, Hp. Qed.

Example targetPath_parent_secret :
  Shares.targetPath Demo.docsShare "../secret"
  = inl (Shares.Failure 400 Shares.outside_message).
Proof. reflexivity. Qed.

(** C5 (the code at the failing input).  The directory [/data/docs] is
    shared and contains a symbolic link [link] to [/etc/passwd].  An access
    with the sub-path [link] passes both checks, which only look at the
    string [/data/docs/link]; content and download then read that path, and
    the file really read is [/etc/passwd], outside the share and outside the
    root.  The path resolution of the authenticated routes refuses the same
    file. *)
Theorem share_access_follows_symlink_out_of_share :
  let shares : gmap string Shares.Share := {[ "a1b2c3d4e5f60718" := Demo.docsShare ]} in
  Shares.targetPath Demo.docsShare "link" = inr "/data/docs/link"
  /\ fst (Shares.content Demo.linkedFs 1048576 1000 "a1b2c3d4e5f60718"
            (Some "5ca1ab1e") "link" shares)
     = Shares.ReadsFile "/data/docs/link"
  /\ fst (Shares.download Demo.linkedFs 1000 "a1b2c3d4e5f60718"
            (Some "5ca1ab1e") "link" shares)
     = Shares.ReadsFile "/data/docs/link"
  /\ Shares.touched Demo.linkedFs (Shares.ReadsFile "/data/docs/link")
     = Some (FsOk "/etc/passwd")
  /\ Path.within (Shares.resolvedPath Demo.docsShare) "/etc/passwd" = false
  /\ Path.within "/data" "/etc/passwd" = false
  /\ Utils.resolveSafePathWithSymlinkCheck "/data" "/" Demo.linkedFs "docs/link"
     = Throw (Error Utils.escapes_symlink_message).
Proof. repeat split; vm_compute; reflexivity. Qed.

(* ===================================================================== *)
(** * Facts about access codes                                             *)
(* ===================================================================== *)

Section AccessCodeFacts.

Lemma in_allAscii a : In a JsString.allAscii.
Proof.
  unfold JsString.allAscii. rewrite <- (ascii_nat_embedding a).
  apply in_map, in_seq. pose proof (nat_ascii_bounded a). lia.
Qed.

Lemma includes_char_In s b :
  JsString.includes s (String b EmptyString) = true ->
  In b (list_ascii_of_string s).
Proof.
  induction s as [|c r IH]; [discriminate|].
  cbn [JsString.includes list_ascii_of_string].
  change (String.prefix (String b EmptyString) (String c r))
    with (if Ascii.ascii_dec b c then String.prefix EmptyString r else false).
  intros H. apply orb_prop in H as [H|H].
  - left. destruct (Ascii.ascii_dec b c); [auto|discriminate].
  - right. auto.
Qed.

(** Upper-casing the supplied character gives a code character exactly when
    the supplied one is that character in either case. *)
Lemma upper_char_matches a b :
  Shares.inAlphabet b = true ->
  Ascii.eqb (JsString.upper_char a) b
  = (Ascii.eqb a b || Ascii.eqb a (JsString.lower_char b)
     || Ascii.eqb a (JsString.upper_char b)).
Proof.
  assert (Hall : forallb (fun b => forallb (fun a =>
            Bool.eqb (Ascii.eqb (JsString.upper_char a) b)
              (Ascii.eqb a b || Ascii.eqb a (JsString.lower_char b)
               || Ascii.eqb a (JsString.upper_char b))) JsString.allAscii)
            (list_ascii_of_string Shares.chars) = true)
    by (vm_compute; reflexivity).
  intros Hb. rewrite forallb_forall in Hall.
  specialize (Hall b (includes_char_In _ _ Hb)). rewrite forallb_forall in Hall.
  specialize (Hall a (in_allAscii a)).
  now apply Bool.eqb_prop in Hall.
Qed.

(** The comparison of [verify] accepts exactly the strings whose upper-case
    form is the stored code. *)
Lemma codeMatches_toUpperCase code share :
  Shares.codeMatches code share = true
  <-> JsString.toUpperCase code = Shares.accessCode share.
Proof.
  unfold Shares.codeMatches, Utils.Buffer_from.
  rewrite negb_true_iff, orb_false_iff, !negb_false_iff, timingSafeEqual_eq.
  split.
  - intros [_ H]. now apply list_ascii_of_string_inj.
  - intros H. rewrite H. split; [apply Nat.eqb_refl | reflexivity].
Qed.

Lemma toUpperCase_caseVariant code : forall stored,
  JsString.forall_chars Shares.inAlphabet stored = true ->
  (JsString.toUpperCase code = stored <-> Shares.caseVariant code stored = true).
Proof.
  unfold JsString.toUpperCase.
  induction code as [|a code IH]; intros [|b stored] Hs; simpl; try easy.
  apply andb_prop in Hs as [Hb Hs].
  rewrite <- (upper_char_matches a b Hb), andb_true_iff, Ascii.eqb_eq, <- (IH stored Hs).
  split.
  - intros H. inversion H. subst. split; reflexivity.
  - intros [H1 H2]. now rewrite H1, H2.
Qed.

Lemma charAt_chars i :
  (i < 32)%nat ->
  exists c, JsString.charAt Shares.chars i = String c EmptyString
            /\ Shares.inAlphabet c = true.
Proof.
  intros Hi.
  assert (Hall : forallb (fun j => match JsString.charAt Shares.chars j with
                                   | String c EmptyString => Shares.inAlphabet c
                                   | _ => false
                                   end) (seq 0 32) = true)
    by (vm_compute; reflexivity).
  rewrite forallb_forall in Hall.
  specialize (Hall i ltac:(apply in_seq; lia)).
  destruct (JsString.charAt Shares.chars i) as [|c [|]]; try discriminate. eauto.
Qed.

Lemma randomIndex_lt k :
  0 <= k < Server.two53 ->
  (Shares.randomIndex k (String.length Shares.chars) < 32)%nat.
Proof.
  intros Hk. unfold Shares.randomIndex.
  change (String.length Shares.chars) with 32%nat.
  change (Z.of_nat 32) with 32.
  assert (0 <= k * 32 / Server.two53 < 32).
  { unfold Server.two53 in *. split.
    - apply Z.div_pos; lia.
    - apply Z.div_lt_upper_bound; lia. }
  lia.
Qed.

(** A generated access code has six characters, all from the alphabet. *)
Lemma generateAccessCode_alphabet random :
  (forall i, 0 <= random i < Server.two53) ->
  String.length (Shares.generateAccessCode random) = 6%nat
  /\ JsString.forall_chars Shares.inAlphabet (Shares.generateAccessCode random) = true.
Proof.
  intros Hr. unfold Shares.generateAccessCode.
  change (seq 0 6) with [0; 1; 2; 3; 4; 5]%nat. cbn [fold_left].
  destruct (charAt_chars _ (randomIndex_lt _ (Hr 0%nat))) as (c0 & -> & H0).
  destruct (charAt_chars _ (randomIndex_lt _ (Hr 1%nat))) as (c1 & -> & H1).
  destruct (charAt_chars _ (randomIndex_lt _ (Hr 2%nat))) as (c2 & -> & H2).
  destruct (charAt_chars _ (randomIndex_lt _ (Hr 3%nat))) as (c3 & -> & H3).
  destruct (charAt_chars _ (randomIndex_lt _ (Hr 4%nat))) as (c4 & -> & H4).
  destruct (charAt_chars _ (randomIndex_lt _ (Hr 5%nat))) as (c5 & -> & H5).
  simpl. now rewrite H0, H1, H2, H3, H4, H5.
Qed.

End AccessCodeFacts.

Lemma caseVariant_refl s : Shares.caseVariant s s = true.
Proof. induction s as [|a s IH]; simpl; [reflexivity|]. now rewrite Ascii.eqb_refl, IH. Qed.

Lemma caseVariant_toLowerCase s : Shares.caseVariant (JsString.toLowerCase s) s = true.
Proof.
  unfold JsString.toLowerCase. induction s as [|a s IH]; simpl; [reflexivity|].
  rewrite Ascii.eqb_refl, IH. now rewrite orb_true_r.
Qed.

(** A share that is created is stored under its id with a generated access
    code, a resolved path that passed the root check, and an expiry between
    one hour and seven days ahead. *)
Lemma create_stores_share root cwd fs now shareId random targetPath hours
    (shares shares' : gmap string Shares.Share) share expiry :
  Shares.create root cwd fs now shareId random targetPath hours shares
  = (Shares.Created share expiry, shares') ->
  shares' !! shareId = Some share
  /\ Shares.accessCode share = Shares.generateAccessCode random
  /\ Utils.resolveSafePathWithSymlinkCheck root cwd fs targetPath
     = Return (Shares.resolvedPath share)
  /\ Shares.expiresAt share = now + expiry * 3600000
  /\ 1 <= expiry <= 168.
Proof.
  unfold Shares.create.
  destruct (negb (JsString.truthy targetPath)); [discriminate|].
  destruct (Utils.resolveSafePathWithSymlinkCheck root cwd fs targetPath)
    as [resolved|]; [|discriminate].
  destruct (stat fs resolved) as [stats|]; [|discriminate].
  intros H. inversion H; subst; clear H. simpl.
  split; [apply lookup_insert_eq|]. repeat split; try lia;
    unfold Shares.clampExpiry, Shares.MAX_SHARE_EXPIRY_HOURS; lia.
Qed.


Lemma draws_bounded i : 0 <= Demo.draws i < Server.two53.
Proof.
  unfold Demo.draws, Server.two53.
  do 6 (destruct i as [|i]; [simpl; lia|]). destruct i; simpl; lia.
Qed.


(* ===================================================================== *)
(** * Facts about the search                                               *)
(* ===================================================================== *)

Section SearchFacts.

Variable root : string.
Variable mimeLookup : string -> option string.
Variable clock : nat -> Z.
Variable query : string.
Variable maxResults startTime timeout : Z.

Abbreviation full := (Search.full maxResults).
Abbreviation expired := (Search.expired clock startTime timeout).
Abbreviation filesLoop :=
  (Search.filesLoop root mimeLookup clock query maxResults startTime timeout).
Abbreviation directoriesLoop :=
  (Search.directoriesLoop root mimeLookup clock query maxResults startTime timeout).
Abbreviation searchDirectory :=
  (Search.searchDirectory root mimeLookup clock query maxResults startTime timeout).

(** The body of [searchDirectory] on a readable directory. *)
Lemma searchDirectory_Listing dirPath dirents s :
  searchDirectory dirPath (Search.Listing dirents) s
  = if full s then s
    else if expired s then Search.setTimedOut (Search.tick s)
    else directoriesLoop dirPath dirents
           (filesLoop dirPath (List.filter Search.isFile dirents) (Search.tick s)).
Proof. reflexivity. Qed.

Lemma searchDirectory_Unreadable dirPath code s :
  searchDirectory dirPath (Search.Unreadable code) s
  = if full s then s
    else if expired s then Search.setTimedOut (Search.tick s)
    else Search.tick s.
Proof. reflexivity. Qed.

(** The first stopping condition, at the entry of a directory and at every
    file and directory of the two loops: nothing more is done. *)
Lemma searchDirectory_full dirPath dir s :
  full s = true -> searchDirectory dirPath dir s = s.
Proof. intros H. destruct dir; simpl; now rewrite H. Qed.

Lemma filesLoop_full dirPath d rest s :
  full s = true -> filesLoop dirPath (d :: rest) s = s.
Proof. intros H. simpl. now rewrite H. Qed.

Lemma directoriesLoop_full dirPath n st sub rest s :
  full s = true -> directoriesLoop dirPath (Search.DirEnt n st sub :: rest) s = s.
Proof. intros H. simpl. now rewrite H. Qed.

(** The second stopping condition, at the same places: the flag is set and
    nothing more is done. *)
Lemma searchDirectory_expired dirPath dir s :
  full s = false -> expired s = true ->
  searchDirectory dirPath dir s = Search.setTimedOut (Search.tick s).
Proof. intros H1 H2. destruct dir; simpl; now rewrite H1, H2. Qed.

Lemma filesLoop_expired dirPath d rest s :
  full s = false -> expired s = true ->
  filesLoop dirPath (d :: rest) s = Search.setTimedOut (Search.tick s).
Proof. intros H1 H2. simpl. now rewrite H1, H2. Qed.

Lemma directoriesLoop_expired dirPath n st sub rest s :
  full s = false -> expired s = true ->
  directoriesLoop dirPath (Search.DirEnt n st sub :: rest) s
  = Search.setTimedOut (Search.tick s).
Proof. intros H1 H2. simpl. now rewrite H1, H2. Qed.

(** ** Invariants of the traversal *)

Section Invariant.

Variable Inv : Search.SearchState -> Prop.
Hypothesis Inv_tick :
  forall s, Inv s -> full s = false -> expired s = false -> Inv (Search.tick s).
Hypothesis Inv_timedOut :
  forall s, Inv s -> full s = false -> expired s = true ->
            Inv (Search.setTimedOut (Search.tick s)).
Hypothesis Inv_push :
  forall e s, Inv s -> full s = false -> expired s = false ->
              Inv (Search.push e (Search.tick s)).

Lemma filesLoop_invariant dirPath files :
  forall s, Inv s -> Inv (filesLoop dirPath files s).
Proof.
  induction files as [|d rest IH]; intros s Hs; simpl; [assumption|].
  destruct (full s) eqn:Hf; [assumption|].
  destruct (expired s) eqn:He; [now apply Inv_timedOut|].
  destruct d as [n st|n st sub].
  - destruct (Search.matches query n); [|now apply IH, Inv_tick].
    destruct st; apply IH; [now apply Inv_push | now apply Inv_tick].
  - now apply IH, Inv_tick.
Qed.

Lemma searchDirectory_invariant dir :
  forall dirPath s, Inv s -> Inv (searchDirectory dirPath dir s).
Proof.
  induction dir as [code|dirents IH] using Search.Directory_tree_ind;
    intros dirPath s Hs.
  - rewrite searchDirectory_Unreadable.
    destruct (full s) eqn:Hf; [assumption|].
    destruct (expired s) eqn:He; [now apply Inv_timedOut | now apply Inv_tick].
  - rewrite searchDirectory_Listing.
    destruct (full s) eqn:Hf; [assumption|].
    destruct (expired s) eqn:He; [now apply Inv_timedOut|].
    assert (Hfiles : Inv (filesLoop dirPath (List.filter Search.isFile dirents)
                            (Search.tick s)))
      by now apply filesLoop_invariant, Inv_tick.
    revert Hfiles. generalize (filesLoop dirPath (List.filter Search.isFile dirents)
                                 (Search.tick s)).
    clear Hs Hf He s.
    induction IH as [|d rest Hd _ IHrest]; intros s Hs; simpl; [assumption|].
    destruct d as [n st|n st sub]; [now apply IHrest|].
    destruct (full s) eqn:Hf; [assumption|].
    destruct (expired s) eqn:He; [now apply Inv_timedOut|].
    apply IHrest, Hd.
    destruct (Search.matches query n); [|now apply Inv_tick].
    destruct st; [now apply Inv_push | now apply Inv_tick].
Qed.

End Invariant.

(** The array never grows beyond the limit. *)
Lemma searchDirectory_bounded dirPath dir s :
  Search.bounded maxResults s ->
  Search.bounded maxResults (searchDirectory dirPath dir s).
Proof.
  apply searchDirectory_invariant; unfold Search.bounded; try easy.
  intros e s0 Hs Hf _. unfold Search.full in Hf. simpl.
  rewrite length_app. simpl. apply Z.leb_gt in Hf. lia.
Qed.

(** Once every later reading of the clock is past the timeout, nothing is
    added any more. *)
Lemma searchDirectory_late dirPath dir s :
  Search.late clock startTime timeout s ->
  Search.results (searchDirectory dirPath dir s) = Search.results s.
Proof.
  intros Hl.
  apply (searchDirectory_invariant
           (fun s' => Search.results s' = Search.results s
                      /\ Search.late clock startTime timeout s')); [| | |easy].
  - intros s0 [_ Hl0] _ He. exfalso. unfold Search.expired in He.
    apply Z.ltb_ge in He. specialize (Hl0 (Search.ticks s0)). lia.
  - intros s0 [Hr Hl0] _ _. split; [exact Hr|].
    intros k Hk. apply Hl0. simpl in Hk. lia.
  - intros e s0 [_ Hl0] _ He. exfalso. unfold Search.expired in He.
    apply Z.ltb_ge in He. specialize (Hl0 (Search.ticks s0)). lia.
Qed.

End SearchFacts.

Section SearchInTime.

Variable root : string.
Variable mimeLookup : string -> option string.
Variable clock : nat -> Z.
Variable query : string.
Variable maxResults startTime timeout : Z.

Abbreviation full' := (Search.full maxResults).
Abbreviation expired' := (Search.expired clock startTime timeout).
Abbreviation filesLoop' :=
  (Search.filesLoop root mimeLookup clock query maxResults startTime timeout).
Abbreviation directoriesLoop' :=
  (Search.directoriesLoop root mimeLookup clock query maxResults startTime timeout).
Abbreviation searchDirectory' :=
  (Search.searchDirectory root mimeLookup clock query maxResults startTime timeout).

(** No reading of the clock is past the timeout. *)
Hypothesis in_time : forall k, clock k - startTime <= timeout.

Abbreviation collects := (Search.collects maxResults).

Lemma expired_in_time s : expired' s = false.
Proof. unfold Search.expired. apply Z.ltb_ge, in_time. Qed.

Lemma full_spec s :
  (length (Search.results s) <= Z.to_nat maxResults)%nat ->
  (full' s = true -> length (Search.results s) = Z.to_nat maxResults)
  /\ (full' s = false -> (length (Search.results s) < Z.to_nat maxResults)%nat).
Proof.
  intros Hs. unfold Search.full. split; intros H.
  - apply Z.leb_le in H. lia.
  - apply Z.leb_gt in H. lia.
Qed.

Lemma countFiles_filter dirents :
  Search.countFiles query (List.filter Search.isFile dirents)
  = Search.countFiles query dirents.
Proof.
  unfold Search.countFiles. induction dirents as [|[n st|n st sub] rest IH]; simpl; auto.
  destruct (Search.reported query n st); simpl; auto.
Qed.

Lemma filesLoop_collects dirPath files :
  forall s, (length (Search.results s) <= Z.to_nat maxResults)%nat ->
            collects s (filesLoop' dirPath files s) (Search.countFiles query files).
Proof.
  unfold Search.collects, Search.countFiles.
  induction files as [|d rest IH]; intros s Hs; simpl.
  - split; [lia|reflexivity].
  - destruct (full_spec s Hs) as [Hfull Hroom].
    destruct (full' s) eqn:Hf; [split; [specialize (Hfull eq_refl); lia | reflexivity]|].
    specialize (Hroom eq_refl). rewrite expired_in_time.
    destruct d as [n st|n st sub].
    + assert (Hrep : Search.reported query n st
                     = Search.matches query n
                       && match st with FsOk _ => true | FsErr _ => false end)
        by reflexivity.
      destruct (Search.matches query n); [destruct st as [stats|code]|];
        simpl in Hrep; simpl; rewrite Hrep; simpl.
      * destruct (IH (Search.push (Search.fileEntry root mimeLookup dirPath n stats)
                        (Search.tick s))) as [Hl Ht].
        { simpl. rewrite length_app. simpl. lia. }
        rewrite Hl, Ht. simpl. rewrite length_app. simpl. split; [lia|reflexivity].
      * destruct (IH (Search.tick s)) as [Hl Ht]; [simpl; lia|].
        rewrite Hl, Ht. simpl. split; [lia|reflexivity].
      * destruct (IH (Search.tick s)) as [Hl Ht]; [simpl; lia|].
        rewrite Hl, Ht. simpl. split; [lia|reflexivity].
    + destruct (IH (Search.tick s)) as [Hl Ht]; [simpl; lia|].
      rewrite Hl, Ht. simpl. split; [lia|reflexivity].
Qed.

Lemma countMatches_Listing dirents :
  Search.countMatches query (Search.Listing dirents)
  = (Search.countFiles query dirents + Search.countDirectories query dirents)%nat.
Proof. reflexivity. Qed.

Lemma searchDirectory_collects dir :
  forall dirPath s,
    (length (Search.results s) <= Z.to_nat maxResults)%nat ->
    collects s (searchDirectory' dirPath dir s) (Search.countMatches query dir).
Proof.
  induction dir as [code|dirents IH] using Search.Directory_tree_ind;
    intros dirPath s Hs; destruct (full_spec s Hs) as [Hfull Hroom].
  - rewrite searchDirectory_Unreadable. unfold Search.collects. simpl.
    destruct (full' s); [split; [specialize (Hfull eq_refl); lia | reflexivity]|].
    rewrite expired_in_time. simpl. split; [specialize (Hroom eq_refl); lia|reflexivity].
  - rewrite searchDirectory_Listing, countMatches_Listing.
    destruct (full' s); [split; [specialize (Hfull eq_refl); lia | reflexivity]|].
    rewrite expired_in_time. clear Hfull Hroom.
    destruct (filesLoop_collects dirPath (List.filter Search.isFile dirents) (Search.tick s))
      as [Hl Ht]; [simpl; lia|].
    rewrite countFiles_filter in Hl. simpl in Hl, Ht.
    assert (Hdirs : forall s0,
      (length (Search.results s0) <= Z.to_nat maxResults)%nat ->
      collects s0 (directoriesLoop' dirPath dirents s0)
        (Search.countDirectories query dirents)).
    { clear Hl Ht Hs s.
      induction IH as [|d rest Hd _ IHrest]; intros s Hs; simpl.
      - split; [lia|reflexivity].
      - destruct d as [n st|n st sub]; [now apply IHrest|].
        destruct (full_spec s Hs) as [Hfull Hroom].
        destruct (full' s); [split; [specialize (Hfull eq_refl); lia | reflexivity]|].
        specialize (Hroom eq_refl). rewrite expired_in_time.
        set (s1 := if Search.matches query n
                   then match st with
                        | FsOk stats =>
                            Search.push (Search.dirEntry root dirPath n stats) (Search.tick s)
                        | FsErr _ => Search.tick s
                        end
                   else Search.tick s).
        assert (H1 : length (Search.results s1)
                     = (length (Search.results s)
                        + (if Search.reported query n st then 1 else 0))%nat
                     /\ Search.timedOut s1 = Search.timedOut s).
        { subst s1. unfold Search.reported.
          destruct (Search.matches query n); [|simpl; split; [lia|reflexivity]].
          destruct st; simpl; [rewrite length_app; simpl|]; split; solve [lia|reflexivity]. }
        destruct H1 as [H1l H1t].
        assert (Hs1 : (length (Search.results s1) <= Z.to_nat maxResults)%nat).
        { rewrite H1l. destruct (Search.reported query n st); lia. }
        destruct (Hd (Path.join [dirPath; n]) s1 Hs1) as [H2l H2t].
        destruct (IHrest (searchDirectory' (Path.join [dirPath; n]) sub s1)) as [H3l H3t];
          [rewrite H2l; lia|].
        split; [rewrite H3l, H2l, H1l; lia | now rewrite H3t, H2t]. }
    destruct (Hdirs (filesLoop' dirPath (List.filter Search.isFile dirents) (Search.tick s)))
      as [H4l H4t]; [rewrite Hl; lia|].
    split; [rewrite H4l, Hl; lia | now rewrite H4t, Ht].
Qed.

End SearchInTime.

Lemma insertSorted_length cmp e l :
  length (Search.insertSorted cmp e l) = S (length l).
Proof.
  induction l as [|x r IH]; simpl; [reflexivity|].
  destruct (0 <? cmp e x); simpl; now rewrite ?IH.
Qed.

(** Sorting keeps the number of results. *)
Lemma sort_length cmp l : length (Search.sort cmp l) = length l.
Proof.
  unfold Search.sort. induction l as [|x r IH]; simpl; [reflexivity|].
  now rewrite insertSorted_length, IH.
Qed.

Lemma clampLimit_le limit : Search.clampLimit limit <= 500.
Proof. unfold Search.clampLimit. lia. Qed.

Lemma clampTimeout_le timeout : Search.clampTimeout timeout <= 30000.
Proof. unfold Search.clampTimeout. lia. Qed.

(** C7 (as stated, refuted).  A request with [limit=-5] is clamped to the
    limit -5; the search answers with an empty list marked truncated, and an
    empty list has more than -5 entries. *)
Lemma search_negative_limit_exceeded :
  Search.clampLimit (Some "-5") = -5
  /\ exists f,
       Search.search "/data" "/" Demo.plainFs (fun _ => Demo.smallTree)
         (fun _ => None) Demo.localeCompare (fun _ => 0)
         (Demo.searchFor "txt" "-5" "1000")
       = Search.Success f
       /\ Search.r_results f = []
       /\ Search.r_truncated f = true
       /\ ~ (Z.of_nat (length (Search.r_results f)) <= Search.clampLimit (Some "-5")).
Proof.
  split; [reflexivity|].
  eexists. split; [vm_compute; reflexivity|].
  simpl. repeat split. vm_compute. intros H. apply H. reflexivity.
Qed.

(** C7 (amended).  Whatever the client asks for, the limit used is at most
    500 and the timeout at most 30000 ms.  The list a search returns never has
    more entries than the clamped limit, or than zero when that limit is
    negative, and it is marked truncated exactly when its length has reached
    the limit; when the clock is past the timeout from the first check on, the
    list is empty and marked timed out.  At the entry of every directory and at every file and
    directory of the two loops both conditions are checked: when the array has
    reached the limit nothing more is done, and otherwise, when the elapsed
    time exceeds the timeout, [timedOut] is set and nothing more is done. *)
Theorem search_respects_limit_and_timeout
    (root cwd : string) (fs : FileSystem) (tree : string -> Search.Directory)
    (mimeLookup : string -> option string) (localeCompare : string -> string -> Z)
    (clock : nat -> Z) (req : Search.Query) :
  let limit := Search.clampLimit (Search.limit req) in
  let timeout := Search.clampTimeout (Search.timeoutParam req) in
  let full := Search.full limit in
  let expired := Search.expired clock (clock 0%nat) timeout in
  limit <= 500
  /\ timeout <= 30000
  /\ (forall f,
        Search.search root cwd fs tree mimeLookup localeCompare clock req
        = Search.Success f ->
        Z.of_nat (length (Search.r_results f)) <= Z.max 0 limit
        /\ Search.r_resultCount f = Z.of_nat (length (Search.r_results f))
        /\ Search.r_truncated f = (limit <=? Z.of_nat (length (Search.r_results f)))
        /\ (0 < limit ->
            (forall k, (1 <= k)%nat -> timeout < clock k - clock 0%nat) ->
            Search.r_results f = [] /\ Search.r_timedOut f = true))
  /\ (forall query dirPath dir d rest n st sub s,
        let searchDirectory :=
          Search.searchDirectory root mimeLookup clock query limit (clock 0%nat) timeout in
        let filesLoop :=
          Search.filesLoop root mimeLookup clock query limit (clock 0%nat) timeout in
        let directoriesLoop :=
          Search.directoriesLoop root mimeLookup clock query limit (clock 0%nat) timeout in
        (full s = true ->
         searchDirectory dirPath dir s = s
         /\ filesLoop dirPath (d :: rest) s = s
         /\ directoriesLoop dirPath (Search.DirEnt n st sub :: rest) s = s)
        /\ (full s = false -> expired s = true ->
            searchDirectory dirPath dir s = Search.setTimedOut (Search.tick s)
            /\ filesLoop dirPath (d :: rest) s = Search.setTimedOut (Search.tick s)
            /\ directoriesLoop dirPath (Search.DirEnt n st sub :: rest) s
               = Search.setTimedOut (Search.tick s))).
Proof.
  intros limit timeout full expired.
  split; [apply clampLimit_le|]. split; [apply clampTimeout_le|]. split.
  - intros f. unfold Search.search.
    destruct (_ || _); [discriminate|].
    destruct (Utils.resolveSafePathWithSymlinkCheck _ _ _ _) as [target|]; [|discriminate].
    destruct (stat fs target) as [stats|]; [|discriminate].
    destruct (negb (st_isDirectory stats)); [discriminate|].
    intros Hf. inversion Hf; subst f; clear Hf. simpl.
    rewrite sort_length. split; [|split; [|split]]; try reflexivity.
    + apply searchDirectory_bounded. unfold Search.bounded. simpl. lia.
    + intros Hpos Hlate.
      rewrite searchDirectory_expired.
      * split; reflexivity.
      * unfold Search.full. simpl. now apply Z.leb_gt.
      * unfold Search.expired. simpl. apply Z.ltb_lt, Hlate. lia.
  - intros query dirPath dir d rest n st sub s. cbv zeta. split.
    + intros Hf. split; [|split].
      * now apply searchDirectory_full.
      * now apply filesLoop_full.
      * now apply directoriesLoop_full.
    + intros Hf He. split; [|split].
      * now apply searchDirectory_expired.
      * now apply filesLoop_expired.
      * now apply directoriesLoop_expired.
Qed.




(* ===================================================================== *)
(** * Passwords, comparisons and the sampling of file contents          *)
(* ===================================================================== *)

Lemma eqb_of_iff (b : bool) s t : (b = true <-> s = t) -> b = String.eqb s t.
Proof.
  intros H. destruct (String.eqb_spec s t) as [E|E].
  - now apply H.
  - destruct b; [|reflexivity]. exfalso. now apply E, H.
Qed.


Lemma forall_chars_impl (f g : ascii -> bool) s :
  (forall c, f c = true -> g c = true) ->
  JsString.forall_chars f s = true -> JsString.forall_chars g s = true.
Proof.
  intros Hfg. induction s as [|c r IH]; simpl; [easy|].
  intros [Hc Hr]%andb_true_iff. now rewrite (Hfg c Hc), IH.
Qed.

Lemma isHex_noColon s :
  Utils.isHex s = true ->
  JsString.forall_chars (fun c => negb (Ascii.eqb c ":"%char)) s = true.
Proof.
  apply forall_chars_impl. intros c Hc.
  destruct (Ascii.eqb_spec c ":"%char) as [->|]; [discriminate Hc|reflexivity].
Qed.

Lemma splitOn_noSep sep s :
  JsString.forall_chars (fun c => negb (Ascii.eqb c sep)) s = true ->
  Utils.splitOn sep s = [s].
Proof.
  induction s as [|c r IH]; simpl; [reflexivity|].
  intros [Hc Hr]%andb_true_iff. apply negb_true_iff in Hc. rewrite Hc, (IH Hr). reflexivity.
Qed.

Lemma splitOn_append sep s t :
  JsString.forall_chars (fun c => negb (Ascii.eqb c sep)) s = true ->
  Utils.splitOn sep (String.append s (String sep t)) = s :: Utils.splitOn sep t.
Proof.
  induction s as [|c r IH]; simpl.
  - intros _. now rewrite Ascii.eqb_refl.
  - intros [Hc Hr]%andb_true_iff. apply negb_true_iff in Hc. rewrite Hc, (IH Hr). reflexivity.
Qed.

Lemma hexDigit_is_hex b :
  Utils.is_hex (Utils.hexDigit (nat_of_ascii b / 16)) = true
  /\ Utils.is_hex (Utils.hexDigit (nat_of_ascii b mod 16)) = true.
Proof.
  assert (H : forallb (fun b => Utils.is_hex (Utils.hexDigit (nat_of_ascii b / 16))
                                && Utils.is_hex (Utils.hexDigit (nat_of_ascii b mod 16)))
                JsString.allAscii = true) by (vm_compute; reflexivity).
  rewrite forallb_forall in H. apply andb_true_iff, H, in_allAscii.
Qed.

Lemma isHex_toHex buf : Utils.isHex (Utils.toHex buf) = true.
Proof.
  induction buf as [|b r IH]; [reflexivity|].
  destruct (hexDigit_is_hex b) as [H1 H2].
  unfold Utils.isHex in *. cbn [Utils.toHex JsString.forall_chars].
  now rewrite H1, H2, IH.
Qed.

(** X2.  Round trip of [hashPassword] and [verifyPassword].  When the
    key-derivation function delivers hexadecimal text, a stored value made by
    [hashPassword] from a password is split back into the same salt and hash:
    an attempt verifies exactly when its derived key equals that of the
    password, and the password itself always verifies. *)
Theorem verifyPassword_hashPassword
    (scrypt : string -> string -> string) (saltBytes : list ascii)
    (password attempt : string) :
  (forall p s, Utils.isHex (scrypt p s) = true) ->
  let salt := Utils.toHex saltBytes in
  Utils.verifyPassword scrypt attempt (Utils.hashPassword scrypt saltBytes password)
  = Return (String.eqb (scrypt attempt salt) (scrypt password salt))
  /\ Utils.verifyPassword scrypt password (Utils.hashPassword scrypt saltBytes password)
     = Return true.
Proof.
  intros Hhex salt.
  assert (Hgen : forall a,
    Utils.verifyPassword scrypt a (Utils.hashPassword scrypt saltBytes password)
    = Return (String.eqb (scrypt a salt) (scrypt password salt))).
  { intros a. unfold Utils.verifyPassword, Utils.hashPassword. fold salt.
    assert (Hpre : JsString.startsWith
              (String.append "scrypt:" (String.append salt (String.append ":" (scrypt password salt))))
              "scrypt:" = true).
    { unfold JsString.startsWith. simpl.
      destruct (String.append salt _); reflexivity. }
    rewrite Hpre.
    change (String.append "scrypt:" ?x) with (String.append "scrypt" (String ":"%char x)).
    rewrite splitOn_append by reflexivity.
    change (String.append ":" ?x) with (String ":"%char x).
    rewrite splitOn_append by (apply isHex_noColon, isHex_toHex).
    rewrite splitOn_noSep by (apply isHex_noColon, Hhex).
    f_equal. apply eqb_of_iff, safeCompare_eq. }
  split; [apply Hgen|]. rewrite Hgen. now rewrite String.eqb_refl.
Qed.

(** X2 with two salt bytes and a stand-in for the key derivation that encodes
    password and salt in hexadecimal. *)
Lemma verifyPassword_hashPassword_witness :
  let scrypt := fun p s => Utils.toHex (list_ascii_of_string (String.append p s)) in
  Utils.verifyPassword scrypt "guess" (Utils.hashPassword scrypt ["*"%char; "!"%char] "secret")
  = Return false
  /\ Utils.verifyPassword scrypt "secret" (Utils.hashPassword scrypt ["*"%char; "!"%char] "secret")
     = Return true.
Proof.
  exact (verifyPassword_hashPassword
           (fun p s => Utils.toHex (list_ascii_of_string (String.append p s)))
           ["*"%char; "!"%char] "secret" "guess"
           (fun p s => isHex_toHex (list_ascii_of_string (String.append p s)))).
Defined.



Lemma isLikelyBinaryFrom_spec buffer steps : forall i,
  Utils.isLikelyBinaryFrom buffer i steps = true
  <-> exists j, (i <= j < i + steps)%nat /\ nth_error buffer j = Some zero.
Proof.
  induction steps as [|k IH]; intros i; simpl.
  - split; [discriminate|]. intros (j & Hj & _). lia.
  - destruct (nth_error buffer i) as [c|] eqn:Hi.
    + destruct (Ascii.eqb_spec c zero) as [->|Hc].
      * split; [|reflexivity]. intros _. exists i. split; [lia|assumption].
      * rewrite IH. split; intros (j & Hj & Hz).
        -- exists j. split; [lia|assumption].
        -- exists j. split; [|assumption].
           destruct (Nat.eq_dec j i) as [->|]; [congruence|lia].
    + rewrite IH. split; intros (j & Hj & Hz).
      * exists j. split; [lia|assumption].
      * exists j. split; [|assumption].
        destruct (Nat.eq_dec j i) as [->|]; [congruence|lia].
Qed.

(** X4.  [isLikelyBinary] answers [true] exactly when one of the first 512
    bytes of the buffer is zero; a zero byte at index 512 or later is not
    seen, and an empty buffer is not binary. *)
Theorem isLikelyBinary_iff buffer :
  Utils.isLikelyBinary buffer = true
  <-> exists i, (i < 512)%nat /\ nth_error buffer i = Some zero.
Proof.
  unfold Utils.isLikelyBinary. rewrite isLikelyBinaryFrom_spec. split.
  - intros (j & Hj & Hz). exists j. split; [lia|assumption].
  - intros (j & Hj & Hz). exists j. split; [|assumption].
    assert (j < length buffer)%nat by (apply nth_error_Some; congruence). lia.
Qed.

Lemma prefix_cons_neq a b s t :
  a <> b -> String.prefix (String a s) (String b t) = false.
Proof. intros H. simpl. destruct (ascii_dec a b); [contradiction|reflexivity]. Qed.

(** X5.  No MIME type is both an image type for [isImageMime] and a text type
    for [isTextMime]. *)
Theorem isImageMime_not_isTextMime mimeType :
  Utils.isImageMime mimeType && Utils.isTextMime mimeType = false.
Proof.
  destruct mimeType as [m|]; [|reflexivity].
  unfold Utils.isImageMime, Utils.isTextMime, JsString.startsWith.
  destruct m as [|c r]; [reflexivity|].
  change (JsString.truthy (String c r)) with true. cbn [negb andb].
  destruct (ascii_dec "i"%char c) as [<-|Hc].
  - rewrite (prefix_cons_neq "t"%char "i"%char) by discriminate.
    change (String.eqb (String "i" r) "application/json") with false.
    change (String.eqb (String "i" r) "application/javascript") with false.
    change (String.eqb (String "i" r) "application/xml") with false.
    apply andb_false_r.
  - rewrite (prefix_cons_neq "i"%char c) by assumption. reflexivity.
Qed.

(* ===================================================================== *)
(** * Resolution of paths below the root                                *)
(* ===================================================================== *)

Lemma prefix_refl s : String.prefix s s = true.
Proof.
  induction s as [|c r IH]; [reflexivity|]. simpl.
  destruct (ascii_dec c c); [assumption|congruence].
Qed.

Lemma prefix_append s t : String.prefix s (String.append s t) = true.
Proof.
  induction s as [|c r IH]; [destruct t; reflexivity|]. simpl.
  destruct (ascii_dec c c); [assumption|congruence].
Qed.

Lemma append_assoc' a b c :
  String.append (String.append a b) c = String.append a (String.append b c).
Proof.
  induction a as [|x a IH]; [reflexivity|]. rewrite !append_cons. now rewrite IH.
Qed.

Lemma concat_cons2 x y l :
  String.concat "/" (x :: y :: l)
  = String.append x (String Path.slash (String.concat "/" (y :: l))).
Proof. reflexivity. Qed.

Lemma concat_app_sep l r :
  l <> [] -> r <> [] ->
  String.concat "/" (l ++ r)
  = String.append (String.concat "/" l) (String Path.slash (String.concat "/" r)).
Proof.
  intros Hl Hr. induction l as [|x l IH]; [congruence|].
  destruct l as [|y l].
  - destruct r as [|z r]; [congruence|]. reflexivity.
  - change ((x :: y :: l) ++ r) with (x :: y :: (l ++ r)).
    rewrite !concat_cons2.
    change (y :: (l ++ r)) with ((y :: l) ++ r).
    rewrite IH by discriminate.
    rewrite append_assoc'. rewrite append_cons. reflexivity.
Qed.

Lemma concat_app_prefix l r :
  String.prefix (String.concat "/" l) (String.concat "/" (l ++ r)) = true.
Proof.
  destruct l as [|x l]; [destruct (String.concat "/" ([] ++ r)); reflexivity|].
  destruct r as [|y r]; [rewrite app_nil_r; apply prefix_refl|].
  rewrite concat_app_sep by discriminate. apply prefix_append.
Qed.

Lemma startsWith_resolved l r :
  JsString.startsWith (String Path.slash (String.concat "/" (l ++ r)))
    (String Path.slash (String.concat "/" l)) = true.
Proof.
  unfold JsString.startsWith. cbn [String.prefix].
  destruct (ascii_dec Path.slash Path.slash); [|congruence].
  apply concat_app_prefix.
Qed.

Lemma isResolved_inv p :
  Path.isResolved p = true ->
  forallb Path.proper (Path.segments p) = true
  /\ p = String Path.slash (String.concat "/" (Path.segments p)).
Proof.
  unfold Path.isResolved. intros [H1 H2]%andb_true_iff.
  now apply String.eqb_eq in H2.
Qed.

Lemma segments_resolved l :
  forallb Path.proper l = true ->
  Path.segments (String Path.slash (String.concat "/" l)) = l.
Proof.
  intros Hl. rewrite segments_cons_slash.
  destruct l as [|x l]; [reflexivity|]. now apply segments_concat.
Qed.

Lemma isResolved_concat l :
  forallb Path.proper l = true ->
  Path.isResolved (String Path.slash (String.concat "/" l)) = true.
Proof.
  intros Hl. unfold Path.isResolved. rewrite (segments_resolved l Hl), Hl.
  apply String.eqb_refl.
Qed.

Lemma split_resolved l :
  forallb Path.proper l = true ->
  forallb Path.harmless (Path.split (String Path.slash (String.concat "/" l))) = true
  /\ List.filter Path.proper (Path.split (String Path.slash (String.concat "/" l))) = l.
Proof.
  intros Hl. rewrite split_cons_slash.
  destruct l as [|x l]; [split; reflexivity|].
  rewrite split_concat by (auto using proper_noSlash; discriminate).
  generalize dependent (x :: l). clear. intros xl Hl.
  cbn [forallb List.filter]. change (Path.harmless "") with true.
  change (Path.proper "") with false. cbn [andb]. split; [now apply proper_harmless|].
  induction xl as [|y r IH]; [reflexivity|].
  cbn [forallb] in Hl. apply andb_prop in Hl as [Hy Hr]. cbn [List.filter].
  now rewrite Hy, IH.
Qed.

Lemma stackOk_hd allow res :
  Path.stackOk allow res = true ->
  forallb (fun s => Path.proper s || Path.isDotDot s) res = true.
Proof.
  induction res as [|x r IH]; [reflexivity|]. cbn [Path.stackOk forallb].
  destruct (Path.isDotDot x) eqn:E.
  - intros [_ H]%andb_true_iff. rewrite orb_true_r. cbn [andb].
    clear -H. induction r as [|y r IH]; [reflexivity|]. cbn [forallb] in *.
    apply andb_prop in H as [Hy Hr]. now rewrite Hy, orb_true_r, IH.
  - intros [Hx Hr]%andb_true_iff. now rewrite Hx, IH.
Qed.

Lemma concat_not_absolute x rest t :
  Path.proper x || Path.isDotDot x = true ->
  Path.isAbsolute (String.append (String.concat "/" (x :: rest)) t) = false.
Proof.
  intros Hx.
  assert (Hc : exists c r, x = String c r /\ c <> Path.slash).
  { apply orb_true_iff in Hx as [Hx|Hx].
    - apply proper_inv in Hx as (Hns & Hne & _).
      destruct x as [|c r]; [discriminate Hne|]. exists c, r. split; [reflexivity|].
      unfold Path.noSlash in Hns. cbn [JsString.forall_chars] in Hns.
      apply andb_prop in Hns as [Hc _]. apply negb_true_iff in Hc.
      now apply Ascii.eqb_neq in Hc.
    - apply String.eqb_eq in Hx. subst x. eexists _, _. split; [reflexivity|discriminate]. }
  destruct Hc as (c & r & -> & Hc).
  assert (Hs : exists u, String.append (String.concat "/" (String c r :: rest)) t = String c u).
  { destruct rest; cbn [String.concat]; rewrite !append_cons; eauto. }
  destruct Hs as [u ->].
  unfold Path.isAbsolute, JsString.startsWith.
  change (String.prefix "/" (String c u))
    with (if Ascii.ascii_dec "/" c then String.prefix "" u else false).
  destruct (Ascii.ascii_dec "/" c) as [<-|]; [now elim Hc|reflexivity].
Qed.

Lemma normalize_relative rel :
  Path.isAbsolute rel = false -> Path.isAbsolute (Path.normalize rel) = false.
Proof.
  intros Habs. unfold Path.normalize. rewrite Habs.
  destruct (String.eqb rel ""); [reflexivity|].
  cbn [negb]. unfold Path.normalizeString, Path.normSegs.
  pose proof (fold_stackOk true (Path.split rel) [] (split_all_noSlash rel) eq_refl) as Hok.
  apply stackOk_hd in Hok. rewrite <- forallb_rev in Hok.
  set (segs := rev (fold_left (Path.step true) (Path.split rel) [])) in *.
  destruct (String.eqb (String.concat "/" segs) "") eqn:E.
  - destruct (Path.hasTrailingSeparator rel); reflexivity.
  - destruct segs as [|x rest]; [discriminate E|].
    cbn [forallb] in Hok. apply andb_prop in Hok as [Hx _].
    destruct (Path.hasTrailingSeparator rel).
    + now apply concat_not_absolute.
    + rewrite <- (append_nil_r (String.concat "/" (x :: rest))).
      now apply concat_not_absolute.
Qed.

Lemma resolve_absolute_arg cwd root n :
  Path.isAbsolute root = true -> Path.isAbsolute n = false -> n <> "" ->
  Path.resolve cwd [root; n]
  = String.append "/"
      (Path.normalizeString
         (String.append root (String Path.slash (String.append n "/"))) false).
Proof.
  intros Hr Hn Hne. unfold Path.resolve. cbn [Path.resolveScan].
  rewrite Hn. destruct (String.eqb_spec n "") as [|_]; [contradiction|].
  destruct (String.eqb_spec root "") as [->|_]; [discriminate Hr|].
  rewrite Hr. reflexivity.
Qed.

Lemma resolveSafePath_below_root root cwd relativePath :
  Path.isResolved root = true ->
  Path.isAbsolute relativePath = false ->
  JsString.startsWith
    (Path.normalize (if JsString.truthy relativePath then relativePath else "."))
    ".." = false ->
  Utils.resolveSafePath root cwd relativePath
  = Return (String Path.slash
              (String.concat "/"
                 (Path.segments root
                  ++ List.filter Path.proper
                       (Path.split
                          (Path.normalize
                             (if JsString.truthy relativePath then relativePath
                              else ".")))))).
Proof.
  intros Hroot Habs Hdots.
  set (rel := if JsString.truthy relativePath then relativePath else ".") in *.
  assert (Hrel : Path.isAbsolute rel = false)
    by (subst rel; destruct (JsString.truthy relativePath); [assumption|reflexivity]).
  apply isResolved_inv in Hroot as [Hl Hr].
  set (l := Path.segments root) in *.
  pose proof (normalize_harmless rel Hdots) as Hh.
  pose proof (normalize_relative rel Hrel) as Hn.
  pose proof (normalize_nonempty rel) as Hne.
  set (n := Path.normalize rel) in *.
  set (ns := List.filter Path.proper (Path.split n)).
  assert (Hres : Path.resolve cwd [root; n]
                 = String Path.slash (String.concat "/" (l ++ ns))).
  { rewrite resolve_absolute_arg; [|rewrite Hr; apply isAbsolute_slash|assumption|assumption].
    unfold Path.normalizeString, Path.normSegs.
    rewrite split_append_slash, split_slash_end.
    destruct (split_resolved l Hl) as [Hh1 Hf1]. rewrite <- Hr in Hh1, Hf1.
    rewrite fold_harmless, app_nil_r, rev_involutive, !List.filter_app.
    - rewrite Hf1. cbn [List.filter]. change (Path.proper "") with false.
      cbv iota. rewrite app_nil_r. reflexivity.
    - rewrite !forallb_app, Hh1, Hh. reflexivity. }
  unfold Utils.resolveSafePath. fold rel. fold n. rewrite Hres.
  replace (JsString.startsWith _ root) with true; [reflexivity|].
  symmetry. rewrite Hr. apply startsWith_resolved.
Qed.

(** X6.  [resolveSafePath] accepts every relative path that does not climb:
    when the root is in resolved form, a path that is not absolute and whose
    normal form does not start with [..] is resolved to a path that is the
    root or lies below it, segment by segment, again in resolved form; and
    when [realpath] maps that path to itself, [resolveSafePathWithSymlinkCheck]
    returns it too. *)
Theorem resolveSafePath_accepts_paths_below_root
    (root cwd relativePath : string) :
  Path.isResolved root = true ->
  Path.isAbsolute relativePath = false ->
  JsString.startsWith
    (Path.normalize (if JsString.truthy relativePath then relativePath else "."))
    ".." = false ->
  exists p,
    Utils.resolveSafePath root cwd relativePath = Return p
    /\ Path.within root p = true
    /\ Path.isResolved p = true
    /\ forall fs, realpath fs p = FsOk p ->
                  Utils.resolveSafePathWithSymlinkCheck root cwd fs relativePath = Return p.
Proof.
  intros Hroot Habs Hdots.
  pose proof (resolveSafePath_below_root root cwd relativePath Hroot Habs Hdots) as Hsafe.
  apply isResolved_inv in Hroot as [Hl Hr].
  set (l := Path.segments root) in *.
  set (ns := List.filter Path.proper _) in Hsafe.
  assert (Hp : forallb Path.proper (l ++ ns) = true)
    by (unfold ns; now rewrite forallb_app, Hl, filter_proper_proper).
  exists (String Path.slash (String.concat "/" (l ++ ns))).
  split; [exact Hsafe|]. split; [|split].
  - unfold Path.within. rewrite isAbsolute_slash, (segments_resolved _ Hp).
    apply list_prefix_app.
  - now apply isResolved_concat.
  - intros fs Hreal. unfold Utils.resolveSafePathWithSymlinkCheck.
    rewrite Hsafe, Hreal.
    replace (JsString.startsWith _ root) with true; [reflexivity|].
    symmetry. rewrite Hr. apply startsWith_resolved.
Qed.

(** X6 for [docs/../docs/./a.txt] below [/data]. *)
Lemma resolveSafePath_accepts_paths_below_root_witness :
  exists p,
    Utils.resolveSafePath "/data" "/" "docs/../docs/./a.txt" = Return p
    /\ Path.within "/data" p = true
    /\ Path.isResolved p = true
    /\ forall fs, realpath fs p = FsOk p ->
                  Utils.resolveSafePathWithSymlinkCheck "/data" "/" fs "docs/../docs/./a.txt"
                  = Return p.
Proof.
  exact (resolveSafePath_accepts_paths_below_root "/data" "/" "docs/../docs/./a.txt"
           eq_refl eq_refl eq_refl).
Defined.

Lemma resolveScan_absolute cwd args :
  Path.isAbsolute cwd = true -> snd (Path.resolveScan (cwd :: args)) = true.
Proof.
  intros H. cbn [Path.resolveScan]. destruct (Path.resolveScan args) as [rp [|]];
    [reflexivity|].
  destruct (String.eqb_spec cwd "") as [->|_]; [discriminate H|]. exact H.
Qed.

Lemma resolve_isResolved cwd args :
  Path.isAbsolute cwd = true -> Path.isResolved (Path.resolve cwd args) = true.
Proof.
  intros H. unfold Path.resolve.
  pose proof (resolveScan_absolute cwd args H) as Hs.
  destruct (Path.resolveScan (cwd :: args)) as [rp ra]. cbn [snd] in Hs. subst ra.
  cbn [negb]. unfold Path.normalizeString, Path.normSegs.
  change (String.append "/" ?x) with (String Path.slash x).
  apply isResolved_concat. rewrite forallb_rev.
  apply stackOk_false, fold_stackOk; [apply split_all_noSlash|reflexivity].
Qed.

(** X7.  With an absolute working directory, [ROOT_DIRECTORY] is an absolute
    path made of names separated by single separators, without [.] and
    [..], whatever the environment variable holds; it is [/data] when the
    variable is unset or empty. *)
Theorem ROOT_DIRECTORY_is_resolved (cwd : string) (env : option string) :
  Path.isAbsolute cwd = true ->
  Path.isResolved (Utils.ROOT_DIRECTORY cwd env) = true
  /\ Path.isAbsolute (Utils.ROOT_DIRECTORY cwd env) = true
  /\ (env = None \/ env = Some "" -> Utils.ROOT_DIRECTORY cwd env = "/data").
Proof.
  intros H. split; [now apply resolve_isResolved|]. split.
  - pose proof (resolve_isResolved cwd
                  [match env with
                   | Some v => if JsString.truthy v then v else "/data"
                   | None => "/data"
                   end] H) as Hr.
    apply isResolved_inv in Hr as [_ Hr]. unfold Utils.ROOT_DIRECTORY.
    rewrite Hr. apply isAbsolute_slash.
  - intros [->| ->]; unfold Utils.ROOT_DIRECTORY, Path.resolve; cbn [Path.resolveScan];
      reflexivity.
Qed.

(** X7 for a relative value of the variable with a [..] segment and a
    trailing separator. *)
Lemma ROOT_DIRECTORY_is_resolved_witness :
  Path.isResolved (Utils.ROOT_DIRECTORY "/srv/app" (Some "files/../storage/")) = true.
Proof.
  exact (proj1 (ROOT_DIRECTORY_is_resolved "/srv/app" (Some "files/../storage/") eq_refl)).
Defined.

(* ===================================================================== *)
(** * The middlewares, login and the session version                    *)
(* ===================================================================== *)

Lemma truthy_neq s : JsString.truthy s = true <-> s <> "".
Proof.
  unfold JsString.truthy. rewrite negb_true_iff. apply String.eqb_neq.
Qed.

(** ** The CSRF check *)

Lemma csrfProtection_Next_inv cfg req user :
  fst (Server.csrfProtection cfg req) = Server.Next user ->
  user = None
  /\ snd (Server.csrfProtection cfg req) = []
  /\ (Server.AUTH_REQUIRED cfg = false
      \/ exists t, t <> "" /\ Server.csrfCookie req = Some t
                   /\ Server.csrfHeader req = Some t).
Proof.
  unfold Server.csrfProtection.
  destruct (Server.AUTH_REQUIRED cfg); cbn [negb].
  - destruct (Server.csrfCookie req) as [c|]; [|discriminate].
    destruct (Server.csrfHeader req) as [h|]; [|discriminate].
    destruct (JsString.truthy c) eqn:Hc; [|discriminate].
    destruct (JsString.truthy h) eqn:Hh; [|discriminate].
    destruct (Utils.safeCompare c h) eqn:Hch; [|discriminate].
    cbn. intros [= <-]. apply safeCompare_eq in Hch. subst h.
    split; [reflexivity|]. split; [reflexivity|]. right. exists c.
    split; [now apply truthy_neq|]. split; reflexivity.
  - cbn. intros [= <-]. split; [reflexivity|]. split; [reflexivity|]. now left.
Qed.

(** X8.  [csrfProtection] lets a request through exactly when authentication
    is not required or the CSRF cookie and the [x-csrf-token] header are both
    present, not empty and equal; nothing is audited then.  Every other
    request is answered 403 with one [CSRF_FAILURE] audit entry. *)
Theorem csrfProtection_passes_iff (cfg : Server.Config) (req : Server.Request) :
  (fst (Server.csrfProtection cfg req) = Server.Next None
   <-> Server.AUTH_REQUIRED cfg = false
       \/ exists t, t <> "" /\ Server.csrfCookie req = Some t
                    /\ Server.csrfHeader req = Some t)
  /\ (fst (Server.csrfProtection cfg req) = Server.Next None ->
      snd (Server.csrfProtection cfg req) = [])
  /\ (forall r,
        fst (Server.csrfProtection cfg req) = Server.Respond r ->
        r = {| Server.status := 403; Server.body := "CSRF token validation failed." |}
        /\ exists d, snd (Server.csrfProtection cfg req)
                     = [{| Server.action := "CSRF_FAILURE"; Server.details := d |}]).
Proof.
  split; [split|split].
  - intros H. now apply csrfProtection_Next_inv in H.
  - unfold Server.csrfProtection. intros [->|(t & Ht & -> & ->)]; [reflexivity|].
    destruct (Server.AUTH_REQUIRED cfg); [|reflexivity]. cbn [negb].
    apply truthy_neq in Ht. rewrite Ht.
    replace (Utils.safeCompare t t) with true by (symmetry; now apply safeCompare_eq).
    reflexivity.
  - intros H. now apply csrfProtection_Next_inv in H.
  - intros r. unfold Server.csrfProtection.
    destruct (Server.AUTH_REQUIRED cfg); cbn [negb]; [|discriminate].
    destruct (Server.csrfCookie req) as [c|], (Server.csrfHeader req) as [h|];
      try (cbn; intros [= <-]; split; [reflexivity|eexists; reflexivity]).
    destruct (JsString.truthy c && JsString.truthy h && Utils.safeCompare c h);
      [discriminate|].
    cbn; intros [= <-]; split; [reflexivity|eexists; reflexivity].
Qed.

(** ** Tokens *)

Lemma jwt_verify_inr token secret now p :
  Jwt.verify token secret now = inr p
  <-> token = Jwt.Signed p secret /\ Jwt.unexpired p now.
Proof.
  unfold Jwt.verify, Jwt.unexpired. destruct token as [raw|claims key].
  - split; [discriminate|]. intros [[=] _].
  - destruct (String.eqb_spec key secret) as [->|Hk]; cbn [negb].
    + destruct (Jwt.exp claims) as [e|] eqn:He.
      * destruct (Z.leb_spec e (Jwt.clockTimestamp now)).
        -- split; [discriminate|]. intros [[= <-] Hlt]. rewrite He in Hlt. lia.
        -- split.
           ++ intros [= <-]. rewrite He. split; [reflexivity|lia].
           ++ intros [[= <-] _]. reflexivity.
      * split.
        -- intros [= <-]. rewrite He. split; [reflexivity|exact I].
        -- intros [[= <-] _]. reflexivity.
    + split; [discriminate|]. intros [[= <- <-] _]. now elim Hk.
Qed.

Lemma requireAuth_user_inv cfg v now req p :
  fst (Server.requireAuth cfg v now req) = Server.Next (Some p) ->
  Server.bypassesAuth cfg req = false
  /\ Server.extractToken req = Some (Jwt.Signed p (Server.SESSION_SECRET cfg))
  /\ Jwt.sessionVersion p = Some v
  /\ Jwt.unexpired p now.
Proof.
  unfold Server.requireAuth.
  destruct (Server.bypassesAuth cfg req); [discriminate|].
  destruct (Server.extractToken req) as [token|]; [|discriminate].
  destruct (Jwt.isEmpty token); [discriminate|].
  destruct (Jwt.verify token (Server.SESSION_SECRET cfg) now) as [e|payload] eqn:Hv;
    [discriminate|].
  case_bool_decide as Hver; cbn [negb]; [|discriminate].
  cbn. intros [= <-]. apply jwt_verify_inr in Hv as [-> Hexp]. easy.
Qed.

Lemma requireAuth_accepts cfg v now req p :
  Server.bypassesAuth cfg req = false ->
  Server.extractToken req = Some (Jwt.Signed p (Server.SESSION_SECRET cfg)) ->
  Jwt.sessionVersion p = Some v ->
  Jwt.unexpired p now ->
  Server.requireAuth cfg v now req = (Server.Next (Some p), []).
Proof.
  intros Hb Ht Hv He. unfold Server.requireAuth. rewrite Hb, Ht.
  cbn [Jwt.isEmpty].
  replace (Jwt.verify _ _ _) with (@inr Jwt.VerifyError _ p)
    by (symmetry; now apply jwt_verify_inr).
  rewrite bool_decide_eq_true_2 by assumption. reflexivity.
Qed.

Lemma requireAuth_Next_None cfg v now req :
  fst (Server.requireAuth cfg v now req) = Server.Next None
  <-> Server.bypassesAuth cfg req = true.
Proof.
  unfold Server.requireAuth.
  destruct (Server.bypassesAuth cfg req); [easy|].
  split; [|discriminate].
  destruct (Server.extractToken req) as [token|]; [|discriminate].
  destruct (Jwt.isEmpty token); [discriminate|].
  destruct (Jwt.verify token (Server.SESSION_SECRET cfg) now); [discriminate|].
  destruct (negb _); discriminate.
Qed.

(** X9.  [requireAuth] passes a request on without a user exactly when the
    request is exempt (authentication not required, [OPTIONS], a public path
    or a public share endpoint), and with the user [p] exactly when the
    request is not exempt and presents the claims [p] signed with the server's
    secret, not expired, and carrying the current session version. *)
Theorem requireAuth_accepts_iff (cfg : Server.Config) (v now : Z) (req : Server.Request) :
  (fst (Server.requireAuth cfg v now req) = Server.Next None
   <-> Server.bypassesAuth cfg req = true)
  /\ (forall p,
        fst (Server.requireAuth cfg v now req) = Server.Next (Some p)
        <-> Server.bypassesAuth cfg req = false
            /\ Server.extractToken req = Some (Jwt.Signed p (Server.SESSION_SECRET cfg))
            /\ Jwt.sessionVersion p = Some v
            /\ Jwt.unexpired p now).
Proof.
  split.
  - apply requireAuth_Next_None.
  - intros p. split; [apply requireAuth_user_inv|].
    intros (Hb & Ht & Hv & He). now rewrite (requireAuth_accepts cfg v now req p).
Qed.



(** ** Login *)

Lemma login_LoggedIn_inv cfg scrypt csrfToken v t0 username password token csrf :
  fst (Server.login cfg scrypt csrfToken v t0 username password)
  = Server.LoggedIn token csrf ->
  Server.AUTH_REQUIRED cfg = true
  /\ username = Some (Server.AUTH_USERNAME cfg)
  /\ Server.AUTH_USERNAME cfg <> ""
  /\ (exists pass, password = Some pass /\ pass <> ""
                   /\ Utils.verifyPassword scrypt pass (Server.storedPassword cfg)
                      = Return true)
  /\ token = Server.issueToken cfg v (Server.AUTH_USERNAME cfg) t0
  /\ csrf = csrfToken.
Proof.
  unfold Server.login.
  destruct (Server.AUTH_REQUIRED cfg); cbn [negb]; [|discriminate].
  destruct username as [user|]; [|discriminate].
  destruct password as [pass|]; [|discriminate].
  destruct (JsString.truthy user) eqn:Hu; [|discriminate].
  destruct (JsString.truthy pass) eqn:Hp; [|discriminate]. cbn [negb orb].
  destruct (Utils.verifyPassword scrypt pass (Server.storedPassword cfg)) as [b|e] eqn:Hv;
    [|discriminate].
  destruct (Utils.safeCompare user (Server.AUTH_USERNAME cfg)) eqn:Hs; [|discriminate].
  destruct b; [|discriminate]. cbn. intros [= <- <-].
  apply safeCompare_eq in Hs. subst user. apply truthy_neq in Hu, Hp.
  split; [reflexivity|]. split; [reflexivity|]. split; [assumption|].
  split; [|split; reflexivity]. exists pass. easy.
Qed.


Lemma issued_token_accepted cfg v user t0 now req :
  Server.bypassesAuth cfg req = false ->
  Server.extractToken req = Some (Server.issueToken cfg v user t0) ->
  Jwt.clockTimestamp now < Jwt.clockTimestamp t0 + Server.SESSION_TTL_SECONDS cfg ->
  exists p, Server.requireAuth cfg v now req = (Server.Next (Some p), [])
            /\ Jwt.username p = user.
Proof.
  intros Hb Ht Hnow. eexists. split.
  - apply requireAuth_accepts; [assumption|exact Ht|reflexivity|exact Hnow].
  - reflexivity.
Qed.

(** X12.  Round trip of login and [requireAuth]: the token of a successful
    login, presented on a request that is not exempt while the session version
    is unchanged and fewer than [SESSION_TTL_SECONDS] seconds have passed, is
    accepted, and the user passed on is the configured user. *)
Theorem login_token_authenticates
    (cfg : Server.Config) (scrypt : string -> string -> string)
    (csrfToken : string) (v t0 : Z) (username password : option string)
    (token : Jwt.Token) (csrf : string) (now : Z) (req : Server.Request) :
  fst (Server.login cfg scrypt csrfToken v t0 username password)
  = Server.LoggedIn token csrf ->
  Server.bypassesAuth cfg req = false ->
  Server.extractToken req = Some token ->
  Jwt.clockTimestamp now < Jwt.clockTimestamp t0 + Server.SESSION_TTL_SECONDS cfg ->
  exists p,
    Server.requireAuth cfg v now req = (Server.Next (Some p), [])
    /\ Jwt.username p = Server.AUTH_USERNAME cfg
    /\ Jwt.exp p = Some (Jwt.clockTimestamp t0 + Server.SESSION_TTL_SECONDS cfg).
Proof.
  intros Hlogin Hb Ht Hnow.
  apply login_LoggedIn_inv in Hlogin as (_ & _ & _ & _ & -> & _).
  eexists. split; [|split].
  - apply requireAuth_accepts; [assumption|exact Ht|reflexivity|exact Hnow].
  - reflexivity.
  - reflexivity.
Qed.

(** X12 for the first token, one second before it expires. *)
Lemma login_token_authenticates_witness :
  exists p,
    Server.requireAuth Demo.config 1 3599000
      (Demo.requestWith "GET" "/tree" (Some Demo.firstToken))
    = (Server.Next (Some p), [])
    /\ Jwt.username p = "admin"
    /\ Jwt.exp p = Some 3600.
Proof.
  refine (login_token_authenticates Demo.config (fun _ _ => "") "c0ffee" 1 0
            (Some "admin") (Some "secret") Demo.firstToken "c0ffee" 3599000
            (Demo.requestWith "GET" "/tree" (Some Demo.firstToken)) _ _ _ _).
  - reflexivity.
  - reflexivity.
  - reflexivity.
  - vm_compute. reflexivity.
Defined.

(** ** [GET /auth/status] *)

(** X13.  [GET /auth/status] reports [authenticated] exactly when
    [requireAuth] would accept the same credentials on a request that is not
    exempt. *)
Theorem authStatus_agrees_with_requireAuth
    (cfg : Server.Config) (v now : Z) (req req' : Server.Request) :
  Server.bypassesAuth cfg req' = false ->
  Server.extractToken req' = Server.extractToken req ->
  Server.authRequired (Server.authStatus cfg v now req) = true
  /\ (Server.authenticated (Server.authStatus cfg v now req) = true
      <-> exists p, fst (Server.requireAuth cfg v now req') = Server.Next (Some p)).
Proof.
  intros Hb Ht.
  assert (Ha : Server.AUTH_REQUIRED cfg = true).
  { unfold Server.bypassesAuth in Hb. destruct (Server.AUTH_REQUIRED cfg); [reflexivity|].
    discriminate Hb. }
  unfold Server.authStatus, Server.requireAuth. rewrite Ha, Hb, Ht. cbn [negb].
  split; [reflexivity|]. cbn [Server.authenticated].
  destruct (Server.extractToken req) as [token|]; [|split; [discriminate|now intros [p [=]]]].
  destruct (Jwt.isEmpty token); [split; [discriminate|now intros [p [=]]]|].
  destruct (Jwt.verify token (Server.SESSION_SECRET cfg) now) as [e|payload];
    [split; [discriminate|now intros [p [=]]]|].
  destruct (negb _); [split; [discriminate|now intros [p [=]]]|].
  split; [eauto|reflexivity].
Qed.

(** X13 for the first token. *)
Lemma authStatus_agrees_with_requireAuth_witness :
  Server.authenticated
    (Server.authStatus Demo.config 1 1000
       (Demo.requestWith "GET" "/auth/status" (Some Demo.firstToken))) = true
  <-> exists p,
        fst (Server.requireAuth Demo.config 1 1000
               (Demo.requestWith "GET" "/tree" (Some Demo.firstToken)))
        = Server.Next (Some p).
Proof.
  exact (proj2 (authStatus_agrees_with_requireAuth Demo.config 1 1000
                  (Demo.requestWith "GET" "/auth/status" (Some Demo.firstToken))
                  (Demo.requestWith "GET" "/tree" (Some Demo.firstToken))
                  eq_refl eq_refl)).
Defined.

(** ** The session version *)

Lemma handle_other cfg v ev :
  Server.path (Server.ev_request ev) <> "/auth/invalidate-sessions" ->
  Server.handle cfg v ev = v.
Proof.
  intros H. unfold Server.handle.
  apply String.eqb_neq in H. rewrite H. now rewrite andb_false_r.
Qed.

Lemma run_other cfg evs : forall v,
  Forall (fun ev => Server.path (Server.ev_request ev) <> "/auth/invalidate-sessions") evs ->
  Server.run cfg v evs = v.
Proof.
  induction evs as [|ev r IH]; intros v H; [reflexivity|].
  inversion H as [|? ? H1 H2]; subst. unfold Server.run in *. cbn [fold_left].
  rewrite handle_other by assumption. now apply IH.
Qed.





Lemma handle_step cfg v ev : v <= Server.handle cfg v ev <= v + 1.
Proof.
  unfold Server.handle. destruct (_ && _); [|lia].
  unfold Server.invalidateSessions.
  destruct (fst (Server.requireAuth _ _ _ _)); [|cbn; lia].
  destruct (fst (Server.csrfProtection _ _)); [|cbn; lia].
  destruct (negb _); cbn; [lia|].
  unfold Server.incrementSessionVersion. destruct (v <? Server.two53); lia.
Qed.

(** X16.  Over any sequence of requests the session version never goes down,
    and it goes up by at most one per request. *)
Theorem sessionVersion_grows_by_at_most_one_per_request
    (cfg : Server.Config) (evs : list Server.Event) (v : Z) :
  v <= Server.run cfg v evs <= v + Z.of_nat (length evs).
Proof.
  revert v. induction evs as [|ev r IH]; intros v; [cbn; lia|].
  unfold Server.run in *. cbn [fold_left length].
  specialize (IH (Server.handle cfg v ev)).
  pose proof (handle_step cfg v ev). lia.
Qed.

(** ** The error-handling middleware *)



(* ===================================================================== *)
(** * The routes that change the filesystem                             *)
(* ===================================================================== *)

Lemma writeGuards_Next_inv cfg readOnly v now req user :
  fst (Server.writeGuards cfg readOnly v now req) = Server.Next user ->
  readOnly = false
  /\ (Server.AUTH_REQUIRED cfg = true ->
      exists t, t <> "" /\ Server.csrfCookie req = Some t
                /\ Server.csrfHeader req = Some t)
  /\ (Server.bypassesAuth cfg req = false ->
      exists p, user = Some p
                /\ Server.extractToken req = Some (Jwt.Signed p (Server.SESSION_SECRET cfg))
                /\ Jwt.sessionVersion p = Some v
                /\ Jwt.unexpired p now).
Proof.
  unfold Server.writeGuards, Server.ensureWritable.
  destruct (Server.requireAuth cfg v now req) as [[u|r] log] eqn:Hauth; [|discriminate].
  destruct readOnly; [discriminate|].
  destruct (Server.csrfProtection cfg req) as [[u'|r] log'] eqn:Hcsrf; [|discriminate].
  cbn. intros [= <-]. split; [reflexivity|]. split.
  - intros Ha.
    destruct (csrfProtection_Next_inv cfg req u') as (_ & _ & [Hno|Hpair]);
      [now rewrite Hcsrf|congruence|exact Hpair].
  - intros Hb. destruct u as [p|].
    + exists p. split; [reflexivity|].
      apply (requireAuth_user_inv cfg v now req p). now rewrite Hauth.
    + exfalso.
      assert (H : fst (Server.requireAuth cfg v now req) = Server.Next None)
        by now rewrite Hauth.
      apply (proj1 (requireAuth_Next_None cfg v now req)) in H. congruence.
Qed.

(** X18.  The three routes that change the filesystem ([DELETE /api/entries],
    [POST /api/folders], [POST /api/files]) call [rm], [mkdir] or [writeFile]
    only when the server is not in read-only mode and, if authentication is
    required, the request presents unexpired claims signed with the server's
    secret at the current session version together with a matching, non-empty
    CSRF pair. *)
Theorem filesystem_changes_are_guarded
    (root cwd : string) (fs : FileSystem)
    (rm mkdir writeFile : string -> option string) (label : string -> string)
    (cfg : Server.Config) (readOnly : bool) (v now : Z) (req : Server.Request)
    (relativePath parentPath name : option string) :
  let guarded :=
    readOnly = false
    /\ (Server.AUTH_REQUIRED cfg = true ->
        (exists p, Server.extractToken req
                   = Some (Jwt.Signed p (Server.SESSION_SECRET cfg))
                   /\ Jwt.sessionVersion p = Some v
                   /\ Jwt.unexpired p now)
        /\ (exists t, t <> "" /\ Server.csrfCookie req = Some t
                      /\ Server.csrfHeader req = Some t)) in
  (Server.method req = "DELETE" -> Server.path req = "/entries" ->
   forall targetPath failure,
     fst (Entries.remove root cwd fs rm cfg readOnly v now req relativePath)
     = Entries.Rm targetPath failure -> guarded)
  /\ (Server.method req = "POST" -> Server.path req = "/folders" ->
      forall destination failure,
        fst (Folders.create root cwd fs mkdir label cfg readOnly v now req parentPath name)
        = Folders.Mkdir destination failure -> guarded)
  /\ (Server.method req = "POST" -> Server.path req = "/files" ->
      forall destination failure,
        fst (Files.create root cwd fs writeFile label cfg readOnly v now req parentPath name)
        = Files.WriteFile destination failure -> guarded).
Proof.
  intros guarded.
  assert (Hguard : forall user,
    Server.bypassesAuth cfg req = negb (Server.AUTH_REQUIRED cfg) ->
    fst (Server.writeGuards cfg readOnly v now req) = Server.Next user -> guarded).
  { intros user Hb H. apply writeGuards_Next_inv in H as (Hro & Hcsrf & Htok).
    split; [exact Hro|]. intros Ha. rewrite Ha in Hb. split; [|now apply Hcsrf].
    destruct (Htok Hb) as (p & _ & H). now exists p. }
  split; [|split]; intros Hm Hp ? ?.
  - unfold Entries.remove.
    destruct (Server.writeGuards cfg readOnly v now req) as [[user|r] log] eqn:Hg;
      [|discriminate].
    intros _. apply (Hguard user); [|reflexivity].
    unfold Server.bypassesAuth. rewrite Hm, Hp. now rewrite !orb_false_r.
  - unfold Folders.create.
    destruct (Server.writeGuards cfg readOnly v now req) as [[user|r] log] eqn:Hg;
      [|discriminate].
    intros _. apply (Hguard user); [|reflexivity].
    unfold Server.bypassesAuth. rewrite Hm, Hp. now rewrite !orb_false_r.
  - unfold Files.create.
    destruct (Server.writeGuards cfg readOnly v now req) as [[user|r] log] eqn:Hg;
      [|discriminate].
    intros _. apply (Hguard user); [|reflexivity].
    unfold Server.bypassesAuth. rewrite Hm, Hp. now rewrite !orb_false_r.
Qed.

(** X18 for the deletion of [docs/a.txt] by a request that carries the first
    token and a matching CSRF pair. *)
Lemma filesystem_changes_are_guarded_witness :
  let req := Demo.requestWith "DELETE" "/entries" (Some Demo.firstToken) in
  fst (Entries.remove "/data" "/" Demo.plainFs (fun _ => None) Demo.config false 1 1000
         req (Some "docs/a.txt"))
  = Entries.Rm "/data/docs/a.txt" None
  /\ (exists p, Server.extractToken req
                = Some (Jwt.Signed p (Server.SESSION_SECRET Demo.config))
                /\ Jwt.sessionVersion p = Some 1
                /\ Jwt.unexpired p 1000)
  /\ (exists t, t <> "" /\ Server.csrfCookie req = Some t
                /\ Server.csrfHeader req = Some t).
Proof.
  split; [reflexivity|].
  exact (proj2 (proj1 (filesystem_changes_are_guarded "/data" "/" Demo.plainFs
                         (fun _ => None) (fun _ => None) (fun _ => None) (fun p => p)
                         Demo.config false 1 1000
                         (Demo.requestWith "DELETE" "/entries" (Some Demo.firstToken))
                         (Some "docs/a.txt") None None)
                  eq_refl eq_refl "/data/docs/a.txt" None eq_refl) eq_refl).
Defined.



Lemma join_plain_name parent n :
  Path.isNormalRoot parent = true -> Path.proper n = true ->
  Path.within parent (Path.join [parent; n]) = true.
Proof.
  intros Hp Hn. apply join_root; [assumption| |].
  - intros ->. discriminate Hn.
  - rewrite split_noSlash by (now apply proper_inv in Hn).
    cbn [forallb]. unfold Path.harmless. now rewrite Hn, !orb_true_r.
Qed.



Lemma list_prefix_last l x y :
  Path.list_prefix (l ++ [x]) (l ++ [y]) = String.eqb x y.
Proof.
  induction l as [|z l IH]; cbn [app Path.list_prefix].
  - apply andb_true_r.
  - now rewrite String.eqb_refl, IH.
Qed.

Lemma step_dotdot_proper l :
  forallb Path.proper l = true ->
  Path.step false (rev l) ".." = rev (removelast l).
Proof.
  intros Hl. induction l as [|x l0 _] using rev_ind; [reflexivity|].
  rewrite removelast_last, rev_app_distr. cbn [rev app].
  rewrite forallb_app in Hl. apply andb_prop in Hl as [_ Hx]. cbn [forallb] in Hx.
  rewrite andb_true_r in Hx. apply proper_inv in Hx as (_ & _ & _ & Hx).
  unfold Path.step. change (String.eqb ".." "") with false.
  change (String.eqb ".." ".") with false. change (String.eqb ".." "..") with true.
  cbv iota. unfold Path.isDotDot in Hx. now rewrite Hx.
Qed.

Lemma step_proper allow res n :
  Path.proper n = true -> Path.step allow res n = n :: res.
Proof.
  intros Hn. apply proper_inv in Hn as (_ & H1 & H2 & H3).
  unfold Path.step. unfold Path.isDotDot in H3. now rewrite H1, H2, H3.
Qed.

Lemma join_dotdot_name l n :
  forallb Path.proper l = true -> Path.proper n = true ->
  Path.segments
    (Path.join [String Path.slash (String.concat "/" l); String.append "../" n])
  = removelast l ++ [n]
  /\ Path.isAbsolute
       (Path.join [String Path.slash (String.concat "/" l); String.append "../" n])
     = true.
Proof.
  intros Hl Hn.
  rewrite join_two by discriminate. rewrite normalize_absolute. cbv zeta.
  unfold Path.normalizeString, Path.normSegs.
  change (String Path.slash (String.append ?r (String Path.slash ?m)))
    with (String.append (String Path.slash r) (String Path.slash m)).
  rewrite split_append_slash.
  change (String.append "../" n) with (String.append ".." (String Path.slash n)).
  rewrite split_append_slash, (split_noSlash n) by (now apply proper_inv in Hn).
  change (Path.split "..") with [".."].
  destruct (split_resolved l Hl) as [Hh Hf].
  rewrite fold_left_app,
    (fold_harmless false (Path.split (String Path.slash (String.concat "/" l))) [] Hh),
    app_nil_r, Hf.
  cbn [app fold_left]. rewrite (step_dotdot_proper l Hl), (step_proper _ _ n Hn).
  cbn [rev]. rewrite rev_involutive.
  assert (Hp : forallb Path.proper (removelast l ++ [n]) = true).
  { rewrite forallb_app. cbn [forallb]. rewrite Hn, andb_true_r. cbn [andb].
    clear -Hl. induction l as [|x l IH]; [reflexivity|].
    cbn [forallb] in Hl. apply andb_prop in Hl as [Hx Hl].
    destruct l as [|y l]; [reflexivity|].
    change (removelast (x :: y :: l)) with (x :: removelast (y :: l)).
    cbn [forallb]. now rewrite Hx, IH. }
  split; [apply (segments_absolute _ _ Hp)|].
  destruct (String.eqb (String.concat "/" (removelast l ++ [n])) "");
    [reflexivity|apply isAbsolute_slash].
Qed.

(** X21.  The name given to [POST /api/files] is joined to the checked parent
    without a check of its own: for a root in resolved form that is its own
    real path, the name [../n] makes the handler write to the path whose
    segments are those of the root with the last one replaced by [n], which
    is outside the root whenever [n] is not the root's own last segment. *)
Theorem files_create_name_can_leave_root
    (root cwd : string) (fs : FileSystem) (writeFile : string -> option string)
    (label : string -> string) (n : string) :
  Path.isResolved root = true ->
  realpath fs root = FsOk root ->
  Path.proper n = true ->
  exists destination,
    fst (Files.handler root cwd fs writeFile label None (Some (String.append "../" n)))
    = Files.WriteFile destination (writeFile destination)
    /\ Path.segments destination = removelast (Path.segments root) ++ [n]
    /\ (Path.segments root <> [] ->
        n <> List.last (Path.segments root) "" ->
        Path.within root destination = false).
Proof.
  intros Hroot Hreal Hn.
  assert (Hdot : Utils.resolveSafePathWithSymlinkCheck root cwd fs "." = Return root).
  { pose proof (resolveSafePath_below_root root cwd "." Hroot eq_refl eq_refl) as Hsafe.
    apply isResolved_inv in Hroot as [_ Hr].
    change (Path.normalize (if JsString.truthy "." then "." else ".")) with "." in Hsafe.
    change (List.filter Path.proper (Path.split ".")) with (@nil string) in Hsafe.
    rewrite app_nil_r, <- Hr in Hsafe.
    unfold Utils.resolveSafePathWithSymlinkCheck. rewrite Hsafe, Hreal.
    unfold JsString.startsWith. now rewrite prefix_refl. }
  apply isResolved_inv in Hroot as [Hl Hr].
  destruct (join_dotdot_name (Path.segments root) n Hl Hn) as [Hsegs Habs].
  rewrite <- Hr in Hsegs, Habs.
  exists (Path.join [root; String.append "../" n]).
  split; [|split].
  - unfold Files.handler. rewrite Hdot.
    change (negb (JsString.truthy (String.append "../" n))) with false. cbv iota.
    now destruct (writeFile _).
  - exact Hsegs.
  - intros Hne Hlast. unfold Path.within. rewrite Habs, Hsegs. cbn [andb].
    rewrite (app_removelast_last "" Hne) at 1.
    rewrite list_prefix_last. apply String.eqb_neq. congruence.
Qed.

(** X21 for the root [/data] and the name [../data2]. *)
Lemma files_create_name_can_leave_root_witness :
  exists destination,
    fst (Files.handler "/data" "/" Demo.plainFs (fun _ => None) (fun p => p)
           None (Some "../data2"))
    = Files.WriteFile destination None
    /\ Path.segments destination = ["data2"]
    /\ (Path.segments "/data" <> [] -> "data2" <> List.last (Path.segments "/data") "" ->
        Path.within "/data" destination = false).
Proof.
  exact (files_create_name_can_leave_root "/data" "/" Demo.plainFs (fun _ => None)
           (fun p => p) "data2" eq_refl eq_refl eq_refl).
Defined.

(* ===================================================================== *)
(** * Creation, verification and removal of shares                      *)
(* ===================================================================== *)

Lemma create_Created_inv root cwd fs now shareId random target hours
    (shares shares' : gmap string Shares.Share) share expiry :
  Shares.create root cwd fs now shareId random target hours shares
  = (Shares.Created share expiry, shares') ->
  shares' = <[shareId := share]> shares
  /\ Shares.accessCode share = Shares.generateAccessCode random
  /\ Shares.accessTokens share = None
  /\ Shares.accessCount share = 0
  /\ Shares.expiresAt share = now + expiry * 3600000
  /\ 1 <= expiry <= 168
  /\ exists stats, stat fs (Shares.resolvedPath share) = FsOk stats.
Proof.
  unfold Shares.create.
  destruct (negb (JsString.truthy target)); [discriminate|].
  destruct (Utils.resolveSafePathWithSymlinkCheck root cwd fs target) as [resolved|];
    [|discriminate].
  destruct (stat fs resolved) as [stats|] eqn:Hstat; [|discriminate].
  intros [= <- <- <-]. cbn.
  split; [reflexivity|]. split; [reflexivity|]. split; [reflexivity|].
  split; [reflexivity|]. split; [lia|]. split; [|eauto].
  unfold Shares.clampExpiry, Shares.MAX_SHARE_EXPIRY_HOURS. lia.
Qed.

Lemma generated_code_matches random share :
  (forall i, 0 <= random i < Server.two53) ->
  Shares.accessCode share = Shares.generateAccessCode random ->
  JsString.truthy (Shares.accessCode share) = true
  /\ Shares.codeMatches (Shares.accessCode share) share = true.
Proof.
  intros Hr Hc. destruct (generateAccessCode_alphabet random Hr) as [Hlen Halpha].
  rewrite <- Hc in Hlen, Halpha. split.
  - destruct (Shares.accessCode share); [discriminate Hlen|reflexivity].
  - apply codeMatches_toUpperCase, (toUpperCase_caseVariant _ _ Halpha), caseVariant_refl.
Qed.

(** X22.  Round trip of share creation and verification: a share just created
    is stored under its id, expires between one hour and 168 hours after its
    creation, survives a sweep until then, and is verified by its own access
    code, which records the access token handed out. *)
Theorem created_share_verifies
    (root cwd : string) (fs : FileSystem) (now : Z) (shareId : string)
    (random : nat -> Z) (targetPath : string) (expiresInHours : option Z)
    (shares shares' : gmap string Shares.Share) (share : Shares.Share) (expiry : Z)
    (later : Z) (accessToken : string) :
  Shares.create root cwd fs now shareId random targetPath expiresInHours shares
  = (Shares.Created share expiry, shares') ->
  (forall i, 0 <= random i < Server.two53) ->
  later <= now + expiry * 3600000 ->
  Shares.verify fs later accessToken shareId (Some (Shares.accessCode share)) shares'
  = (Shares.Verified accessToken (Shares.addToken accessToken share),
     <[shareId := Shares.addToken accessToken share]> shares')
  /\ Shares.cleanupExpiredShares later shares' !! shareId = Some share
  /\ now + 3600000 <= Shares.expiresAt share <= now + 168 * 3600000.
Proof.
  intros Hc Hr Hlater.
  apply create_Created_inv in Hc as (-> & Hcode & _ & _ & Hexp & Hrange & stats & Hstat).
  destruct (generated_code_matches random share Hr Hcode) as [Htruthy Hmatch].
  split; [|split].
  - unfold Shares.verify. rewrite Htruthy, lookup_insert_eq. cbn [negb].
    rewrite bool_decide_eq_false_2 by lia.
    rewrite Hmatch. cbn [negb].
    change (Shares.resolvedPath (Shares.addToken accessToken share))
      with (Shares.resolvedPath share).
    now rewrite Hstat.
  - apply cleanupExpiredShares_lookup. rewrite lookup_insert_eq. split; [reflexivity|lia].
  - lia.
Qed.

(** X22 for a share of [/data/docs] created at time 0 for one hour. *)
Lemma created_share_verifies_witness :
  Shares.verify Demo.plainFs 1000 "0ddba11" "a1b2c3d4e5f60718" (Some "K7QX2M")
    (<["a1b2c3d4e5f60718" := Demo.freshShare]> ∅)
  = (Shares.Verified "0ddba11" (Shares.addToken "0ddba11" Demo.freshShare),
     <["a1b2c3d4e5f60718" := Shares.addToken "0ddba11" Demo.freshShare]>
       (<["a1b2c3d4e5f60718" := Demo.freshShare]> ∅)).
Proof.
  refine (proj1 (created_share_verifies "/data" "/" Demo.plainFs 0 "a1b2c3d4e5f60718"
                   Demo.draws "docs" (Some 1) ∅
                   (<["a1b2c3d4e5f60718" := Demo.freshShare]> ∅) Demo.freshShare 1
                   1000 "0ddba11" _ draws_bounded _)).
  - reflexivity.
  - lia.
Defined.

Lemma verify_Verified_inv fs now accessToken shareId code
    (shares shares' : gmap string Shares.Share) tok s :
  Shares.verify fs now accessToken shareId code shares = (Shares.Verified tok s, shares') ->
  exists share,
    shares !! shareId = Some share
    /\ ~ Shares.expiresAt share < now
    /\ tok = accessToken
    /\ s = Shares.addToken accessToken share
    /\ shares' = <[shareId := s]> shares.
Proof.
  unfold Shares.verify. destruct code as [code|]; [|discriminate].
  destruct (negb (JsString.truthy code)); [discriminate|].
  destruct (shares !! shareId) as [share|]; [|discriminate].
  case_bool_decide as Hexp; [discriminate|].
  destruct (negb (Shares.codeMatches code share)); [discriminate|].
  destruct (stat fs _); [|discriminate].
  intros [= <- <- <-]. exists share. easy.
Qed.

(** X23.  Round trip of verification and access: after a successful
    verification the share's access count has grown by one, and until the
    share expires [verifyShareAccess] admits exactly the token just handed out
    and those handed out before; any other non-empty token is answered 403. *)
Theorem verified_token_grants_access
    (fs : FileSystem) (now later : Z) (accessToken shareId : string)
    (code : option string) (shares shares' : gmap string Shares.Share)
    (tok : string) (s : Shares.Share) :
  Shares.verify fs now accessToken shareId code shares = (Shares.Verified tok s, shares') ->
  ~ Shares.expiresAt s < later ->
  exists share,
    shares !! shareId = Some share
    /\ tok = accessToken
    /\ Shares.accessCount s = Shares.accessCount share + 1
    /\ Shares.expiresAt s = Shares.expiresAt share
    /\ Shares.resolvedPath s = Shares.resolvedPath share
    /\ forall t,
         t <> "" ->
         (t = accessToken \/ t ∈ default ∅ (Shares.accessTokens share) ->
          Shares.verifyShareAccess later shareId (Some t) shares' = (inr s, shares'))
         /\ (t <> accessToken -> t ∉ default ∅ (Shares.accessTokens share) ->
             Shares.verifyShareAccess later shareId (Some t) shares'
             = (inl (Shares.Failure 403 "Invalid share access token."), shares')).
Proof.
  intros Hv Hlater.
  apply verify_Verified_inv in Hv as (share & Hlook & _ & -> & -> & ->).
  exists share. repeat (split; [first [assumption|reflexivity]|]).
  intros t Ht. apply truthy_neq in Ht.
  unfold Shares.verifyShareAccess. rewrite Ht, lookup_insert_eq. cbn [negb].
  rewrite bool_decide_eq_false_2 by assumption.
  cbn [Shares.accessTokens Shares.addToken]. split.
  - intros Hin. rewrite bool_decide_eq_true_2; [reflexivity|].
    apply elem_of_union. destruct Hin as [->|Hin]; [left; now apply elem_of_singleton|now right].
  - intros Hne Hnot. rewrite bool_decide_eq_false_2; [reflexivity|].
    intros [Hin%elem_of_singleton|Hin]%elem_of_union; contradiction.
Qed.

(** X23 for [docsShare], verified with its code in lower case. *)
Lemma verified_token_grants_access_witness :
  exists share,
    ({[ "a1b2c3d4e5f60718" := Demo.docsShare ]} : gmap string Shares.Share)
      !! "a1b2c3d4e5f60718" = Some share
    /\ "0ddba11" = "0ddba11"
    /\ Shares.accessCount (Shares.addToken "0ddba11" Demo.docsShare)
       = Shares.accessCount share + 1
    /\ Shares.expiresAt (Shares.addToken "0ddba11" Demo.docsShare) = Shares.expiresAt share
    /\ Shares.resolvedPath (Shares.addToken "0ddba11" Demo.docsShare)
       = Shares.resolvedPath share
    /\ forall t,
         t <> "" ->
         (t = "0ddba11" \/ t ∈ default ∅ (Shares.accessTokens share) ->
          Shares.verifyShareAccess 2000 "a1b2c3d4e5f60718" (Some t)
            (<["a1b2c3d4e5f60718" := Shares.addToken "0ddba11" Demo.docsShare]>
               {[ "a1b2c3d4e5f60718" := Demo.docsShare ]})
          = (inr (Shares.addToken "0ddba11" Demo.docsShare),
             <["a1b2c3d4e5f60718" := Shares.addToken "0ddba11" Demo.docsShare]>
               {[ "a1b2c3d4e5f60718" := Demo.docsShare ]}))
         /\ (t <> "0ddba11" -> t ∉ default ∅ (Shares.accessTokens share) ->
             Shares.verifyShareAccess 2000 "a1b2c3d4e5f60718" (Some t)
               (<["a1b2c3d4e5f60718" := Shares.addToken "0ddba11" Demo.docsShare]>
                  {[ "a1b2c3d4e5f60718" := Demo.docsShare ]})
             = (inl (Shares.Failure 403 "Invalid share access token."),
                <["a1b2c3d4e5f60718" := Shares.addToken "0ddba11" Demo.docsShare]>
                  {[ "a1b2c3d4e5f60718" := Demo.docsShare ]})).
Proof.
  refine (verified_token_grants_access Demo.plainFs 1000 2000 "0ddba11" "a1b2c3d4e5f60718"
            (Some "k7qx2m") {[ "a1b2c3d4e5f60718" := Demo.docsShare ]}
            (<["a1b2c3d4e5f60718" := Shares.addToken "0ddba11" Demo.docsShare]>
               {[ "a1b2c3d4e5f60718" := Demo.docsShare ]})
            "0ddba11" (Shares.addToken "0ddba11" Demo.docsShare) _ _).
  - reflexivity.
  - cbn. lia.
Defined.

(** X24.  [DELETE /api/shares/:shareId] removes the share and nothing else:
    a second deletion is answered 404, neither an access code nor an access
    token is accepted for the id any more, and the other shares stay as they
    were. *)
Theorem removed_share_is_gone
    (shareId : string) (shares : gmap string Shares.Share) (share : Shares.Share) :
  shares !! shareId = Some share ->
  let gone := delete shareId shares in
  Shares.remove shareId shares = (Shares.Deleted, gone)
  /\ Shares.remove shareId gone = (Shares.Failure 404 "Share not found.", gone)
  /\ (forall fs now accessToken code,
        code <> "" ->
        Shares.verify fs now accessToken shareId (Some code) gone
        = (Shares.Failure 404 "Share not found or expired.", gone))
  /\ (forall now token,
        token <> "" ->
        Shares.verifyShareAccess now shareId (Some token) gone
        = (inl (Shares.Failure 404 "Share not found or expired."), gone))
  /\ (forall other, other <> shareId -> gone !! other = shares !! other).
Proof.
  intros Hlook gone. split; [|split; [|split; [|split]]].
  - unfold Shares.remove. now rewrite Hlook.
  - unfold Shares.remove, gone. now rewrite lookup_delete_eq.
  - intros fs now accessToken code Hc. apply truthy_neq in Hc.
    unfold Shares.verify, gone. now rewrite Hc, lookup_delete_eq.
  - intros now token Ht. apply truthy_neq in Ht.
    unfold Shares.verifyShareAccess, gone. now rewrite Ht, lookup_delete_eq.
  - intros other Hne. unfold gone. now apply lookup_delete_ne.
Qed.

(** X24 for [docsShare]. *)
Lemma removed_share_is_gone_witness :
  Shares.remove "a1b2c3d4e5f60718" {[ "a1b2c3d4e5f60718" := Demo.docsShare ]}
  = (Shares.Deleted, delete "a1b2c3d4e5f60718" {[ "a1b2c3d4e5f60718" := Demo.docsShare ]}).
Proof.
  exact (proj1 (removed_share_is_gone "a1b2c3d4e5f60718"
                  {[ "a1b2c3d4e5f60718" := Demo.docsShare ]} Demo.docsShare
                  (lookup_singleton_eq _ _))).
Defined.

(** X25.  Sweeps compose: sweeping at a time [t1] and again at a later time
    [t2] leaves what a single sweep at [t2] leaves, in either order, and a
    sweep only removes shares. *)
Theorem cleanupExpiredShares_composes
    (t1 t2 : Z) (shares : gmap string Shares.Share) :
  t1 <= t2 ->
  Shares.cleanupExpiredShares t2 (Shares.cleanupExpiredShares t1 shares)
  = Shares.cleanupExpiredShares t2 shares
  /\ Shares.cleanupExpiredShares t1 (Shares.cleanupExpiredShares t2 shares)
     = Shares.cleanupExpiredShares t2 shares
  /\ Shares.cleanupExpiredShares t2 shares ⊆ Shares.cleanupExpiredShares t1 shares
  /\ Shares.cleanupExpiredShares t1 shares ⊆ shares.
Proof.
  intros Hle. split; [|split; [|split]].
  - apply map_eq. intros k. apply option_eq. intros s.
    rewrite !cleanupExpiredShares_lookup. intuition lia.
  - apply map_eq. intros k. apply option_eq. intros s.
    rewrite !cleanupExpiredShares_lookup. intuition lia.
  - apply map_subseteq_spec. intros k s.
    rewrite !cleanupExpiredShares_lookup. intuition lia.
  - apply map_subseteq_spec. intros k s.
    rewrite !cleanupExpiredShares_lookup. intuition.
Qed.

(** X25 for [docsShare], swept before and after its expiry. *)
Lemma cleanupExpiredShares_composes_witness :
  Shares.cleanupExpiredShares 3600001
    (Shares.cleanupExpiredShares 1000 {[ "a1b2c3d4e5f60718" := Demo.docsShare ]})
  = Shares.cleanupExpiredShares 3600001 {[ "a1b2c3d4e5f60718" := Demo.docsShare ]}.
Proof.
  refine (proj1 (cleanupExpiredShares_composes 1000 3600001
                   {[ "a1b2c3d4e5f60718" := Demo.docsShare ]} _)).
  lia.
Defined.

Lemma verifyShareAccess_inr_inv now shareId token
    (shares shares' : gmap string Shares.Share) share :
  Shares.verifyShareAccess now shareId token shares = (inr share, shares') ->
  shares' = shares
  /\ shares !! shareId = Some share
  /\ ~ Shares.expiresAt share < now
  /\ exists t tokens, token = Some t /\ t <> ""
                      /\ Shares.accessTokens share = Some tokens /\ t ∈ tokens.
Proof.
  unfold Shares.verifyShareAccess. destruct token as [t|]; [|discriminate].
  destruct (JsString.truthy t) eqn:Ht; cbn [negb]; [|discriminate].
  destruct (shares !! shareId) as [sh|]; [|discriminate].
  case_bool_decide as Hexp; [discriminate|].
  destruct (Shares.accessTokens sh) as [tokens|] eqn:Htok; [|discriminate].
  case_bool_decide as Hin; [|discriminate].
  intros [= <- <-]. apply truthy_neq in Ht. split; [reflexivity|]. split; [reflexivity|].
  split; [assumption|]. exists t, tokens. easy.
Qed.

(** X26.  Whenever [GET /:shareId/content] or [GET /:shareId/download] lists
    or reads a path, the share exists and has not expired, the request carries
    one of its access tokens, and the path is the shared file itself or, for a
    shared directory in normal form, a path at or below that directory read
    segment by segment. *)
Theorem share_access_is_lexically_confined
    (fs : FileSystem) (previewLimit now : Z) (shareId : string)
    (token : option string) (queryPath : string)
    (shares : gmap string Shares.Share) (p : string) :
  Shares.accessed (fst (Shares.content fs previewLimit now shareId token queryPath shares)) = Some p
  \/ Shares.accessed (fst (Shares.download fs now shareId token queryPath shares)) = Some p ->
  exists share t tokens,
    shares !! shareId = Some share
    /\ ~ Shares.expiresAt share < now
    /\ token = Some t /\ Shares.accessTokens share = Some tokens /\ t ∈ tokens
    /\ Shares.targetPath share queryPath = inr p
    /\ (Shares.isDirectory share = false -> p = Shares.resolvedPath share)
    /\ (Shares.isDirectory share = true ->
        Path.isNormalRoot (Shares.resolvedPath share) = true ->
        Path.within (Shares.resolvedPath share) p = true).
Proof.
  intros H.
  assert (Hacc : exists share shares',
            Shares.verifyShareAccess now shareId token shares = (inr share, shares')
            /\ Shares.targetPath share queryPath = inr p).
  { unfold Shares.content, Shares.download in H.
    destruct (Shares.verifyShareAccess now shareId token shares) as [[a|share] shares'];
      [destruct H as [H|H]; discriminate H|].
    exists share, shares'. split; [reflexivity|].
    destruct (Shares.targetPath share queryPath) as [a|target];
      [destruct H as [H|H]; discriminate H|].
    f_equal. destruct (stat fs target) as [stats|code];
      [|destruct H as [H|H]; discriminate H].
    destruct H as [H|H].
    - destruct (st_isDirectory stats); [now injection H|].
      destruct (previewLimit <? st_size stats); now injection H.
    - destruct (st_isDirectory stats); [discriminate H|]. now injection H. }
  destruct Hacc as (share & shares' & Hv & Ht).
  apply verifyShareAccess_inr_inv in Hv
    as (_ & Hlook & Hexp & t & tokens & -> & _ & Htok & Hin).
  exists share, t, tokens. repeat (split; [first [assumption|reflexivity]|]). split.
  - intros Hd. unfold Shares.targetPath in Ht. rewrite Hd in Ht. now injection Ht.
  - intros Hd Hn. pose proof (targetPath_lexically_confined share queryPath Hd Hn) as Hc.
    rewrite Ht in Hc. apply Hc.
Qed.

(** X26 for the path [sub/../notes.txt] of [docsShare]. *)
Lemma share_access_is_lexically_confined_witness :
  exists share t tokens,
    ({[ "a1b2c3d4e5f60718" := Demo.docsShare ]} : gmap string Shares.Share)
      !! "a1b2c3d4e5f60718" = Some share
    /\ ~ Shares.expiresAt share < 1000
    /\ Some "5ca1ab1e" = Some t /\ Shares.accessTokens share = Some tokens /\ t ∈ tokens
    /\ Shares.targetPath share "sub/../notes.txt" = inr "/data/docs/notes.txt"
    /\ (Shares.isDirectory share = false -> "/data/docs/notes.txt" = Shares.resolvedPath share)
    /\ (Shares.isDirectory share = true ->
        Path.isNormalRoot (Shares.resolvedPath share) = true ->
        Path.within (Shares.resolvedPath share) "/data/docs/notes.txt" = true).
Proof.
  refine (share_access_is_lexically_confined Demo.plainFs 1048576 1000 "a1b2c3d4e5f60718"
            (Some "5ca1ab1e") "sub/../notes.txt" {[ "a1b2c3d4e5f60718" := Demo.docsShare ]}
            "/data/docs/notes.txt" _).
  left. reflexivity.
Defined.

(* ===================================================================== *)
(** * What a search returns                                             *)
(* ===================================================================== *)

Section ReportedEntries.

Variable root : string.
Variable mimeLookup : string -> option string.
Variable clock : nat -> Z.
Variable query : string.
Variable maxResults startTime timeout : Z.

Variable Inv : Search.SearchState -> Prop.
Hypothesis Inv_tick : forall s, Inv s -> Inv (Search.tick s).
Hypothesis Inv_timedOut : forall s, Inv s -> Inv (Search.setTimedOut s).
Hypothesis Inv_push :
  forall e s, Search.matches query (Search.name e) = true -> Inv s -> Inv (Search.push e s).

Lemma filesLoop_reports dirPath files :
  forall s, Inv s ->
    Inv (Search.filesLoop root mimeLookup clock query maxResults startTime timeout
           dirPath files s).
Proof.
  induction files as [|d rest IH]; intros s Hs; simpl; [assumption|].
  destruct (Search.full maxResults s); [assumption|].
  destruct (Search.expired clock startTime timeout s); [now apply Inv_timedOut, Inv_tick|].
  destruct d as [n st|n st sub].
  - destruct (Search.matches query n) eqn:Hm; [|now apply IH, Inv_tick].
    destruct st; apply IH; [apply Inv_push; [exact Hm|now apply Inv_tick] | now apply Inv_tick].
  - now apply IH, Inv_tick.
Qed.

Lemma searchDirectory_reports dir :
  forall dirPath s, Inv s ->
    Inv (Search.searchDirectory root mimeLookup clock query maxResults startTime timeout
           dirPath dir s).
Proof.
  induction dir as [code|dirents IH] using Search.Directory_tree_ind;
    intros dirPath s Hs.
  - rewrite searchDirectory_Unreadable.
    destruct (Search.full maxResults s); [assumption|].
    destruct (Search.expired clock startTime timeout s);
      [now apply Inv_timedOut, Inv_tick | now apply Inv_tick].
  - rewrite searchDirectory_Listing.
    destruct (Search.full maxResults s); [assumption|].
    destruct (Search.expired clock startTime timeout s); [now apply Inv_timedOut, Inv_tick|].
    assert (Hfiles : Inv (Search.filesLoop root mimeLookup clock query maxResults startTime
                            timeout dirPath (List.filter Search.isFile dirents)
                            (Search.tick s)))
      by now apply filesLoop_reports, Inv_tick.
    revert Hfiles.
    generalize (Search.filesLoop root mimeLookup clock query maxResults startTime
                  timeout dirPath (List.filter Search.isFile dirents) (Search.tick s)).
    clear Hs s.
    induction IH as [|d rest Hd _ IHrest]; intros s Hs; simpl; [assumption|].
    destruct d as [n st|n st sub]; [now apply IHrest|].
    destruct (Search.full maxResults s); [assumption|].
    destruct (Search.expired clock startTime timeout s); [now apply Inv_timedOut, Inv_tick|].
    apply IHrest, Hd.
    destruct (Search.matches query n) eqn:Hm; [|now apply Inv_tick].
    destruct st; [apply Inv_push; [exact Hm|now apply Inv_tick] | now apply Inv_tick].
Qed.

End ReportedEntries.

Lemma searchDirectory_results_match root mimeLookup clock query maxResults startTime timeout
    dirPath dir s :
  Forall (fun e => Search.matches query (Search.name e) = true) (Search.results s) ->
  Forall (fun e => Search.matches query (Search.name e) = true)
    (Search.results
       (Search.searchDirectory root mimeLookup clock query maxResults startTime timeout
          dirPath dir s)).
Proof.
  apply (searchDirectory_reports root mimeLookup clock query maxResults startTime timeout
           (fun s => Forall (fun e => Search.matches query (Search.name e) = true)
                       (Search.results s))); try easy.
  intros e s0 He Hs. cbn. apply Forall_app. split; [assumption|]. now constructor.
Qed.

Lemma insertSorted_Permutation cmp e l :
  Permutation (Search.insertSorted cmp e l) (e :: l).
Proof.
  induction l as [|x r IH]; simpl; [reflexivity|].
  destruct (0 <? cmp e x); [|reflexivity].
  rewrite IH. apply perm_swap.
Qed.

Lemma sort_Permutation cmp l : Permutation (Search.sort cmp l) l.
Proof.
  unfold Search.sort. induction l as [|x r IH]; simpl; [reflexivity|].
  rewrite insertSorted_Permutation. now constructor.
Qed.

Lemma forallb_insertSorted (f : Search.Entry -> bool) cmp e l :
  f e = true -> forallb f l = true -> forallb f (Search.insertSorted cmp e l) = true.
Proof.
  intros He. induction l as [|x r IH]; simpl; [now rewrite He|].
  intros [Hx Hr]%andb_true_iff. destruct (0 <? cmp e x); simpl.
  - now rewrite Hx, IH.
  - now rewrite He, Hx, Hr.
Qed.

Lemma insertSorted_directoriesFirst localeCompare e l :
  Search.directoriesFirst l = true ->
  Search.directoriesFirst (Search.insertSorted (Search.compareEntries localeCompare) e l) = true.
Proof.
  induction l as [|x r IH]; [intros _; simpl; now rewrite orb_true_r|].
  cbn [Search.directoriesFirst Search.insertSorted].
  intros [Hx Hr]%andb_true_iff.
  destruct (0 <? Search.compareEntries localeCompare e x) eqn:Hcmp.
  - cbn [Search.directoriesFirst]. rewrite (IH Hr), andb_true_r.
    destruct (Search.isDirectory x) eqn:Hdx; [reflexivity|]. cbn [orb] in *.
    apply forallb_insertSorted; [|exact Hx].
    unfold Search.compareEntries in Hcmp. rewrite Hdx in Hcmp. cbn in Hcmp.
    destruct (Search.isDirectory e); [discriminate Hcmp|reflexivity].
  - cbn [Search.directoriesFirst forallb]. rewrite Hx, Hr, !andb_true_r.
    destruct (Search.isDirectory e) eqn:Hde; [reflexivity|]. cbn [orb].
    unfold Search.compareEntries in Hcmp. rewrite Hde in Hcmp. cbn in Hcmp.
    destruct (Search.isDirectory x) eqn:Hdx; [discriminate Hcmp|].
    cbn [orb negb andb] in *. exact Hx.
Qed.

Lemma sort_directoriesFirst localeCompare l :
  Search.directoriesFirst (Search.sort (Search.compareEntries localeCompare) l) = true.
Proof.
  unfold Search.sort. induction l as [|x r IH]; [reflexivity|].
  cbn [fold_right]. now apply insertSorted_directoriesFirst.
Qed.

Lemma search_Success_inv root cwd fs tree mimeLookup localeCompare clock req f :
  Search.search root cwd fs tree mimeLookup localeCompare clock req = Search.Success f ->
  exists query target stats,
    Search.q req = Some query
    /\ JsString.trim query <> ""
    /\ Utils.resolveSafePathWithSymlinkCheck root cwd fs
         (match Search.searchPath req with
          | Some p => if JsString.truthy p then p else "."
          | None => "."
          end) = Return target
    /\ stat fs target = FsOk stats
    /\ st_isDirectory stats = true
    /\ let limit := Search.clampLimit (Search.limit req) in
       let s := Search.searchDirectory root mimeLookup clock (JsString.trim query)
                  limit (clock 0%nat) (Search.clampTimeout (Search.timeoutParam req))
                  target (tree target)
                  {| Search.results := []; Search.timedOut := false; Search.ticks := 1 |} in
       Search.r_results f = Search.sort (Search.compareEntries localeCompare) (Search.results s)
       /\ Search.r_timedOut f = Search.timedOut s
       /\ Search.r_truncated f = (limit <=? Z.of_nat (length (Search.r_results f)))
       /\ Search.r_resultCount f = Z.of_nat (length (Search.r_results f))
       /\ Search.r_query f = query.
Proof.
  unfold Search.search.
  destruct (Search.q req) as [query|] eqn:Hq; cbn [default from_option id];
    [|discriminate].
  destruct (JsString.truthy query); cbn [negb orb]; [|discriminate].
  destruct (String.eqb_spec (JsString.trim query) "") as [|Hne]; [discriminate|].
  destruct (Utils.resolveSafePathWithSymlinkCheck _ _ _ _) as [target|] eqn:Hres;
    [|discriminate].
  destruct (stat fs target) as [stats|] eqn:Hstat; [|discriminate].
  destruct (st_isDirectory stats) eqn:Hdir; cbn [negb]; [|discriminate].
  intros [= <-]. exists query, target, stats. cbn. easy.
Qed.





(* ===================================================================== *)
(** * Uploads and directory listings                                       *)
(* ===================================================================== *)

Lemma firstRejected_None validate files :
  Files.firstRejected validate files = None <-> forallb validate files = true.
Proof.
  induction files as [|f r IH]; simpl; [easy|].
  destruct (validate f); simpl; [exact IH|]. easy.
Qed.

Lemma firstRejected_Some validate files file :
  Files.firstRejected validate files = Some file ->
  exists before after,
    files = before ++ file :: after
    /\ forallb validate before = true
    /\ validate file = false.
Proof.
  induction files as [|f r IH]; simpl; [discriminate|].
  destruct (validate f) eqn:Hf; simpl.
  - intros H. destruct (IH H) as (b & a & -> & Hb & Hv).
    exists (f :: b), a. cbn [forallb app]. rewrite Hf. split; [reflexivity|]. split; assumption.
  - intros [= <-]. exists [], r. easy.
Qed.

Lemma endsWith_append s p : JsString.endsWith (String.append s p) p = true.
Proof.
  induction s as [|c s IH].
  - change (String.append "" p) with p.
    destruct p; cbn [JsString.endsWith]; now rewrite String.eqb_refl.
  - rewrite append_cons. cbn [JsString.endsWith]. rewrite IH. apply orb_true_r.
Qed.

Lemma dropLast_append s c :
  Files.dropLast (String.append s (String c EmptyString)) = s.
Proof.
  unfold Files.dropLast.
  assert (H : list_ascii_of_string (String.append s (String c EmptyString))
              = list_ascii_of_string s ++ [c]).
  { induction s as [|x s IH]; [reflexivity|]. rewrite append_cons. simpl. now rewrite IH. }
  rewrite H, removelast_last. apply string_of_list_ascii_of_string.
Qed.

(** X29.  An upload is kept entirely or removed entirely.  Once multer has
    stored the files of a request, the callback of [POST /api/files/upload]
    either keeps all of them, which happens exactly when every file has an
    allowed type, or calls [unlink] on every stored file, answers 415 and
    audits [UPLOAD_REJECTED] for the first file whose type is not allowed.
    With an empty allow-list every file is allowed, and an entry [t/*] of the
    list allows exactly the files whose type starts with [t/]. *)
Theorem upload_is_kept_or_removed_entirely
    (maxUploadBytes : Z) (mimeLookup : string -> option string)
    (allowedUploadMimes : list string) (files : list Files.UploadedFile) :
  files <> [] ->
  let validate := Files.validateUploadFileType mimeLookup allowedUploadMimes in
  match Files.uploadHandler maxUploadBytes mimeLookup allowedUploadMimes None (Some files) with
  | (Files.FilesUploaded kept, log) =>
      kept = files /\ forallb validate files = true
      /\ exists d, log = [{| Server.action := "FILES_UPLOADED"; Server.details := d |}]
  | (Files.UploadRejected unlinked r, log) =>
      unlinked = map Files.path files
      /\ Server.status r = 415
      /\ (exists before file after,
             files = before ++ file :: after
             /\ forallb validate before = true
             /\ validate file = false
             /\ log = [{| Server.action := "UPLOAD_REJECTED";
                          Server.details := [("reason", "invalid_file_type");
                                             ("filename", Files.originalname file)] |}])
  | _ => False
  end
  /\ (allowedUploadMimes = [] -> forallb validate files = true)
  /\ (forall t file,
        Files.validateUploadFileType mimeLookup [String.append t "/*"] file
        = JsString.startsWith
            (match mimeLookup (Files.originalname file) with
             | Some m => if JsString.truthy m then m else "application/octet-stream"
             | None => "application/octet-stream"
             end) (String.append t "/")).
Proof.
  intros Hne validate. split; [|split].
  - unfold Files.uploadHandler. destruct files as [|f r]; [congruence|].
    fold validate.
    destruct (Files.firstRejected validate (f :: r)) as [file|] eqn:Hfirst.
    + split; [reflexivity|]. split; [reflexivity|].
      destruct (firstRejected_Some _ _ _ Hfirst) as (b & a & Hsplit & Hb & Hv).
      exists b, file, a. easy.
    + split; [reflexivity|]. split; [now apply firstRejected_None|]. eauto.
  - intros ->. apply forallb_forall. intros file _. reflexivity.
  - intros t file. unfold Files.validateUploadFileType. cbn [length Nat.eqb existsb].
    rewrite endsWith_append, orb_false_r.
    change (String.append t "/*") with (String.append t (String.append "/" "*")).
    rewrite <- append_assoc', dropLast_append. reflexivity.
Qed.

(** X29 for an upload of a picture and a program when only images are
    allowed. *)
Lemma upload_is_kept_or_removed_entirely_witness :
  fst (Files.uploadHandler 1000 Demo.mimeLookup ["image/*"] None (Some Demo.uploads))
  = Files.UploadRejected ["/data/a.png"; "/data/b.exe"]
      {| Server.status := 415; Server.body := "File type not allowed: b.exe" |}
  /\ ["/data/a.png"; "/data/b.exe"] = map Files.path Demo.uploads.
Proof.
  split; [reflexivity|].
  pose proof (proj1 (upload_is_kept_or_removed_entirely 1000 Demo.mimeLookup ["image/*"] Demo.uploads
                       ltac:(discriminate))) as H.
  destruct H as [H _]. exact H.
Defined.

Lemma all_FsOk {A} (promises : list (fsres A)) values :
  Tree.all promises = FsOk values <-> promises = map FsOk values.
Proof.
  revert values. induction promises as [|p r IH]; intros values; simpl.
  - split; [intros [= <-]; reflexivity|]. destruct values; [reflexivity|discriminate].
  - destruct p as [a|code].
    + destruct (Tree.all r) as [vs|code] eqn:Hr.
      * split.
        -- intros [= <-]. simpl. f_equal. now apply IH.
        -- destruct values as [|v vs']; [discriminate|]. simpl. intros [= <- Hrest].
           apply IH in Hrest. now injection Hrest as <-.
      * split; [discriminate|]. destruct values as [|v vs']; [discriminate|].
        simpl. intros [= <- Hrest]. apply IH in Hrest. discriminate.
    + split; [discriminate|]. destruct values; discriminate.
Qed.

Lemma all_FsErr {A} (promises : list (fsres A)) code :
  Tree.all promises = FsErr code -> In (FsErr code) promises.
Proof.
  induction promises as [|p r IH]; simpl; [discriminate|].
  destruct p as [a|c]; [|intros [= <-]; now left].
  destruct (Tree.all r); [discriminate|]. intros [= <-]. right. now apply IH.
Qed.

(** X30.  [GET /api/tree] lists a directory only when [stat] succeeds on every
    one of its entries: the answer then holds one entry per dirent, with the
    dirent's name and kind, directories before files.  When [stat] fails on
    some entry (a dangling symbolic link, say) the whole request fails with
    the error of such an entry. *)
Theorem tree_listing_needs_every_stat
    (root cwd : string) (fs : FileSystem)
    (readdir : string -> fsres (list Tree.Dirent))
    (mimeLookup : string -> option string) (localeCompare : string -> string -> Z)
    (label : string -> string) (queryPath : option string)
    (targetPath : string) (stats : Stats) (dirents : list Tree.Dirent) :
  Utils.resolveSafePathWithSymlinkCheck root cwd fs
    (match queryPath with
     | Some p => if JsString.truthy p then p else "."
     | None => "."
     end) = Return targetPath ->
  stat fs targetPath = FsOk stats ->
  st_isDirectory stats = true ->
  readdir targetPath = FsOk dirents ->
  let answer := Tree.tree root cwd fs readdir mimeLookup localeCompare label queryPath in
  (forall path entries,
     answer = Tree.Success path entries ->
     Forall (fun d => exists st, stat fs (Path.join [targetPath; Tree.name d]) = FsOk st)
       dirents
     /\ Permutation (map (fun e => (Search.name e, Search.isDirectory e)) entries)
          (map (fun d => (Tree.name d, Tree.isDirectory d)) dirents)
     /\ Search.directoriesFirst entries = true)
  /\ (forall d code,
        In d dirents ->
        stat fs (Path.join [targetPath; Tree.name d]) = FsErr code ->
        exists d' code',
          In d' dirents
          /\ stat fs (Path.join [targetPath; Tree.name d']) = FsErr code'
          /\ answer = Tree.Passed (ErrnoException code')).
Proof.
  intros Hres Hstat Hdir Hread answer. subst answer. unfold Tree.tree.
  rewrite Hres, Hstat, Hdir. cbn [negb]. unfold Tree.getDirectoryEntries. rewrite Hread.
  destruct (Tree.all (map (Tree.entry fs mimeLookup label targetPath) dirents))
    as [values|code] eqn:Hall.
  - apply all_FsOk in Hall. split.
    + intros path entries [= <- <-]. split; [|split].
      * clear -Hall. revert values Hall.
        induction dirents as [|d r IH]; intros values Hall; [constructor|].
        destruct values as [|v vs]; [discriminate|]. cbn [map] in Hall.
        injection Hall as Hd Hr. constructor; [|now apply (IH vs)].
        unfold Tree.entry in Hd. destruct (stat fs _) as [st|]; [eauto|discriminate].
      * rewrite sort_Permutation.
        replace (map (fun e => (Search.name e, Search.isDirectory e)) values)
          with (map (fun d => (Tree.name d, Tree.isDirectory d)) dirents); [reflexivity|].
        clear -Hall. revert values Hall.
        induction dirents as [|d r IH]; intros values Hall;
          destruct values as [|v vs]; try discriminate; [reflexivity|].
        cbn [map] in Hall. injection Hall as Hd Hr. cbn [map]. rewrite (IH vs Hr). f_equal.
        unfold Tree.entry in Hd. destruct (stat fs _); [|discriminate].
        now injection Hd as <-.
      * apply sort_directoriesFirst.
    + intros d code Hin Hfail. exfalso.
      assert (Hd : In (Tree.entry fs mimeLookup label targetPath d)
                     (map (Tree.entry fs mimeLookup label targetPath) dirents))
        by now apply in_map.
      rewrite Hall in Hd. apply in_map_iff in Hd as (v & Hv & _).
      unfold Tree.entry in Hv. rewrite Hfail in Hv. discriminate.
  - split; [discriminate|]. intros _ _ _ _.
    apply all_FsErr, in_map_iff in Hall as (d' & Hd' & Hin').
    exists d', code. split; [assumption|]. split; [|reflexivity].
    revert Hd'. unfold Tree.entry.
    destruct (stat fs (Path.join [targetPath; Tree.name d'])); [discriminate|].
    now intros [= ->].
Qed.

(** X30 for a directory with two files and a sub-directory. *)
Lemma tree_listing_needs_every_stat_witness :
  exists path entries,
    Tree.tree "/data" "/" Demo.plainFs Demo.listing (fun _ => None) Demo.localeCompare
      (fun p => p) None
    = Tree.Success path entries
    /\ map Search.name entries = ["docs"; "a.txt"; "b.txt"]
    /\ Search.directoriesFirst entries = true.
Proof.
  eexists. eexists. split; [vm_compute; reflexivity|]. split; [reflexivity|].
  apply (proj1 (tree_listing_needs_every_stat "/data" "/" Demo.plainFs Demo.listing
                  (fun _ => None) Demo.localeCompare (fun p => p) None
                  "/data" Demo.dirStats _ eq_refl eq_refl eq_refl eq_refl) _ _ eq_refl).
Defined.
